(** * Plateful: a shallow embedding of the recipe workflow and its properties

    The development follows the TypeScript sources file by file:
    - [JS]            the JavaScript built-ins the sources call: strings as
                      sequences of UTF-16 code units, [parseInt], the
                      backtracking matcher behind [String.prototype.match],
                      JSON text and base64;
    - [RecipeCard]    the pure helper of src/components/RecipeCard.tsx;
    - exceptions, and the built-ins that throw ([btoa], [atob]);
    - [Types]         src/types.ts;
    - [GeminiService] src/services/geminiService.ts;
    - [App]           the state and the handlers of src/App.tsx;
    - [Builtins]      numbers as text, arrays and [Math.random];
    - [RecipeCardView] what a card of src/components/RecipeCard.tsx shows;
    - [LoadingTips], [TimerWidget]  src/components/LoadingTips.tsx and the
                      timer widget that follows it there;
    - [SavedStorage], [AppView]  the storage effects of src/App.tsx and
                      what its page shows.
    Then come the vocabulary of the statements, the sample inputs, and the
    lemmas and theorems, component by component. *)

From Stdlib Require Import String Ascii.
From Stdlib Require Import List NArith ZArith Bool Lia Arith Permutation.
From Stdlib Require QArith Qround.
Import ListNotations.

Set Implicit Arguments.

(* ================================================================== *)
(** * JavaScript built-ins *)
(* ================================================================== *)

Module JS.

(** A JavaScript string is a finite sequence of UTF-16 code units. *)
Definition jsstring := list N.

(** String literals of the sources are ASCII; [js] reads one. *)
Definition js (s : string) : jsstring :=
  map N_of_ascii (list_ascii_of_string s).
Arguments js s%_string.

Definition jsstring_eqb (a b : jsstring) : bool :=
  if list_eq_dec N.eq_dec a b then true else false.

(** The double quote, for the literals that contain one. *)
Definition dquote : jsstring := [34%N].

Definition in_range (lo hi c : N) : bool := (lo <=? c)%N && (c <=? hi)%N.

(** The class [\d]. *)
Definition is_digit (c : N) : bool := in_range 48 57 c.

(** WhiteSpace and LineTerminator code units: the class [\s], and what
    [String.prototype.trim] strips. *)
Definition is_space (c : N) : bool :=
  in_range 9 13 c || (c =? 32)%N || (c =? 160)%N || (c =? 5760)%N
  || in_range 8192 8202 c || (c =? 8232)%N || (c =? 8233)%N
  || (c =? 8239)%N || (c =? 8287)%N || (c =? 12288)%N || (c =? 65279)%N.

(** [toLowerCase] on one code unit: ASCII and Latin-1 letters.  Code units
    above 255 are left as they are; none of them lowers to an ASCII letter
    that the sources test for. *)
Definition lower (c : N) : N :=
  if in_range 65 90 c then (c + 32)%N
  else if in_range 192 222 c && negb (c =? 215)%N then (c + 32)%N
  else c.

Definition toLowerCase (s : jsstring) : jsstring := map lower s.

(** Canonicalize of the regular-expression semantics under flag [i] (no
    flag [u]).  On ASCII it is upper-casing; a code unit from 128 on is never
    canonicalized to an ASCII one, so against the ASCII letters of a pattern
    only this part decides. *)
Definition canonicalize (c : N) : N :=
  if in_range 97 122 c then (c - 32)%N else c.

Fixpoint dropWhile (p : N -> bool) (s : jsstring) : jsstring :=
  match s with
  | c :: s' => if p c then dropWhile p s' else s
  | [] => []
  end.

Fixpoint takeWhile (p : N -> bool) (s : jsstring) : jsstring :=
  match s with
  | c :: s' => if p c then c :: takeWhile p s' else []
  | [] => []
  end.

Definition trimStart (s : jsstring) : jsstring := dropWhile is_space s.
Definition trimEnd (s : jsstring) : jsstring := rev (dropWhile is_space (rev s)).
Definition trim (s : jsstring) : jsstring := trimEnd (trimStart s).

Fixpoint startsWith (s prefix : jsstring) : bool :=
  match prefix, s with
  | [], _ => true
  | p :: prefix', c :: s' => (c =? p)%N && startsWith s' prefix'
  | _ :: _, [] => false
  end.

Fixpoint includes (s sub : jsstring) : bool :=
  startsWith s sub ||
  match s with
  | [] => false
  | _ :: s' => includes s' sub
  end.

(** [s.indexOf(c)] for a one-character needle; -1 when absent. *)
Fixpoint indexOf_from (c : N) (s : jsstring) (i : Z) : Z :=
  match s with
  | [] => (-1)%Z
  | x :: s' => if (x =? c)%N then i else indexOf_from c s' (i + 1)%Z
  end.
Definition indexOf (s : jsstring) (c : N) : Z := indexOf_from c s 0%Z.

(** [s.substring(a, b)]: both bounds clamped to [0, length], swapped when
    out of order. *)
Definition substring (s : jsstring) (a b : Z) : jsstring :=
  let len := Z.of_nat (length s) in
  let clamp x := Z.to_nat (Z.min (Z.max x 0) len) in
  let lo := Nat.min (clamp a) (clamp b) in
  let hi := Nat.max (clamp a) (clamp b) in
  firstn (hi - lo) (skipn lo s).

(** [s.split(c)] for a one-character separator. *)
Fixpoint split (c : N) (s : jsstring) : list jsstring :=
  match s with
  | [] => [[]]
  | x :: s' =>
      if (x =? c)%N then [] :: split c s'
      else match split c s' with
           | piece :: rest => (x :: piece) :: rest
           | [] => [[x]]
           end
  end.

(** [xs.join(sep)]. *)
Fixpoint join (sep : jsstring) (xs : list jsstring) : jsstring :=
  match xs with
  | [] => []
  | [x] => x
  | x :: rest => x ++ sep ++ join sep rest
  end.

(** ** Numbers

    The sources compute with whole numbers of seconds.  A number is [NaN],
    an infinity, or a finite double whose value is an integer: [Num z]
    stands for the double of value [z].  The results of [parseInt] and of
    the products are rounded as doubles are, by [to_double]. *)
Inductive number := NaN | Infinity (negative : bool) | Num (z : Z).

(** The double nearest to the integer [z]: [z] itself below 2^53; from
    there on the nearest number with a significand of 53 bits, the one with
    the even significand when two are equally near; an infinity when that
    number would be 2^1024 or more. *)
Definition to_double (z : Z) : number :=
  let a := Z.abs z in
  if (a <? 2 ^ 53)%Z then Num z
  else
    let e := (Z.log2 a - 52)%Z in
    let q := (a / 2 ^ e)%Z in
    let r := (a mod 2 ^ e)%Z in
    let half := (2 ^ (e - 1))%Z in
    let q' := if (r <? half)%Z then q
              else if (half <? r)%Z then (q + 1)%Z
              else if Z.even q then q else (q + 1)%Z in
    let m := (q' * 2 ^ e)%Z in
    if (2 ^ 1024 <=? m)%Z then Infinity (z <? 0)%Z
    else Num (Z.sgn z * m).

(** [a * b] on doubles with integer values: the exact product, rounded. *)
Definition mul (a b : number) : number :=
  match a, b with
  | NaN, _ | _, NaN => NaN
  | Num x, Num y => to_double (x * y)
  | Infinity s, Num y | Num y, Infinity s =>
      if (y =? 0)%Z then NaN else Infinity (xorb s (y <? 0)%Z)
  | Infinity s, Infinity t => Infinity (xorb s t)
  end.

Definition digits_value (ds : jsstring) : Z :=
  fold_left (fun acc d => (acc * 10 + (Z.of_N d - 48))%Z) ds 0%Z.

(** [parseInt(s, 10)]: leading white space, an optional sign, then the
    longest run of decimal digits; [NaN] when that run is empty, otherwise
    the double nearest to the integer that the digits write.  (From the 21st
    significant digit on, the standard lets an implementation read the
    digits as zeros; the engines round the whole integer, as here.) *)
Definition parseInt10 (s : jsstring) : number :=
  let s1 := trimStart s in
  let '(sign, s2) :=
    match s1 with
    | c :: t =>
        if (c =? 45)%N then ((-1)%Z, t)
        else if (c =? 43)%N then (1%Z, t)
        else (1%Z, s1)
    | [] => (1%Z, s1)
    end in
  match takeWhile is_digit s2 with
  | [] => NaN
  | ds => to_double (sign * digits_value ds)
  end.

(** ** Regular expressions

    The fragment of the pattern language that [timeRegex] is written in:
    characters (compared under flag [i]), classes, the greedy quantifiers
    [*] and [+] on a class, [?] on a group, sequence, alternation and
    capture groups.  The matcher is the backtracking matcher of the language
    definition, in continuation-passing style: alternatives are tried left
    to right, quantifiers take as much as they can and give back one
    character at a time. *)
Inductive regex :=
| Eps
| Chr (c : N)
| Cls (p : N -> bool)
| Star (p : N -> bool)
| Plus (p : N -> bool)
| Seq (a b : regex)
| Alt (a b : regex)
| Opt (a : regex)
| Group (n : nat) (a : regex).

(** Captures, most recent binding first. *)
Definition captures := list (nat * jsstring).

Fixpoint capture (n : nat) (caps : captures) : option jsstring :=
  match caps with
  | [] => None
  | (i, w) :: rest => if Nat.eqb i n then Some w else capture n rest
  end.

Definition cont := jsstring -> captures -> option captures.

Fixpoint star (p : N -> bool) (s : jsstring) (caps : captures) (k : cont)
  : option captures :=
  match s with
  | c :: s' =>
      if p c then
        match star p s' caps k with
        | Some r => Some r
        | None => k s caps
        end
      else k s caps
  | [] => k s caps
  end.

Fixpoint m (r : regex) (s : jsstring) (caps : captures) (k : cont)
  : option captures :=
  match r with
  | Eps => k s caps
  | Chr c =>
      match s with
      | ch :: s' => if (canonicalize ch =? canonicalize c)%N then k s' caps else None
      | [] => None
      end
  | Cls p =>
      match s with
      | ch :: s' => if p ch then k s' caps else None
      | [] => None
      end
  | Star p => star p s caps k
  | Plus p =>
      match s with
      | ch :: s' => if p ch then star p s' caps k else None
      | [] => None
      end
  | Seq a b => m a s caps (fun s1 c1 => m b s1 c1 k)
  | Alt a b =>
      match m a s caps k with
      | Some x => Some x
      | None => m b s caps k
      end
  | Opt a =>
      match m a s caps k with
      | Some x => Some x
      | None => k s caps
      end
  | Group n a =>
      m a s caps
        (fun s1 c1 => k s1 ((n, firstn (length s - length s1) s) :: c1))
  end.

(** A literal word of the pattern. *)
Fixpoint lit (w : jsstring) : regex :=
  match w with
  | [] => Eps
  | [c] => Chr c
  | c :: w' => Seq (Chr c) (lit w')
  end.

(** [s.match(r)] for a pattern without flag [g]: the match at the leftmost
    start index that has one; [None] is [null]. *)
Fixpoint str_match (r : regex) (s : jsstring) : option captures :=
  match m r s [] (fun _ caps => Some caps) with
  | Some caps => Some caps
  | None =>
      match s with
      | [] => None
      | _ :: s' => str_match r s'
      end
  end.

(** ** JSON text and base64 *)

Definition hex_digit (d : N) : N :=
  if (d <? 10)%N then (48 + d)%N else (87 + d)%N.

(** The escape [\uXXXX] of one code unit, in lower-case hexadecimal. *)
Definition unicode_escape (c : N) : jsstring :=
  [92; 117; hex_digit (c / 4096); hex_digit ((c / 256) mod 16);
   hex_digit ((c / 16) mod 16); hex_digit (c mod 16)]%N.

Definition is_high_surrogate (c : N) : bool := in_range 55296 56319 c.
Definition is_low_surrogate (c : N) : bool := in_range 56320 57343 c.

(** QuoteJSONString without the enclosing quotes: the short escapes, the
    control characters and lone surrogates as [\uXXXX], every other code
    unit as it is. *)
Fixpoint quote_body (s : jsstring) : jsstring :=
  match s with
  | [] => []
  | c :: s' =>
      if is_high_surrogate c then
        match s' with
        | d :: s'' =>
            if is_low_surrogate d then c :: d :: quote_body s''
            else unicode_escape c ++ quote_body s'
        | [] => unicode_escape c
        end
      else if is_low_surrogate c then unicode_escape c ++ quote_body s'
      else if (c =? 8)%N then [92; 98]%N ++ quote_body s'
      else if (c =? 9)%N then [92; 116]%N ++ quote_body s'
      else if (c =? 10)%N then [92; 110]%N ++ quote_body s'
      else if (c =? 12)%N then [92; 102]%N ++ quote_body s'
      else if (c =? 13)%N then [92; 114]%N ++ quote_body s'
      else if (c =? 34)%N then [92; 34]%N ++ quote_body s'
      else if (c =? 92)%N then [92; 92]%N ++ quote_body s'
      else if (c <? 32)%N then unicode_escape c ++ quote_body s'
      else c :: quote_body s'
  end.

(** [JSON.stringify] of a string, of a boolean, of an array of strings. *)
Definition stringify_string (s : jsstring) : jsstring :=
  dquote ++ quote_body s ++ dquote.

Definition stringify_bool (b : bool) : jsstring :=
  if b then js "true" else js "false".

Definition stringify_strings (xs : list jsstring) : jsstring :=
  js "[" ++ join (js ",") (map stringify_string xs) ++ js "]".

(** [JSON.stringify] of an object, from its own properties in order; a
    property whose value is [undefined] is left out. *)
Definition stringify_object (props : list (jsstring * option jsstring)) : jsstring :=
  let member (kv : jsstring * option jsstring) :=
    match snd kv with
    | Some v => [stringify_string (fst kv) ++ js ":" ++ v]
    | None => []
    end in
  js "{" ++ join (js ",") (flat_map member props) ++ js "}".

(** The base64 alphabet. *)
Definition base64_char (i : N) : N :=
  if (i <? 26)%N then (65 + i)%N
  else if (i <? 52)%N then (97 + (i - 26))%N
  else if (i <? 62)%N then (48 + (i - 52))%N
  else if (i =? 62)%N then 43%N
  else 47%N.

Fixpoint base64_encode (bytes : list N) : jsstring :=
  match bytes with
  | a :: b :: c :: rest =>
      [base64_char (a / 4); base64_char ((a mod 4) * 16 + b / 16);
       base64_char ((b mod 16) * 4 + c / 64); base64_char (c mod 64)]%N
      ++ base64_encode rest
  | [a; b] =>
      [base64_char (a / 4); base64_char ((a mod 4) * 16 + b / 16);
       base64_char ((b mod 16) * 4); 61]%N
  | [a] => [base64_char (a / 4); base64_char ((a mod 4) * 16); 61; 61]%N
  | [] => []
  end.

End JS.
Import JS.

(* ================================================================== *)
(** * src/components/RecipeCard.tsx *)
(* ================================================================== *)

Module RecipeCard.

(** The pattern literal of the source, written with blanks between its parts:
    [/ (?: (\d+) \s* to \s* )? (\d+) \s* (minute|minutes|hour|hours) /i] *)
Definition timeRegex : regex :=
  Seq (Opt (Seq (Group 1 (Plus is_digit))
           (Seq (Star is_space) (Seq (lit (js "to")) (Star is_space)))))
  (Seq (Group 2 (Plus is_digit))
  (Seq (Star is_space)
       (Group 3 (Alt (lit (js "minute")) (Alt (lit (js "minutes"))
                (Alt (lit (js "hour")) (lit (js "hours")))))))).

Record timed_instruction := {
  text : jsstring;
  timeInSeconds : option number
}.

(** A group that did not take part in the match is [undefined], which
    [parseInt] turns into [NaN] and [toLowerCase] refuses; neither happens
    for [timeRegex], whose groups 2 and 3 are not optional. *)
Definition group (n : nat) (caps : captures) : jsstring :=
  match capture n caps with
  | Some w => w
  | None => js "undefined"
  end.

Definition parseInstructionForTime (instruction : jsstring) : timed_instruction :=
  match str_match timeRegex instruction with
  | Some match_ =>
      let value := parseInt10 (group 2 match_) in
      let unit_ := toLowerCase (group 3 match_) in
      let seconds :=
        if startsWith unit_ (js "hour") then mul value (Num 3600)
        else mul value (Num 60) in
      {| text := instruction; timeInSeconds := Some seconds |}
  | None => {| text := instruction; timeInSeconds := None |}
  end.

End RecipeCard.
Import RecipeCard.


(* ================================================================== *)
(** * Exceptions *)
(* ================================================================== *)

(** What a [throw] carries: an [Error] with its message, or any other
    value (the SDK and the platform may reject with either). *)
Inductive exn :=
| Error (message : jsstring)
| Thrown.

(** The outcome of a call that may throw (of a promise that may reject). *)
Inductive result (A : Type) :=
| Ok (a : A)
| Throw (e : exn).
Arguments Ok {A} a.
Arguments Throw {A} e.

Definition bind {A B} (c : result A) (k : A -> result B) : result B :=
  match c with
  | Ok a => k a
  | Throw e => Throw e
  end.

(** [try { c } catch (e) { h e }] *)
Definition try_catch {A} (c : result A) (h : exn -> result A) : result A :=
  match c with
  | Ok a => Ok a
  | Throw e => h e
  end.

Declare Scope js_scope.
Delimit Scope js_scope with js.
Notation "x <- c ;; k" := (bind c (fun x => k))
  (at level 61, c at next level, right associativity) : js_scope.
Open Scope js_scope.

(** Reading a property of [undefined] is a [TypeError]. *)
Definition TypeError : exn := Error (js "Cannot read properties of undefined").

Definition defined {A} (v : option A) : result A :=
  match v with
  | Some a => Ok a
  | None => Throw TypeError
  end.


(** ** [btoa], [atob] and the query string *)

Definition InvalidCharacterError : exn :=
  Error (js "The string contains invalid characters.").

(** [btoa(s)]: every code unit is taken as one byte; a code unit above 255
    makes it throw. *)
Definition btoa (s : jsstring) : result jsstring :=
  if forallb (fun c => (c <=? 255)%N) s then Ok (base64_encode s)
  else Throw InvalidCharacterError.

Definition is_ascii_whitespace (c : N) : bool :=
  (c =? 9)%N || (c =? 10)%N || (c =? 12)%N || (c =? 13)%N || (c =? 32)%N.

Definition base64_index (c : N) : option N :=
  if in_range 65 90 c then Some (c - 65)%N
  else if in_range 97 122 c then Some (c - 71)%N
  else if in_range 48 57 c then Some (c + 4)%N
  else if (c =? 43)%N then Some 62%N
  else if (c =? 47)%N then Some 63%N
  else None.

Fixpoint sextets (s : jsstring) : option (list N) :=
  match s with
  | [] => Some []
  | c :: s' =>
      match base64_index c, sextets s' with
      | Some i, Some rest => Some (i :: rest)
      | _, _ => None
      end
  end.

Fixpoint decode_sextets (l : list N) : jsstring :=
  match l with
  | a :: b :: c :: d :: rest =>
      [a * 4 + b / 16; (b mod 16) * 16 + c / 4; (c mod 4) * 64 + d]%N
      ++ decode_sextets rest
  | [a; b; c] => [a * 4 + b / 16; (b mod 16) * 16 + c / 4]%N
  | [a; b] => [a * 4 + b / 16]%N
  | _ => []
  end.

Definition strip_padding (s : jsstring) : jsstring :=
  if (length s mod 4 =? 0)%nat then
    match rev s with
    | 61%N :: 61%N :: r => rev r
    | 61%N :: r => rev r
    | _ => s
    end
  else s.

(** [atob(s)], the forgiving base64 decoding: ASCII white space is dropped,
    then up to two padding characters when the length is a multiple of
    four; a length of 1 modulo 4 or a character outside the alphabet makes
    it throw. *)
Definition atob (s : jsstring) : result jsstring :=
  let data := strip_padding (filter (fun c => negb (is_ascii_whitespace c)) s) in
  if (length data mod 4 =? 1)%nat then Throw InvalidCharacterError
  else match sextets data with
       | Some l => Ok (decode_sextets l)
       | None => Throw InvalidCharacterError
       end.

(** [new URLSearchParams(search).get(name)] on the query [?name=v] that a
    shareable link carries.  The value [v] of such a link is base64 text,
    free of [%], [&] and [#]: of the form decoding only the replacement of
    [+] by a space applies to it. *)
Definition searchParams_value (v : jsstring) : jsstring :=
  map (fun c => if (c =? 43)%N then 32%N else c) v.

(* ================================================================== *)
(** * src/types.ts *)
(* ================================================================== *)

Module Types.

Record Recipe := {
  id : jsstring;
  recipeName : jsstring;
  description : jsstring;
  ingredients : list jsstring;
  instructions : list jsstring;
  imagePrompt : jsstring;
  imageUrl : option jsstring;
  imageError : option bool
}.

End Types.
Import Types.

(* ================================================================== *)
(** * src/services/geminiService.ts *)
(* ================================================================== *)

Module GeminiService.

(** ** The SDK, as one caller sees it *)

Inductive Part :=
| InlineData (mimeType : jsstring) (data : option jsstring)
| TextPart (text : jsstring).

#[warnings="-register-all"] Inductive Schema :=
| TString
| TArray (items : Schema)
| TObject (properties : list (jsstring * Schema)) (required : list jsstring).

Inductive Config :=
| Temperature (t : Z)
| JsonResponse (responseSchema : Schema).

Record ContentRequest := {
  model : jsstring;
  parts : list Part;
  config : Config
}.

Record ImagesRequest := {
  imagesModel : jsstring;
  prompt : jsstring;
  numberOfImages : nat;
  outputMimeType : jsstring;
  aspectRatio : jsstring
}.

(** One entry of [response.generatedImages]: [None] when its [image] is
    missing, [Some None] when the image has no [imageBytes]. *)
Definition GeneratedImage := option (option jsstring).

(** The [ai] object.  The service is not a function of the request: the
    same request may be answered differently each time.  The extra argument
    is the round of the calling function in which the request is made (the
    attempt number inside the image loop); every answer is either a
    rejection or a response, of which the sources read [text] (possibly
    undefined) and [generatedImages] (possibly undefined). *)
Record GoogleGenAI := {
  generateContent : nat -> ContentRequest -> result (option jsstring);
  generateImages : nat -> ImagesRequest -> result (option (list GeneratedImage))
}.

(** What [JSON.parse] returns, as far as [parseAndPrepareRecipes] looks at
    it: an array or not.  An element is read at the type [Recipe]: the five
    properties that [recipeSchema] asks the model for, and [imageUrl] and
    [imageError] where the element has them.  An [id] of the element is
    overwritten and not kept here. *)
Record RawRecipe := {
  rawRecipeName : jsstring;
  rawDescription : jsstring;
  rawIngredients : list jsstring;
  rawInstructions : list jsstring;
  rawImagePrompt : jsstring;
  rawImageUrl : option jsstring;
  rawImageError : option bool
}.

Inductive JSONValue :=
| JArray (items : list RawRecipe)
| JOther.

(** The platform: [JSON.parse] (which throws a [SyntaxError] on malformed
    text) and [crypto.randomUUID], whose n-th draw is [randomUUID n].
    [JSON_parse_recipe] is [JSON.parse] where the application reads the
    value as one recipe (a shared link); an absent [id] or [recipeName]
    reads as the empty string, which is falsy as well. *)
Record Platform := {
  JSON_parse : jsstring -> result JSONValue;
  JSON_parse_recipe : jsstring -> result Recipe;
  randomUUID : nat -> jsstring
}.

Definition recipeSchema : Schema :=
  TArray (TObject
    [ (js "recipeName", TString);
      (js "description", TString);
      (js "ingredients", TArray TString);
      (js "instructions", TArray TString);
      (js "imagePrompt", TString) ]
    [ js "recipeName"; js "description"; js "ingredients";
      js "instructions"; js "imagePrompt" ]).

(** [xs.map(x => f(x, crypto.randomUUID()))], drawing from the [n]-th UUID
    on; the second component is the number of UUIDs drawn afterwards. *)
Fixpoint map_with_uuid {A B} (pf : Platform) (f : A -> jsstring -> B)
  (xs : list A) (n : nat) : list B * nat :=
  match xs with
  | [] => ([], n)
  | x :: xs' =>
      let y := f x (randomUUID pf n) in
      let '(ys, n') := map_with_uuid pf f xs' (S n) in
      (y :: ys, n')
  end.

Section Service.

Variable ai : GoogleGenAI.
Variable pf : Platform.

(** [base64ImageData] is what the caller found after the comma of a data
    URL: [None] is [undefined], when there was no comma. *)
Definition isFoodImage (round : nat) (base64ImageData : option jsstring)
  (mimeType : jsstring) : result bool :=
  try_catch
    (let imagePart := InlineData mimeType base64ImageData in
     let textPart := TextPart
       (js "Is this an image of food, edible ingredients, or a dish? Answer with only 'yes' or 'no'.") in
     response <- generateContent ai round
       {| model := js "gemini-2.5-flash";
          parts := [imagePart; textPart];
          config := Temperature 0 |} ;;
     text <- defined response ;;
     Ok (includes (toLowerCase (trim text)) (js "yes")))
    (fun error => Ok false).

Definition generateRecipeImage (round : nat) (prompt_ : jsstring)
  : result jsstring :=
  response <- generateImages ai round
    {| imagesModel := js "imagen-4.0-generate-001";
       prompt := prompt_;
       numberOfImages := 1;
       outputMimeType := js "image/jpeg";
       aspectRatio := js "4:3" |} ;;
  match response with
  | Some (first :: _) =>
      image <- defined first ;;
      let base64ImageBytes :=
        match image with
        | Some bytes => bytes
        | None => js "undefined"
        end in
      Ok (js "data:image/jpeg;base64," ++ base64ImageBytes)
  | _ => Throw (Error (js "Image generation failed to return an image."))
  end.

Definition validateRecipeImage (round : nat) (recipeName_ : jsstring)
  (base64ImageData : jsstring) : result bool :=
  try_catch
    (let mimeType :=
       substring base64ImageData
         (indexOf base64ImageData 58 + 1) (indexOf base64ImageData 59) in
     let data := nth_error (split 44 base64ImageData) 1 in
     let imagePart := InlineData mimeType data in
     let textPart := TextPart
       (js "Does this image accurately depict " ++ dquote ++ recipeName_ ++ dquote
        ++ js "? The image should look appealing and correctly represent the dish. Answer with only 'yes' or 'no'.") in
     response <- generateContent ai round
       {| model := js "gemini-2.5-flash";
          parts := [imagePart; textPart];
          config := Temperature 0 |} ;;
     text <- defined response ;;
     Ok (includes (toLowerCase (trim text)) (js "yes")))
    (fun error => Ok false).

(** [{ ...recipe, id }] on a raw record: every property of the record,
    and the identifier. *)
Definition with_id (recipe : RawRecipe) (uuid : jsstring) : Recipe :=
  {| id := uuid;
     recipeName := rawRecipeName recipe;
     description := rawDescription recipe;
     ingredients := rawIngredients recipe;
     instructions := rawInstructions recipe;
     imagePrompt := rawImagePrompt recipe;
     imageUrl := rawImageUrl recipe;
     imageError := rawImageError recipe |}.

(** The second argument and the second component of the result count the
    UUIDs drawn so far. *)
Definition parseAndPrepareRecipes (jsonString : jsstring) (n : nat)
  : result (list Recipe) * nat :=
  match JSON_parse pf jsonString with
  | Throw e => (Throw e, n)
  | Ok JOther =>
      (Throw (Error (js "AI did not return a valid list of recipes.")), n)
  | Ok (JArray parsed) =>
      (* Limit to 3 recipes for performance and UI reasons *)
      let parsed := firstn 3 parsed in
      let '(prepared, n') := map_with_uuid pf with_id parsed n in
      (Ok prepared, n')
  end.

Definition excludeText (exclude : list jsstring) : jsstring :=
  if (0 <? length exclude)%nat then
    js " Please generate recipes that are different from the following: "
    ++ join (js ", ") exclude ++ js "."
  else [].

Definition cuisineText (cuisines : list jsstring) : jsstring :=
  if (0 <? length cuisines)%nat then
    js " The recipes should fit the following cuisine style(s): "
    ++ join (js ", ") cuisines ++ js "."
  else [].

Definition recipeDetails : jsstring :=
  js " For each recipe, provide a unique name, a short description, a list of ingredients with quantities, and step-by-step cooking instructions. Also, create a detailed, visually descriptive prompt for an image generation model to create a photorealistic image of the finished dish. Ensure the output is a JSON array matching the provided schema.".

(** The common tail of the three fetches: send the parts, read the text,
    trim it, parse it. *)
Definition fetchRecipes (round : nat) (parts_ : list Part) (n : nat)
  : result (list Recipe) * nat :=
  match
    (response <- generateContent ai round
       {| model := js "gemini-2.5-flash";
          parts := parts_;
          config := JsonResponse recipeSchema |} ;;
     defined response)
  with
  | Throw e => (Throw e, n)
  | Ok text => parseAndPrepareRecipes (trim text) n
  end.

Definition getRecipesFromImage (round : nat) (base64ImageData : option jsstring)
  (mimeType : jsstring) (exclude cuisines : list jsstring) (n : nat)
  : result (list Recipe) * nat :=
  let imagePart := InlineData mimeType base64ImageData in
  let textPart := TextPart
    (js "Analyze the food items in this image. Based on the primary ingredients, generate three distinct and creative recipes."
     ++ cuisineText cuisines ++ excludeText exclude ++ recipeDetails) in
  fetchRecipes round [imagePart; textPart] n.

Definition getGenericRecipes (round : nat) (exclude : list jsstring) (n : nat)
  : result (list Recipe) * nat :=
  let textPart := TextPart
    (js "Generate three popular, distinct, and relatively simple recipes that many people would enjoy."
     ++ excludeText exclude ++ recipeDetails) in
  fetchRecipes round [textPart] n.

Definition getPopularRecipes (round : nat) (n : nat)
  : result (list Recipe) * nat :=
  let textPart := TextPart
    (js "Generate three globally popular and well-loved recipes from different cuisines (e.g., Italian, Mexican, Japanese)."
     ++ recipeDetails) in
  fetchRecipes round [textPart] n.

End Service.

End GeminiService.
Import GeminiService.


(* ================================================================== *)
(** * src/App.tsx *)
(* ================================================================== *)

Module App.

Record TimerConfig := {
  duration : number;
  timerDescription : jsstring
}.

(** The state of the component: one field per [useState]. *)
Record AppState := {
  image : option jsstring;
  recipes : option (list Recipe);
  isLoading : bool;
  error : option jsstring;
  copyNotification : option jsstring;
  savedRecipes : list Recipe;
  popularRecipes : list Recipe;
  isSavedRecipesOpen : bool;
  timerConfig : option TimerConfig;
  selectedCuisines : list jsstring
}.

Definition initialState : AppState :=
  {| image := None; recipes := None; isLoading := false; error := None;
     copyNotification := None; savedRecipes := []; popularRecipes := [];
     isSavedRecipesOpen := false; timerConfig := None;
     selectedCuisines := [] |}.

(** The setters.  [setRecipes], [setSavedRecipes], [setPopularRecipes] and
    [setSelectedCuisines] are used with an updater in the sources and take
    one here. *)
Definition setImage (v : option jsstring) (s : AppState) : AppState :=
  {| image := v; recipes := recipes s; isLoading := isLoading s;
     error := error s; copyNotification := copyNotification s;
     savedRecipes := savedRecipes s; popularRecipes := popularRecipes s;
     isSavedRecipesOpen := isSavedRecipesOpen s; timerConfig := timerConfig s;
     selectedCuisines := selectedCuisines s |}.

Definition updateRecipes (f : option (list Recipe) -> option (list Recipe))
  (s : AppState) : AppState :=
  {| image := image s; recipes := f (recipes s); isLoading := isLoading s;
     error := error s; copyNotification := copyNotification s;
     savedRecipes := savedRecipes s; popularRecipes := popularRecipes s;
     isSavedRecipesOpen := isSavedRecipesOpen s; timerConfig := timerConfig s;
     selectedCuisines := selectedCuisines s |}.

Definition setRecipes (v : option (list Recipe)) : AppState -> AppState :=
  updateRecipes (fun _ => v).

Definition setIsLoading (v : bool) (s : AppState) : AppState :=
  {| image := image s; recipes := recipes s; isLoading := v;
     error := error s; copyNotification := copyNotification s;
     savedRecipes := savedRecipes s; popularRecipes := popularRecipes s;
     isSavedRecipesOpen := isSavedRecipesOpen s; timerConfig := timerConfig s;
     selectedCuisines := selectedCuisines s |}.

Definition setError (v : option jsstring) (s : AppState) : AppState :=
  {| image := image s; recipes := recipes s; isLoading := isLoading s;
     error := v; copyNotification := copyNotification s;
     savedRecipes := savedRecipes s; popularRecipes := popularRecipes s;
     isSavedRecipesOpen := isSavedRecipesOpen s; timerConfig := timerConfig s;
     selectedCuisines := selectedCuisines s |}.

Definition setSavedRecipes (f : list Recipe -> list Recipe) (s : AppState)
  : AppState :=
  {| image := image s; recipes := recipes s; isLoading := isLoading s;
     error := error s; copyNotification := copyNotification s;
     savedRecipes := f (savedRecipes s); popularRecipes := popularRecipes s;
     isSavedRecipesOpen := isSavedRecipesOpen s; timerConfig := timerConfig s;
     selectedCuisines := selectedCuisines s |}.

Definition setPopularRecipes (f : list Recipe -> list Recipe) (s : AppState)
  : AppState :=
  {| image := image s; recipes := recipes s; isLoading := isLoading s;
     error := error s; copyNotification := copyNotification s;
     savedRecipes := savedRecipes s; popularRecipes := f (popularRecipes s);
     isSavedRecipesOpen := isSavedRecipesOpen s; timerConfig := timerConfig s;
     selectedCuisines := selectedCuisines s |}.

Definition setIsSavedRecipesOpen (v : bool) (s : AppState) : AppState :=
  {| image := image s; recipes := recipes s; isLoading := isLoading s;
     error := error s; copyNotification := copyNotification s;
     savedRecipes := savedRecipes s; popularRecipes := popularRecipes s;
     isSavedRecipesOpen := v; timerConfig := timerConfig s;
     selectedCuisines := selectedCuisines s |}.

Definition setTimerConfig (v : option TimerConfig) (s : AppState) : AppState :=
  {| image := image s; recipes := recipes s; isLoading := isLoading s;
     error := error s; copyNotification := copyNotification s;
     savedRecipes := savedRecipes s; popularRecipes := popularRecipes s;
     isSavedRecipesOpen := isSavedRecipesOpen s; timerConfig := v;
     selectedCuisines := selectedCuisines s |}.

Definition setSelectedCuisines (f : list jsstring -> list jsstring)
  (s : AppState) : AppState :=
  {| image := image s; recipes := recipes s; isLoading := isLoading s;
     error := error s; copyNotification := copyNotification s;
     savedRecipes := savedRecipes s; popularRecipes := popularRecipes s;
     isSavedRecipesOpen := isSavedRecipesOpen s; timerConfig := timerConfig s;
     selectedCuisines := f (selectedCuisines s) |}.

(** [r.id === other.id] *)
Definition same_id (r other : Recipe) : bool := jsstring_eqb (id r) (id other).

(** Truthiness of a string that may be [null]: [null] and the empty string
    are falsy. *)
Definition truthy (v : option jsstring) : bool :=
  match v with
  | Some (_ :: _) => true
  | _ => false
  end.

(** [{ ...r, imagePrompt: p }], [{ ...r, id: uuid }] and
    [{ ...r, imageUrl: u, imageError: e }]. *)
Definition with_imagePrompt (r : Recipe) (p : jsstring) : Recipe :=
  {| id := id r; recipeName := recipeName r; description := description r;
     ingredients := ingredients r; instructions := instructions r;
     imagePrompt := p; imageUrl := imageUrl r; imageError := imageError r |}.

Definition with_new_id (r : Recipe) (uuid : jsstring) : Recipe :=
  {| id := uuid; recipeName := recipeName r; description := description r;
     ingredients := ingredients r; instructions := instructions r;
     imagePrompt := imagePrompt r; imageUrl := imageUrl r;
     imageError := imageError r |}.

Definition with_image (r : Recipe) (u : option jsstring) (e : bool) : Recipe :=
  {| id := id r; recipeName := recipeName r; description := description r;
     ingredients := ingredients r; instructions := instructions r;
     imagePrompt := imagePrompt r; imageUrl := u; imageError := Some e |}.

(** ** generateAndSetImageForRecipe *)

Definition MAX_ATTEMPTS : nat := 2.

(** The local variables of the function.  [requested] is not in the
    source: it records, in order, the prompts passed to
    [generateRecipeImage], so that the attempts can be counted. *)
Record LoopState := {
  currentRecipe : Recipe;
  generatedUrl : option jsstring;   (* the local [imageUrl] *)
  isValid : bool;
  attempts : nat;
  requested : list jsstring
}.

Definition refinedPrompt (r : Recipe) : jsstring :=
  js "A more accurate, photorealistic image of: " ++ recipeName r
  ++ js ". Focus on the dish itself, described as: " ++ description r.

Section ImageLoop.

Variable ai : GoogleGenAI.

(** One turn of the [while] loop.  The assignments of the [try] block all
    come after its two calls, so a throw leaves only [attempts] changed and
    the [catch] block resets [isValid]. *)
Definition loop_body (st : LoopState) : LoopState :=
  let attempts' := S (attempts st) in
  let cur := currentRecipe st in
  let requested' := requested st ++ [imagePrompt cur] in
  match
    (generatedBase64 <- generateRecipeImage ai attempts' (imagePrompt cur) ;;
     valid <- validateRecipeImage ai attempts' (recipeName cur) generatedBase64 ;;
     Ok (generatedBase64, valid))
  with
  | Ok (generatedBase64, true) =>
      {| currentRecipe := cur; generatedUrl := Some generatedBase64;
         isValid := true; attempts := attempts'; requested := requested' |}
  | Ok (_, false) =>
      {| currentRecipe :=
           if (attempts' <? MAX_ATTEMPTS)%nat
           then (* Refine the prompt for the next attempt *)
                with_imagePrompt cur (refinedPrompt cur)
           else cur;
         generatedUrl := generatedUrl st;
         isValid := false; attempts := attempts'; requested := requested' |}
  | Throw imgErr =>
      {| currentRecipe := cur; generatedUrl := generatedUrl st;
         isValid := false; attempts := attempts'; requested := requested' |}
  end.

(** [while (!isValid && attempts < MAX_ATTEMPTS) body], with fuel. *)
Fixpoint while_loop (fuel : nat) (st : LoopState) : LoopState :=
  if negb (isValid st) && (attempts st <? MAX_ATTEMPTS)%nat then
    match fuel with
    | O => st
    | S fuel' => while_loop fuel' (loop_body st)
    end
  else st.

Definition run_loop (recipe : Recipe) : LoopState :=
  while_loop MAX_ATTEMPTS
    {| currentRecipe := recipe; generatedUrl := None; isValid := false;
       attempts := 0; requested := [] |}.

Definition finalRecipeState (recipe : Recipe) : Recipe :=
  let st := run_loop recipe in
  with_image (currentRecipe st)
    (if isValid st then generatedUrl st else None) (negb (isValid st)).

Definition imageAdvisory : jsstring :=
  js "We had trouble creating an image for one or more recipes. For best results, try starting over with a clearer photo of your ingredients.".

(** The whole function: the loop, then the three state updates, applied to
    the state as it is when the loop has finished. *)
Definition generateAndSetImageForRecipe (recipe : Recipe) (s : AppState)
  : AppState :=
  let final := finalRecipeState recipe in
  let replace r := if same_id r final then final else r in
  (* Update the specific recipe in the state *)
  let s1 := updateRecipes (fun prev => option_map (map replace) prev) s in
  let s2 := setPopularRecipes (fun prev => map replace prev) s1 in
  if negb (isValid (run_loop recipe)) then setError (Some imageAdvisory) s2
  else s2.

End ImageLoop.

(** ** The handlers *)

Definition handleImageSelect (base64Image : jsstring) (s : AppState) : AppState :=
  setError None (setRecipes None (setImage (Some base64Image) s)).

Definition notFoodAdvisory : jsstring :=
  js "This doesn't appear to be food. Here are some popular recipe ideas instead!".

(** A request sent to the gateway by a handler. *)
Inductive GatewayCall :=
| CallIsFoodImage
| CallRecipesFromImage (exclude cuisines : list jsstring)
| CallGenericRecipes (exclude : list jsstring)
| CallPopularRecipes.

(** What a handler leaves behind when it returns: the state, the recipes
    for which it started [generateAndSetImageForRecipe] without awaiting it,
    the requests it sent, and the number of UUIDs drawn so far. *)
Record Outcome := {
  state : AppState;
  dispatched : list Recipe;
  fetched : list GatewayCall;
  uuids : nat
}.

Definition messageOf (err : exn) : jsstring :=
  match err with
  | Error message => message
  | Thrown => js "An unknown error occurred."
  end.

Definition mimeTypeOf (image_ : jsstring) : jsstring :=
  substring image_ (indexOf image_ 58 + 1) (indexOf image_ 59).

Definition base64DataOf (image_ : jsstring) : option jsstring :=
  nth_error (split 44 image_) 1.

Section Handlers.

Variable ai : GoogleGenAI.
Variable pf : Platform.

(** The end of both fetching handlers, after the recipes arrived or the
    fetch threw. *)
Definition showRecipes (s : AppState) (calls : list GatewayCall)
  (fetchedRecipes : result (list Recipe) * nat) (advisory : option jsstring)
  : Outcome :=
  match fetchedRecipes with
  | (Ok recipesData, n) =>
      let '(recipesWithPlaceholders, n') :=
        map_with_uuid pf with_new_id recipesData n in
      (* Stop loading, show text results immediately *)
      let s1 := setRecipes (Some recipesWithPlaceholders) (setIsLoading false s) in
      let s2 := match advisory with
                | Some text => setError (Some text) s1
                | None => s1
                end in
      {| state := s2; dispatched := recipesWithPlaceholders;
         fetched := calls; uuids := n' |}
  | (Throw err, n) =>
      {| state := setIsLoading false (setError (Some (messageOf err)) s);
         dispatched := []; fetched := calls; uuids := n |}
  end.

Definition handleGetRecipes (exclude cuisines : list jsstring)
  (s : AppState) (n : nat) : Outcome :=
  match image s with
  | Some (c :: image') =>
      let image_ := c :: image' in
      let s1 := setRecipes None (setError None (setIsLoading true s)) in
      let mimeType := mimeTypeOf image_ in
      let base64Data := base64DataOf image_ in
      let isFood :=
        if (0 <? length exclude)%nat then Ok true
        else isFoodImage ai 1 base64Data mimeType in
      let calls := if (0 <? length exclude)%nat then [] else [CallIsFoodImage] in
      match isFood with
      | Ok true =>
          showRecipes s1 (calls ++ [CallRecipesFromImage exclude cuisines])
            (getRecipesFromImage ai pf 2 base64Data mimeType exclude cuisines n)
            None
      | Ok false =>
          let s2 := setError (Some notFoodAdvisory) s1 in
          showRecipes s2 (calls ++ [CallGenericRecipes exclude])
            (getGenericRecipes ai pf 2 exclude n) None
      | Throw err =>
          {| state := setIsLoading false (setError (Some (messageOf err)) s1);
             dispatched := []; fetched := calls; uuids := n |}
      end
  | _ =>
      {| state := setError (Some (js "Please select an image first.")) s;
         dispatched := []; fetched := []; uuids := n |}
  end.

Definition handleLoadMoreRecipes (s : AppState) (n : nat) : Outcome :=
  let isGenericFallback :=
    match error s with
    | Some e => includes e (js "This doesn't appear to be food")
    | None => false
    end in
  let existingRecipeNames :=
    match recipes s with
    | Some rs => map recipeName rs
    | None => []
    end in
  let s1 := setRecipes None (setError None (setIsLoading true s)) in
  if isGenericFallback then
    showRecipes s1 [CallGenericRecipes existingRecipeNames]
      (getGenericRecipes ai pf 1 existingRecipeNames n)
      (Some notFoodAdvisory)
  else
    match image s with
    | Some (c :: image') =>
        let image_ := c :: image' in
        let mimeType := mimeTypeOf image_ in
        let base64Data := base64DataOf image_ in
        (* We don't pass cuisines here as "different recipes" should be open-ended *)
        showRecipes s1 [CallRecipesFromImage existingRecipeNames []]
          (getRecipesFromImage ai pf 1 base64Data mimeType existingRecipeNames [] n)
          None
    | _ =>
        (* if (!image) return; *)
        {| state := s1; dispatched := []; fetched := []; uuids := n |}
    end.

(** The effect that fetches the popular recipes on load. *)
Definition fetchPopular (s : AppState) (n : nat) : Outcome :=
  if (length (popularRecipes s) =? 0)%nat then
    match getPopularRecipes ai pf 1 n with
    | (Ok popularTextOnly, n1) =>
        let '(popularRecipesWithId, n2) :=
          map_with_uuid pf with_new_id popularTextOnly n1 in
        {| state := setPopularRecipes (fun _ => popularRecipesWithId) s;
           dispatched := popularRecipesWithId;
           fetched := [CallPopularRecipes]; uuids := n2 |}
    | (Throw err, n1) =>
        {| state := s; dispatched := []; fetched := [CallPopularRecipes];
           uuids := n1 |}
    end
  else {| state := s; dispatched := []; fetched := []; uuids := n |}.

(** [JSON.stringify(recipe)]: the keys in the order in which the object
    got them, those of [recipeSchema] first, then the ones the application
    adds. *)
Definition JSON_stringify (recipe : Recipe) : jsstring :=
  stringify_object
    [ (js "recipeName", Some (stringify_string (recipeName recipe)));
      (js "description", Some (stringify_string (description recipe)));
      (js "ingredients", Some (stringify_strings (ingredients recipe)));
      (js "instructions", Some (stringify_strings (instructions recipe)));
      (js "imagePrompt", Some (stringify_string (imagePrompt recipe)));
      (js "id", Some (stringify_string (id recipe)));
      (js "imageUrl", option_map stringify_string (imageUrl recipe));
      (js "imageError", option_map stringify_bool (imageError recipe)) ].

(** The part of the link after [?recipe=]; [generateShareableLink] puts the
    origin and the path of the page in front of it. *)
Definition shareParameter (recipe : Recipe) : result jsstring :=
  let recipeString := JSON_stringify recipe in
  btoa recipeString.

Definition generateShareableLink (origin pathname : jsstring) (recipe : Recipe)
  : result jsstring :=
  encodedRecipe <- shareParameter recipe ;;
  Ok (origin ++ pathname ++ js "?recipe=" ++ encodedRecipe).

(** The effect that handles a shared recipe: [recipeData] is what
    [urlParams.get('recipe')] returned. *)
Definition decodeShared (recipeData : jsstring) : result Recipe :=
  decoded <- atob recipeData ;;
  JSON_parse_recipe pf decoded.

Definition loadSharedRecipe (recipeData : option jsstring) (s : AppState)
  : AppState :=
  match recipeData with
  | Some (c :: data) =>
      match decodeShared (c :: data) with
      | Ok decodedRecipe =>
          if truthy (Some (id decodedRecipe))
             && truthy (Some (recipeName decodedRecipe))
          then setRecipes (Some [decodedRecipe]) s
          else s
      | Throw e =>
          setError (Some (js "The shared recipe link is invalid or corrupted.")) s
      end
  | _ => s
  end.

End Handlers.

Definition handleReset (s : AppState) : AppState :=
  setSelectedCuisines (fun _ => [])
    (setIsLoading false (setError None (setRecipes None (setImage None s)))).

Definition handleCuisineToggle (cuisine : jsstring) (s : AppState) : AppState :=
  setSelectedCuisines
    (fun prev =>
       if existsb (jsstring_eqb cuisine) prev
       then filter (fun c => negb (jsstring_eqb c cuisine)) prev
       else prev ++ [cuisine]) s.

(** The updater that [handleSaveToggle] passes to [setSavedRecipes]. *)
Definition toggleSaved (recipeToToggle : Recipe) (prev : list Recipe)
  : list Recipe :=
  let isSaved := existsb (fun r => same_id r recipeToToggle) prev in
  if isSaved then filter (fun r => negb (same_id r recipeToToggle)) prev
  else prev ++ [recipeToToggle].

Definition handleSaveToggle (recipeToToggle : Recipe) (s : AppState) : AppState :=
  setSavedRecipes (toggleSaved recipeToToggle) s.

Definition handleRemoveSavedRecipe (recipeId : jsstring) (s : AppState)
  : AppState :=
  setSavedRecipes
    (fun prev => filter (fun r => negb (jsstring_eqb (id r) recipeId)) prev) s.

Definition handleViewSavedRecipe (recipe : Recipe) (s : AppState) : AppState :=
  setIsSavedRecipesOpen false (setRecipes (Some [recipe]) s).

Definition handleStartTimer (duration_ : number) (description_ : jsstring)
  (s : AppState) : AppState :=
  setTimerConfig
    (Some {| duration := duration_; timerDescription := description_ |}) s.

End App.
Import App.

(* ================================================================== *)
(** * More built-ins: numbers as text, arrays, [Math.random] *)
(* ================================================================== *)

Module Builtins.

(** The decimal digits of a natural number, most significant first. *)
Fixpoint decimal_digits (fuel : nat) (n : N) : jsstring :=
  if (n <? 10)%N then [(48 + n)%N]
  else match fuel with
       | O => [(48 + n mod 10)%N]
       | S fuel' => decimal_digits fuel' (n / 10) ++ [(48 + n mod 10)%N]
       end.

Definition decimal (n : N) : jsstring := decimal_digits (N.size_nat n) n.

(** [String(x)] for a number that is [NaN], an infinity or an integer.
    Below 10^21 in magnitude an integer is written with all its digits;
    from 10^21 on JavaScript writes a mantissa and an exponent, which is not
    modelled: the result is [None]. *)
Definition String_of (x : number) : option jsstring :=
  match x with
  | NaN => Some (js "NaN")
  | Infinity negative =>
      Some (if negative then js "-Infinity" else js "Infinity")
  | Num z =>
      if (Z.abs z <? 10 ^ 21)%Z then
        Some (if (z <? 0)%Z then 45%N :: decimal (Z.to_N (- z))
              else decimal (Z.to_N z))
      else None
  end.

(** [s.padStart(targetLength, c)] for a one-character filler. *)
Definition padStart (s : jsstring) (targetLength : nat) (c : N) : jsstring :=
  repeat c (targetLength - length s) ++ s.

(** [Math.floor(x / d)] for a divisor [d] from 1 to 2^53.  The quotient of
    two doubles is rounded before [Math.floor] sees it.  For an integer [x]
    of at most 2^53 in magnitude the rounding moves the quotient by less
    than [1 / d], the least distance of a quotient that is not whole from a
    whole number, and whole numbers of this size are doubles: the result is
    the quotient of the integers, rounded down.  Beyond that the rounded
    quotient is not modelled: the result is [None]. *)
Definition floor_div (x : number) (d : Z) : option number :=
  if (0 <? d)%Z && (d <=? 2 ^ 53)%Z then
    match x with
    | NaN => Some NaN
    | Infinity negative => Some (Infinity negative)
    | Num z => if (Z.abs z <=? 2 ^ 53)%Z then Some (Num (z / d)) else None
    end
  else None.

(** [x % d] for a divisor [d] other than zero: the remainder of doubles is
    exact, and has the sign of the dividend. *)
Definition remainder (x : number) (d : Z) : number :=
  match x with
  | NaN => NaN
  | Infinity _ => NaN
  | Num z => if (d =? 0)%Z then NaN else Num (Z.rem z d)
  end.

(** [l[i] = v] for an index inside the array. *)
Definition set_index {A} (l : list A) (i : nat) (v : A) : list A :=
  firstn i l ++ v :: skipn (S i) l.

(** [[l[i], l[j]] = [l[j], l[i]]] for two indices inside the array.  With
    an index outside, the exchange would store [undefined] and extend the
    array: that is not modelled, and the result is [None]. *)
Definition swap {A} (l : list A) (i j : nat) : option (list A) :=
  match nth_error l i, nth_error l j with
  | Some a, Some b => Some (set_index (set_index l i b) j a)
  | _, _ => None
  end.

(** [Math.floor(x * bound)] for a draw [x] of [Math.random()].  The draw
    is a double in [0, 1), taken as the rational it is; the product is
    exact here, where a double product may round, but never up to
    [bound]. *)
Definition random_index (x : QArith_base.Q) (bound : nat) : nat :=
  Z.to_nat (Qround.Qfloor
              (QArith_base.Qmult x (QArith_base.inject_Z (Z.of_nat bound)))).

End Builtins.
Import Builtins.

(* ================================================================== *)
(** * src/components/RecipeCard.tsx: what the card shows *)
(* ================================================================== *)

Module RecipeCardView.

(** The image area of the card: the image, the failure panel, or the
    placeholder "Generating Image...". *)
Inductive ImageArea :=
| ShowImage (src : jsstring)
| ShowFailure
| ShowPending.

Definition imageArea (recipe : Recipe) : ImageArea :=
  match imageUrl recipe with
  | Some (c :: url) => ShowImage (c :: url)
  | _ =>
      match imageError recipe with
      | Some true => ShowFailure
      | _ => ShowPending
      end
  end.

(** Truthiness of [timeInSeconds]: [null], [NaN] and 0 are falsy. *)
Definition truthy_seconds (t : option number) : bool :=
  match t with
  | Some (Num z) => negb (z =? 0)%Z
  | Some (Infinity _) => true
  | Some NaN => false
  | None => false
  end.

(** The timer button of one instruction step: [None] when the step shows
    no button, otherwise the arguments its click passes to [onStartTimer]. *)
Definition timerButton (step : jsstring) : option (number * jsstring) :=
  let parsed := parseInstructionForTime step in
  if truthy_seconds (timeInSeconds parsed) then
    match timeInSeconds parsed with
    | Some t => Some (t, text parsed)
    | None => None
    end
  else None.

(** The heart of the card: [savedRecipes.some(r => r.id === recipe.id)],
    computed in App.tsx where the card is rendered. *)
Definition isSaved (savedRecipes_ : list Recipe) (recipe : Recipe) : bool :=
  existsb (fun r => same_id r recipe) savedRecipes_.

End RecipeCardView.
Import RecipeCardView.

(* ================================================================== *)
(** * src/components/LoadingTips.tsx *)
(* ================================================================== *)

Module LoadingTips.

Definition tips : list jsstring :=
  [ js "Mise en place (everything in its place) is the secret to a stress-free cooking experience. Prep all your ingredients before you start.";
    js "A sharp knife is a safe knife. Dull knives require more pressure, increasing the chance of slipping.";
    js "Taste as you go! Seasoning at different stages of cooking builds layers of flavor that can't be achieved by seasoning only at the end.";
    js "Don't overcrowd the pan. Give your ingredients space to brown properly for better texture and taste; cook in batches if necessary.";
    js "Let your meat rest after cooking. This allows the juices to redistribute, resulting in a more tender and flavorful cut.";
    js "Save your pasta water! The starchy, salty water is liquid gold for emulsifying and thickening your sauces.";
    js "Use fresh herbs whenever possible. Add delicate herbs like basil, cilantro, and parsley at the end of cooking to preserve their vibrant flavor." ].

(** The loop of [shuffleArray]: [i] runs from the last index down to 1;
    [k] counts the calls of [Math.random], whose [k]-th draw is
    [random k]. *)
Fixpoint shuffle_loop {A} (random : nat -> QArith_base.Q) (i : nat) (k : nat)
  (newArray : list A) : option (list A * nat) :=
  match i with
  | O => Some (newArray, k)
  | S i' =>
      let j := random_index (random k) (i + 1) in
      match swap newArray i j with
      | Some newArray' => shuffle_loop random i' (S k) newArray'
      | None => None
      end
  end.

Definition shuffleArray {A} (random : nat -> QArith_base.Q) (array : list A)
  (k : nat) : option (list A * nat) :=
  shuffle_loop random (length array - 1) k array.

(** The two states of the component.  [currentTip] is [None] where the
    source would store [undefined] (the first element of an empty array). *)
Record TipsState := {
  currentTip : option jsstring;
  remainingTips : list jsstring
}.

(** [useState('')] and [useState([])]. *)
Definition initialTips : TipsState :=
  {| currentTip := Some []; remainingTips := [] |}.

(** The effect, run once on mount: the first part shuffles and shows the
    first tip. *)
Definition mountTips (random : nat -> QArith_base.Q) (k : nat)
  : option (TipsState * nat) :=
  match shuffleArray random tips k with
  | Some (shuffledTips, k') =>
      Some ({| currentTip := nth_error shuffledTips 0;
               remainingTips := skipn 1 shuffledTips |}, k')
  | None => None
  end.

(** The callback that the effect hands to [setInterval].  It is created in
    the render in which the effect runs, and the effect runs once, on mount:
    the [currentTip] it refers to is the one of that render, passed here as
    [capturedTip]. *)
Definition intervalCallback (capturedTip : option jsstring)
  (random : nat -> QArith_base.Q) (st : TipsState) (k : nat)
  : option (TipsState * nat) :=
  match remainingTips st with
  | nextTip :: rest =>
      (* There are tips left, show the next one *)
      Some ({| currentTip := Some nextTip; remainingTips := rest |}, k)
  | [] =>
      (* No tips left, reshuffle and start over *)
      let others :=
        filter (fun t => match capturedTip with
                         | Some cur => negb (jsstring_eqb t cur)
                         | None => true
                         end) tips in
      match shuffleArray random others k with
      | Some (newShuffledTips, k') =>
          Some ({| currentTip := nth_error newShuffledTips 0;
                   remainingTips := skipn 1 newShuffledTips |}, k')
      | None => None
      end
  end.

(** One firing of the interval of the mounted component: the render of the
    mount had the initial state. *)
Definition tipsTick (random : nat -> QArith_base.Q) (st : TipsState) (k : nat)
  : option (TipsState * nat) :=
  intervalCallback (currentTip initialTips) random st k.

(** The state after the mount and [n] firings of the interval. *)
Fixpoint tipsAfter (random : nat -> QArith_base.Q) (n : nat)
  : option (TipsState * nat) :=
  match n with
  | O => mountTips random 0
  | S n' =>
      match tipsAfter random n' with
      | Some (st, k) => tipsTick random st k
      | None => None
      end
  end.

End LoadingTips.
Import LoadingTips.

(* ================================================================== *)
(** * The timer widget (second part of src/components/LoadingTips.tsx) *)
(* ================================================================== *)

Module TimerWidget.

(** [None] where [floor_div] or [String_of] is not modelled. *)
Definition formatTime (seconds_ : number) : option jsstring :=
  match floor_div seconds_ 60 with
  | Some mins =>
      let secs := remainder seconds_ 60 in
      match String_of mins, String_of secs with
      | Some mm, Some ss =>
          Some (padStart mm 2 48 ++ js ":" ++ padStart ss 2 48)
      | _, _ => None
      end
  | None => None
  end.

(** The props and the two states of the widget.  Times are whole seconds of
    at most 2^53, the range in which doubles count in steps of one: there
    [prev - 1] is the integer below.  A widget mounted with a larger
    duration is outside the model, since a double subtraction rounds
    there. *)
Record Widget := {
  widgetDuration : Z;
  widgetDescription : jsstring;
  timeLeft : Z;
  isActive : bool
}.

(** [isActive && timeLeft > 0]: the guard under which the first effect
    starts its interval. *)
Definition ticking (w : Widget) : bool := isActive w && (0 <? timeLeft w)%Z.

Definition isFinished (w : Widget) : bool := (timeLeft w =? 0)%Z.

(** The first effect.  It runs after the first render and after every
    render in which [isActive] or [timeLeft] changed: it starts the
    interval, or at zero stops the timer (and plays the sound).  When it
    stops the timer it runs once more after the render that follows, and
    then changes nothing. *)
Definition firstEffect (w : Widget) : Widget :=
  if ticking w then w
  else if (timeLeft w =? 0)%Z then
    {| widgetDuration := widgetDuration w; widgetDescription := widgetDescription w;
       timeLeft := timeLeft w; isActive := false |}
  else w.

(** The state updates of one event, and what follows them: a render, and
    the first effect if one of the two states changed. *)
Definition update (timeLeft' : Z) (isActive' : bool) (w : Widget) : Widget :=
  if (timeLeft' =? timeLeft w)%Z && Bool.eqb isActive' (isActive w) then w
  else firstEffect
         {| widgetDuration := widgetDuration w;
            widgetDescription := widgetDescription w;
            timeLeft := timeLeft'; isActive := isActive' |}.

(** The mount.  Both effects run after the first render, the first before
    the second: the updates of the second, [setTimeLeft(duration)] and
    [setIsActive(true)], come last and leave both states as [useState]
    initialised them, also where the first effect has just stopped a timer
    of duration 0. *)
Definition mountWidget (duration_ : Z) (description_ : jsstring) : Widget :=
  {| widgetDuration := duration_; widgetDescription := description_;
     timeLeft := duration_; isActive := true |}.

(** The interval fires, one second after the first effect started it:
    [setTimeLeft(prev => prev - 1)], exact for times up to 2^53.  The render
    that follows clears the interval and runs the first effect again, before
    the next second is over. *)
Definition tick (w : Widget) : Widget :=
  if ticking w then update (timeLeft w - 1) (isActive w) w else w.

(** The play/pause button, disabled when the timer is finished. *)
Definition togglePause (w : Widget) : Widget :=
  if isFinished w then w else update (timeLeft w) (negb (isActive w)) w.

Definition handleResetTimer (w : Widget) : Widget :=
  update (widgetDuration w) true w.

(** New props for the mounted widget.  The second effect resets the timer
    when [duration] or [description] changed, and only then. *)
Definition receiveProps (duration_ : Z) (description_ : jsstring) (w : Widget)
  : Widget :=
  if (duration_ =? widgetDuration w)%Z
     && jsstring_eqb description_ (widgetDescription w)
  then w
  else update duration_ true
         {| widgetDuration := duration_; widgetDescription := description_;
            timeLeft := timeLeft w; isActive := isActive w |}.

End TimerWidget.
Import TimerWidget.


(* ================================================================== *)
(** * src/App.tsx: the saved recipes in [localStorage] *)
(* ================================================================== *)

Module SavedStorage.

(** What the two storage effects meet outside the component: whether
    [localStorage.getItem] returns or throws, whether [localStorage.setItem]
    takes a text or throws, and [JSON.parse] on a stored text, for texts
    that do not parse or parse to a list of recipes. *)
Record StoragePlatform := {
  getItem_returns : bool;
  setItem_accepts : jsstring -> bool;
  JSON_parse_saved : jsstring -> result (list Recipe)
}.

(** [JSON.stringify(savedRecipes)] *)
Definition stringify_saved (savedRecipes_ : list Recipe) : jsstring :=
  js "[" ++ join (js ",") (map JSON_stringify savedRecipes_) ++ js "]".

Section Effects.
Variable sp : StoragePlatform.

(** The first effect.  [stored] is the value under the key 'savedRecipes';
    the result is the list that the effect passes to [setSavedRecipes], if
    it gets that far. *)
Definition loadSaved (stored : option jsstring) : option (list Recipe) :=
  if getItem_returns sp then
    match stored with
    | Some (c :: storedRecipes) =>
        match JSON_parse_saved sp (c :: storedRecipes) with
        | Ok parsed => Some parsed
        | Throw error => None
        end
    | _ => None
    end
  else None.

(** The second effect, in a render whose [savedRecipes] is
    [savedRecipes_]: the value under the key afterwards. *)
Definition storeSaved (savedRecipes_ : list Recipe) (stored : option jsstring)
  : option jsstring :=
  let text_ := stringify_saved savedRecipes_ in
  if setItem_accepts sp text_ then Some text_ else stored.

(** The mount.  Both effects run after the first render, in their order:
    the second still sees the list of that render.  When the first has set
    the list, the render that follows runs the second again. *)
Definition mountSaved (s : AppState) (stored : option jsstring)
  : AppState * option jsstring :=
  let stored1 := storeSaved (savedRecipes s) stored in
  match loadSaved stored with
  | Some parsed =>
      let s1 := setSavedRecipes (fun _ => parsed) s in
      (s1, storeSaved (savedRecipes s1) stored1)
  | None => (s, stored1)
  end.

(** A click on a heart, or on the trash button of the saved list, and the
    second effect in the render that follows. *)
Definition saveToggle (recipeToToggle : Recipe)
  (st : AppState * option jsstring) : AppState * option jsstring :=
  let s1 := handleSaveToggle recipeToToggle (fst st) in
  (s1, storeSaved (savedRecipes s1) (snd st)).

Definition removeSaved (recipeId : jsstring)
  (st : AppState * option jsstring) : AppState * option jsstring :=
  let s1 := handleRemoveSavedRecipe recipeId (fst st) in
  (s1, storeSaved (savedRecipes s1) (snd st)).

End Effects.

End SavedStorage.
Import SavedStorage.

(* ================================================================== *)
(** * src/App.tsx: what the page shows *)
(* ================================================================== *)

Module AppView.

(** The main area of the page: the loading tips, the start page, or the
    recipes with the two buttons above them. *)
Inductive MainView :=
| ShowLoadingTips
| ShowStartPage (howItWorks : bool) (selectedImage : option jsstring)
    (popularCards : list Recipe)
| ShowRecipes (cards : list Recipe).

Definition mainView (s : AppState) : MainView :=
  if isLoading s then ShowLoadingTips
  else match recipes s with
       | None =>
           ShowStartPage (negb (truthy (image s)))
             (if truthy (image s) then image s else None)
             (if negb (truthy (image s))
                 && (0 <? length (popularRecipes s))%nat
              then popularRecipes s else [])
       | Some recipes_ => ShowRecipes recipes_
       end.

(** The recipe cards on the page. *)
Definition visibleCards (s : AppState) : list Recipe :=
  match mainView s with
  | ShowLoadingTips => []
  | ShowStartPage _ _ popularCards => popularCards
  | ShowRecipes cards => cards
  end.

End AppView.
Import AppView.

(* ================================================================== *)
(** * Vocabulary of the statements *)
(* ================================================================== *)

(** ** The gateway and the image loop *)

(** The verdict that both classifiers read off an answer of the model. *)
Definition verdict (answer : result (option jsstring)) : bool :=
  match answer with
  | Ok (Some text) => includes (toLowerCase (trim text)) (js "yes")
  | Ok None => false
  | Throw _ => false
  end.

(** What one attempt yields: an accepted image, or nothing (the image was
    judged wrong, or one of the two calls threw). *)
Definition attempt (ai : GoogleGenAI) (round : nat) (r : Recipe) : option jsstring :=
  match generateRecipeImage ai round (imagePrompt r) with
  | Ok img =>
      match validateRecipeImage ai round (recipeName r) img with
      | Ok true => Some img
      | _ => None
      end
  | Throw _ => None
  end.

(** The recipe that the second attempt works on. *)
Definition secondRecipe (ai : GoogleGenAI) (r : Recipe) : Recipe :=
  match generateRecipeImage ai 1 (imagePrompt r) with
  | Ok img =>
      match validateRecipeImage ai 1 (recipeName r) img with
      | Ok false => with_imagePrompt r (refinedPrompt r)
      | _ => r
      end
  | Throw _ => r
  end.

(** ** The normalizer *)

(** The raw record that a recipe was made from. *)
Definition raw_of (r : Recipe) : RawRecipe :=
  {| rawRecipeName := recipeName r; rawDescription := description r;
     rawIngredients := ingredients r; rawInstructions := instructions r;
     rawImagePrompt := imagePrompt r;
     rawImageUrl := imageUrl r; rawImageError := imageError r |}.

(** A raw record as [recipeSchema] describes it: without image and failure
    flag. *)
Definition raw_plain (raw : RawRecipe) : Prop :=
  rawImageUrl raw = None /\ rawImageError raw = None.

(** The parser of the platform returns only such records. *)
Definition schema_abiding (pf : Platform) : Prop :=
  forall text_ items, JSON_parse pf text_ = Ok (JArray items) ->
                      Forall raw_plain items.

(** No two draws of [crypto.randomUUID] collide. *)
Definition collision_free (pf : Platform) : Prop :=
  forall i j, randomUUID pf i = randomUUID pf j -> i = j.

(** ** Recipes held by a state, and the steps of a session *)

(** Not both an image and the failure flag. *)
Definition consistent (r : Recipe) : bool :=
  match imageUrl r, imageError r with
  | Some _, Some true => false
  | _, _ => true
  end.

(** The recipes that a state holds: displayed, popular and saved. *)
Definition displayed (s : AppState) : list Recipe :=
  match recipes s with
  | Some l => l
  | None => []
  end ++ popularRecipes s.

Definition held (s : AppState) : list Recipe :=
  displayed s ++ savedRecipes s.

Definition state_ok (s : AppState) : Prop :=
  Forall (fun r => consistent r = true) (held s).

(** What enters a session from outside: the records that the gateway's
    answer parses to, the recipe that a shared link decodes to, and the
    saved recipes that the storage holds.  A platform keeps the invariant
    when nothing that its parser returns has both an image and the failure
    flag. *)
Definition raw_consistent (raw : RawRecipe) : bool :=
  match rawImageUrl raw, rawImageError raw with
  | Some _, Some true => false
  | _, _ => true
  end.

Definition keeps_invariant (pf : Platform) : Prop :=
  (forall text_ items, JSON_parse pf text_ = Ok (JArray items) ->
                       Forall (fun raw => raw_consistent raw = true) items)
  /\ (forall text_ r, JSON_parse_recipe pf text_ = Ok r -> consistent r = true).

Definition any_platform (pf : Platform) : Prop := True.
Definition any_recipe (r : Recipe) : Prop := True.

(** The steps of a session, with platforms among [platforms].  A handler
    runs from the state in which it is started; the completion of a fetch
    ([showRecipes]) and the settling of an image loop may also come at any
    later state.  The card of a displayed recipe toggles it, the saved list
    views its own entries. *)
Inductive step (platforms : Platform -> Prop) : AppState -> AppState -> Prop :=
| step_image_select b s : step platforms s (handleImageSelect b s)
| step_get_recipes ai pf exclude cuisines n s :
    platforms pf ->
    step platforms s (state (handleGetRecipes ai pf exclude cuisines s n))
| step_load_more ai pf n s :
    platforms pf ->
    step platforms s (state (handleLoadMoreRecipes ai pf s n))
| step_show ai pf round parts_ calls advisory n s :
    platforms pf ->
    step platforms s
      (state (showRecipes pf s calls (fetchRecipes ai pf round parts_ n) advisory))
| step_popular ai pf n s :
    platforms pf -> step platforms s (state (fetchPopular ai pf s n))
| step_settle ai recipe s :
    step platforms s (generateAndSetImageForRecipe ai recipe s)
| step_reset s : step platforms s (handleReset s)
| step_cuisine c s : step platforms s (handleCuisineToggle c s)
| step_save_toggle r s :
    In r (displayed s) -> step platforms s (handleSaveToggle r s)
| step_remove_saved i s : step platforms s (handleRemoveSavedRecipe i s)
| step_view_saved r s :
    In r (savedRecipes s) -> step platforms s (handleViewSavedRecipe r s)
| step_timer d t s : step platforms s (handleStartTimer d t s)
| step_shared pf data s :
    platforms pf -> step platforms s (loadSharedRecipe pf (Some data) s).

(** The states of all sessions with platforms among [platforms]: a session
    starts empty, or with the saved recipes that the storage holds, each of
    them among [stored]. *)
Inductive reachable (platforms : Platform -> Prop) (stored : Recipe -> Prop)
  : AppState -> Prop :=
| reach_fresh : reachable platforms stored initialState
| reach_restored saved :
    Forall stored saved ->
    reachable platforms stored (setSavedRecipes (fun _ => saved) initialState)
| reach_step s s' :
    reachable platforms stored s -> step platforms s s' ->
    reachable platforms stored s'.

(** The settle update on one collection: the entries with the identifier
    of the recipe are replaced, position by position. *)
Definition settled (ai : GoogleGenAI) (recipe : Recipe) (l : list Recipe)
  : list Recipe :=
  map (fun r => if same_id r recipe then finalRecipeState ai recipe else r) l.

(** ** Saved recipes and shared links *)

Definition savedIds (saved : list Recipe) : list jsstring := map id saved.

(** A sequence of toggles, applied from left to right. *)
Definition toggleAll (toggles saved : list Recipe) : list Recipe :=
  fold_left (fun prev r => toggleSaved r prev) toggles saved.

(** The round trip of a recipe through a link: the parameter is built by
    [generateShareableLink], read back from the query string and decoded by
    the effect that handles a shared recipe. *)
Definition shareRoundTrip (pf : Platform) (recipe : Recipe) : result Recipe :=
  encodedRecipe <- shareParameter recipe ;;
  decodeShared pf (searchParams_value encodedRecipe).

(** ** Matches of a pattern *)

(** The matches of a pattern, without the order in which the matcher tries
    them: [matches r s caps s' caps'] when [r] can take a prefix off [s],
    leaving [s'] and extending the captures [caps] to [caps']. *)
Inductive matches : regex -> jsstring -> captures -> jsstring -> captures -> Prop :=
| M_Eps s caps : matches Eps s caps s caps
| M_Chr c ch s caps :
    canonicalize ch = canonicalize c -> matches (Chr c) (ch :: s) caps s caps
| M_Cls (p : N -> bool) ch s caps :
    p ch = true -> matches (Cls p) (ch :: s) caps s caps
| M_Star (p : N -> bool) w s caps :
    Forall (fun x => p x = true) w -> matches (Star p) (w ++ s) caps s caps
| M_Plus (p : N -> bool) w s caps :
    w <> [] -> Forall (fun x => p x = true) w ->
    matches (Plus p) (w ++ s) caps s caps
| M_Seq a b s caps s1 caps1 s2 caps2 :
    matches a s caps s1 caps1 -> matches b s1 caps1 s2 caps2 ->
    matches (Seq a b) s caps s2 caps2
| M_AltL a b s caps s' caps' :
    matches a s caps s' caps' -> matches (Alt a b) s caps s' caps'
| M_AltR a b s caps s' caps' :
    matches b s caps s' caps' -> matches (Alt a b) s caps s' caps'
| M_OptSome a s caps s' caps' :
    matches a s caps s' caps' -> matches (Opt a) s caps s' caps'
| M_OptNone a s caps : matches (Opt a) s caps s caps
| M_Group n a s caps s' caps' :
    matches a s caps s' caps' ->
    matches (Group n a) s caps s'
      ((n, firstn (length s - length s') s) :: caps').

(** ** Duration phrases *)

(** A word read without regard to case. *)
Definition ci_word (pattern w : jsstring) : Prop :=
  Forall2 (fun ch c => canonicalize ch = canonicalize c) w pattern.

Definition digits (w : jsstring) : Prop :=
  w <> [] /\ Forall (fun c => is_digit c = true) w.

Definition blanks (w : jsstring) : Prop :=
  Forall (fun c => is_space c = true) w.

Inductive unit_kind := Minutes | Hours.

(** minute(s) | hour(s) *)
Definition unit_word (u : unit_kind) (w : jsstring) : Prop :=
  match u with
  | Minutes => ci_word (js "minute") w \/ ci_word (js "minutes") w
  | Hours => ci_word (js "hour") w \/ ci_word (js "hours") w
  end.

(** <N> to *)
Definition range_prefix (head : jsstring) : Prop :=
  exists d1 b1 t b2,
    head = d1 ++ b1 ++ t ++ b2
    /\ digits d1 /\ blanks b1 /\ ci_word (js "to") t /\ blanks b2.

(** [<N> to] <N> (minute(s)|hour(s)): [w] is such a phrase, [amount] its
    second number and [u] its unit. *)
Definition phrase (w amount : jsstring) (u : unit_kind) : Prop :=
  exists head b uw,
    w = head ++ amount ++ b ++ uw
    /\ (head = [] \/ range_prefix head)
    /\ digits amount /\ blanks b /\ unit_word u uw.

(** A phrase occurs in [s] from index [i] on. *)
Definition phrase_at (s : jsstring) (i : nat) (amount : jsstring) (u : unit_kind)
  : Prop :=
  exists pre w rest, s = pre ++ w ++ rest /\ length pre = i /\ phrase w amount u.

Definition seconds (amount : jsstring) (u : unit_kind) : number :=
  Num (digits_value amount * match u with Hours => 3600 | Minutes => 60 end).

(** The seconds as doubles give them: the amount rounded, and its product
    with the seconds of the unit rounded. *)
Definition rounded_seconds (amount : jsstring) (u : unit_kind) : number :=
  mul (to_double (digits_value amount))
      (Num match u with Hours => 3600 | Minutes => 60 end).

(** The product is a number that doubles have exactly. *)
Definition exact_seconds (amount : jsstring) (u : unit_kind) : Prop :=
  (digits_value amount * match u with Hours => 3600 | Minutes => 60 end
   <= 2 ^ 53)%Z.

Definition lowercase (w : jsstring) : Prop :=
  Forall (fun c => in_range 97 122 c = true) w.

Definition begins (k : N) (w : jsstring) : Prop :=
  exists c w', w = c :: w' /\ canonicalize c = k.

(** [y] does not go on with a character of the class [p]. *)
Definition ends_run (p : N -> bool) (y : jsstring) : Prop :=
  exists c y', y = c :: y' /\ p c = false.

(* ================================================================== *)
(** * Sample inputs *)
(* ================================================================== *)

Definition sampleRecipe : Recipe :=
  {| id := js "r1"; recipeName := js "Soup"; description := js "Warm";
     ingredients := [js "water"]; instructions := [js "Boil for 10 minutes"];
     imagePrompt := js "A bowl of soup"; imageUrl := None; imageError := None |}.

(** A service that answers by round only. *)
Definition scripted (images : nat -> result (option (list GeneratedImage)))
  (answers : nat -> result (option jsstring)) : GoogleGenAI :=
  {| generateContent := fun round _ => answers round;
     generateImages := fun round _ => images round |}.

Definition oneImage : result (option (list GeneratedImage)) :=
  Ok (Some [Some (Some (js "QQ=="))]).

Definition ai_always_no : GoogleGenAI :=
  scripted (fun _ => oneImage) (fun _ => Ok (Some (js "no"))).

Definition ai_no_then_yes : GoogleGenAI :=
  scripted (fun _ => oneImage)
    (fun round => if (round =? 1)%nat then Ok (Some (js "No.")) else Ok (Some (js "Yes"))).

Definition ai_always_yes : GoogleGenAI :=
  scripted (fun _ => oneImage) (fun _ => Ok (Some (js " yes "))).

Definition ai_error_then_yes : GoogleGenAI :=
  scripted
    (fun round => if (round =? 1)%nat then Throw (Error (js "quota")) else oneImage)
    (fun _ => Ok (Some (js "yes"))).

Definition ai_yes_then_error : GoogleGenAI :=
  scripted
    (fun round => if (round =? 1)%nat then oneImage else Throw (Error (js "quota")))
    (fun _ => Ok (Some (js "no"))).

Definition sampleRaw (name : jsstring) : RawRecipe :=
  {| rawRecipeName := name; rawDescription := js "Tasty";
     rawIngredients := [js "salt"]; rawInstructions := [js "Bake for 1 hour"];
     rawImagePrompt := js "A plate";
     rawImageUrl := None; rawImageError := None |}.

(** A record that does not keep to the schema: it comes with an image. *)
Definition pictureRaw : RawRecipe :=
  {| rawRecipeName := js "E"; rawDescription := js "Tasty";
     rawIngredients := [js "salt"]; rawInstructions := [js "Bake for 1 hour"];
     rawImagePrompt := js "A plate";
     rawImageUrl := Some (js "https://example.org/e.jpg");
     rawImageError := None |}.

(** A recipe with an image and the failure flag, and a platform that reads
    it off a shared link. *)
Definition brokenRecipe : Recipe :=
  {| id := js "r9"; recipeName := js "Stew"; description := js "Hot";
     ingredients := [js "beef"]; instructions := [js "Stew for 2 hours"];
     imagePrompt := js "A pot of stew";
     imageUrl := Some (js "https://example.org/stew.jpg");
     imageError := Some true |}.

Definition brokenLinkPlatform : Platform :=
  {| JSON_parse := fun _ => Ok JOther;
     JSON_parse_recipe := fun _ => Ok brokenRecipe;
     randomUUID := fun n => repeat 97%N (S n) |}.

Definition picturePlatform : Platform :=
  {| JSON_parse := fun _ => Ok (JArray [pictureRaw]);
     JSON_parse_recipe := fun _ => Throw Thrown;
     randomUUID := fun n => repeat 97%N (S n) |}.

(** A platform whose parser yields four records and whose n-th UUID is a
    run of n+1 letters. *)
Definition samplePlatform : Platform :=
  {| JSON_parse := fun _ =>
       Ok (JArray [sampleRaw (js "A"); sampleRaw (js "B");
                   sampleRaw (js "C"); sampleRaw (js "D")]);
     JSON_parse_recipe := fun _ => Throw Thrown;
     randomUUID := fun n => repeat 97%N (S n) |}.

(** A short session: the popular recipes arrive, then the image loop of the
    first of them settles without an accepted image. *)
Definition samplePopular : AppState :=
  state (fetchPopular ai_always_yes samplePlatform initialState 0).

Definition sampleFirst : Recipe :=
  with_new_id (with_id (sampleRaw (js "A")) (js "a")) (js "aaaa").

Definition sampleSettled : AppState :=
  generateAndSetImageForRecipe ai_always_no sampleFirst samplePopular.

Definition otherRecipe : Recipe :=
  {| id := js "r2"; recipeName := js "Salad"; description := js "Fresh";
     ingredients := [js "lettuce"]; instructions := [js "Toss"];
     imagePrompt := js "A bowl of salad"; imageUrl := None; imageError := None |}.

Definition savedWithoutImage : Recipe := sampleRecipe.
Definition shownWithImage : Recipe :=
  with_image sampleRecipe (Some (js "data:image/jpeg;base64,QQ==")) false.

Definition sampleShown : AppState :=
  setError (Some imageAdvisory) (setRecipes (Some [sampleRecipe]) initialState).

Definition phoRecipe : Recipe :=
  {| id := js "r3"; recipeName := [80; 104; 7903]%N;
     description := js "Noodle soup"; ingredients := [js "broth"];
     instructions := [js "Simmer for 3 hours"];
     imagePrompt := js "A bowl of noodle soup";
     imageUrl := None; imageError := None |}.

Definition tildeRecipe : Recipe :=
  {| id := js "r4"; recipeName := js "10~Minute Eggs"; description := js "Quick";
     ingredients := [js "eggs"]; instructions := [js "Boil for 10 minutes"];
     imagePrompt := js "Eggs"; imageUrl := None; imageError := None |}.

Definition restInstruction : jsstring := js "Let rest 5 to 10 minutes".

(** An amount of 2^53 + 1 minutes. *)
Definition bigInstruction : jsstring := js "Wait 9007199254740993 minutes".

(* ================================================================== *)
(** * Vocabulary and sample inputs of the further properties *)
(* ================================================================== *)

(** A data URL with a base64 payload. *)
Definition dataURL (mime data : jsstring) : jsstring :=
  js "data:" ++ mime ++ js ";base64," ++ data.

(** A recipe without image and without failure flag: what the gateway
    returns when the parsed records have neither. *)
Definition plain (r : Recipe) : Prop :=
  imageUrl r = None /\ imageError r = None.

(** [imageBytes] of a generated image as the template literal of
    [generateRecipeImage] writes it. *)
Definition bytesText (image : option jsstring) : jsstring :=
  match image with
  | Some bytes => bytes
  | None => js "undefined"
  end.

(** The question that [validateRecipeImage] asks about a dish. *)
Definition validationQuestion (recipeName_ : jsstring) : jsstring :=
  js "Does this image accurately depict " ++ dquote ++ recipeName_ ++ dquote
  ++ js "? The image should look appealing and correctly represent the dish. Answer with only 'yes' or 'no'.".

(** The request that [generateRecipeImage] sends for a prompt. *)
Definition imagesRequest (prompt_ : jsstring) : ImagesRequest :=
  {| imagesModel := js "imagen-4.0-generate-001";
     prompt := prompt_;
     numberOfImages := 1;
     outputMimeType := js "image/jpeg";
     aspectRatio := js "4:3" |}.

(** The request with which [validateRecipeImage] shows an image to the
    model. *)
Definition validationRequest (mimeType : jsstring) (data : option jsstring)
  (question : jsstring) : ContentRequest :=
  {| model := js "gemini-2.5-flash";
     parts := [InlineData mimeType data; TextPart question];
     config := Temperature 0 |}.

(** What a fetch of the gateway leaves behind, started at UUID draw [n]:
    at most three recipes and as many draws, the recipes made of the first
    three records of a list that [JSON.parse] returned and identified by
    the draws; or a throw and no draw. *)
Definition fetch_outcome (pf : Platform) (n : nat)
  (outcome : result (list Recipe) * nat) : Prop :=
  match outcome with
  | (Ok l, n') =>
      length l <= 3 /\ n' = n + length l
      /\ map id l = map (randomUUID pf) (seq n (length l))
      /\ exists text_ items,
           JSON_parse pf text_ = Ok (JArray items)
           /\ map raw_of l = firstn 3 items
  | (Throw _, n') => n' = n
  end.

(** The recipes of a fetch that returned have no image and no flag. *)
Definition fetch_plain (outcome : result (list Recipe) * nat) : Prop :=
  match outcome with
  | (Ok l, _) => Forall plain l
  | (Throw _, _) => True
  end.

(** A platform whose [JSON.parse] gives one fixed outcome. *)
Definition platformReturning (parsed : result JSONValue) : Platform :=
  {| JSON_parse := fun _ => parsed;
     JSON_parse_recipe := fun _ => Throw Thrown;
     randomUUID := fun n => repeat 97%N (S n) |}.

(** The not-food advisory is on display: what [handleLoadMoreRecipes] tests
    to go on with generic recipes. *)
Definition inFallback (s : AppState) : bool :=
  match error s with
  | Some e => includes e (js "This doesn't appear to be food")
  | None => false
  end.



(** A state with an image selected. *)
Definition sampleWithImage : AppState :=
  handleImageSelect (dataURL (js "image/png") (js "QQ==")) initialState.

(** A service that rejects every request. *)
Definition ai_down : GoogleGenAI :=
  scripted (fun _ => Throw (Error (js "503"))) (fun _ => Throw (Error (js "503"))).


(** Image loops that settle one after the other, each with the service as
    it saw it. *)
Definition settleAll (tasks : list (GoogleGenAI * Recipe)) (s : AppState)
  : AppState :=
  fold_left (fun st t => generateAndSetImageForRecipe (fst t) (snd t) st) tasks s.

Definition taskIds (tasks : list (GoogleGenAI * Recipe)) : list jsstring :=
  map (fun t => id (snd t)) tasks.

(** What the settle updates of [tasks] make of one entry of a collection. *)
Definition settledBy (tasks : list (GoogleGenAI * Recipe)) (r : Recipe) : Recipe :=
  fold_left
    (fun r' t => if same_id r' (snd t) then finalRecipeState (fst t) (snd t) else r')
    tasks r.

(** Two recipes on display, and their image loops: the first is accepted,
    the second is rejected twice. *)
Definition sampleTasks : list (GoogleGenAI * Recipe) :=
  [(ai_always_yes, sampleRecipe); (ai_always_no, otherRecipe)].

Definition sampleBatch : AppState :=
  setRecipes (Some (map snd sampleTasks)) initialState.

(** ** The timer widget *)

(** What can happen to a mounted widget. *)
Inductive WidgetEvent :=
| Tick
| TogglePause
| ResetTimer
| NewProps (duration_ : Z) (description_ : jsstring).

Definition widgetStep (w : Widget) (e : WidgetEvent) : Widget :=
  match e with
  | Tick => tick w
  | TogglePause => togglePause w
  | ResetTimer => handleResetTimer w
  | NewProps duration_ description_ => receiveProps duration_ description_ w
  end.

Definition widgetRun (es : list WidgetEvent) (w : Widget) : Widget :=
  fold_left widgetStep es w.



(** ** The loading tips *)

(** A draw of [Math.random]: at least 0, less than 1. *)
Definition unit_draw (x : QArith_base.Q) : Prop :=
  QArith_base.Qle (QArith_base.Qmake 0 1) x
  /\ QArith_base.Qlt x (QArith_base.Qmake 1 1).

(** Draws that leave the array in place, and draws that bring the first
    element to the end. *)
Definition drawsLast : QArith_base.Q := QArith_base.Qmake 9 10.
Definition drawsFirst : QArith_base.Q := QArith_base.Qmake 0 1.

Definition sampleDraws (k : nat) : QArith_base.Q :=
  if (k <? 6)%nat then drawsFirst else drawsLast.

(** The tip on display after the mount and [n] firings of the interval. *)
Definition shownTip (random : nat -> QArith_base.Q) (n : nat) : option jsstring :=
  match tipsAfter random n with
  | Some (st, _) => currentTip st
  | None => None
  end.

(** ** Base64 *)

(** The six-bit groups of a byte string, without the padding. *)
Fixpoint sextets_of (bytes : list N) : list N :=
  match bytes with
  | a :: b :: c :: rest =>
      [a / 4; (a mod 4) * 16 + b / 16; (b mod 16) * 4 + c / 64; c mod 64]%N
      ++ sextets_of rest
  | [a; b] => [a / 4; (a mod 4) * 16 + b / 16; (b mod 16) * 4]%N
  | [a] => [a / 4; (a mod 4) * 16]%N
  | [] => []
  end.

Fixpoint padding_of (bytes : list N) : jsstring :=
  match bytes with
  | _ :: _ :: _ :: rest => padding_of rest
  | [_; _] => [61%N]
  | [_] => [61%N; 61%N]
  | [] => []
  end.

(** Code units that [btoa] accepts. *)
Definition latin1 (s : jsstring) : Prop := Forall (fun c => (c <= 255)%N) s.

(** ** Links *)

Definition invalidLinkNotice : jsstring :=
  js "The shared recipe link is invalid or corrupted.".

(** What the effect does with the JSON text of a link that decoded. *)
Definition showDecoded (pf : Platform) (text_ : jsstring) (s : AppState)
  : AppState :=
  match JSON_parse_recipe pf text_ with
  | Ok decodedRecipe =>
      if truthy (Some (id decodedRecipe))
         && truthy (Some (recipeName decodedRecipe))
      then setRecipes (Some [decodedRecipe]) s
      else s
  | Throw _ => setError (Some invalidLinkNotice) s
  end.

(** ** Cuisines and hearts *)

(** Clicks on cuisine buttons, from left to right. *)
Definition toggleCuisines (clicks : list jsstring) (s : AppState) : AppState :=
  fold_left (fun st c => handleCuisineToggle c st) clicks s.

(** How often [c] was clicked, and how often a recipe with the identifier
    of [r] was toggled. *)
Definition clicksOn (c : jsstring) (clicks : list jsstring) : nat :=
  length (filter (jsstring_eqb c) clicks).

Definition togglesOf (r : Recipe) (toggles : list Recipe) : nat :=
  length (filter (fun x => same_id x r) toggles).

Definition selected (c : jsstring) (s : AppState) : bool :=
  existsb (jsstring_eqb c) (selectedCuisines s).

(** Clicks on hearts, from left to right. *)
Definition toggleHearts (toggles : list Recipe) (s : AppState) : AppState :=
  fold_left (fun st r => handleSaveToggle r st) toggles s.

(** ** Saved recipes across sessions *)

Inductive SavedEvent :=
| HeartClick (recipe : Recipe)
| TrashClick (recipeId : jsstring).

Definition savedStep (sp : StoragePlatform) (st : AppState * option jsstring)
  (e : SavedEvent) : AppState * option jsstring :=
  match e with
  | HeartClick recipe => saveToggle sp recipe st
  | TrashClick recipeId => removeSaved sp recipeId st
  end.

(** A session: the page is loaded with [stored] in the storage, then hearts
    and trash buttons are clicked. *)
Definition session (sp : StoragePlatform) (events : list SavedEvent)
  (stored : option jsstring) : AppState * option jsstring :=
  fold_left (savedStep sp) events (mountSaved sp initialState stored).

(** Every write is taken. *)
Definition writable (sp : StoragePlatform) : Prop :=
  forall text_, setItem_accepts sp text_ = true.

(** A storage that can be read and written, with a parser that reads a
    sample text and rejects everything else. *)
Definition sampleStorage : StoragePlatform :=
  {| getItem_returns := true;
     setItem_accepts := fun _ => true;
     JSON_parse_saved := fun text_ =>
       if jsstring_eqb text_ (stringify_saved [sampleRecipe])
       then Ok [sampleRecipe] else Throw Thrown |}.

(** ** From the fetch to the settled cards *)

(** The image loops that a handler starts for a batch, all with the same
    service. *)
Definition loopsFor (ai : GoogleGenAI) (batch : list Recipe)
  : list (GoogleGenAI * Recipe) :=
  map (fun r => (ai, r)) batch.

Definition allAccepted (ai : GoogleGenAI) (batch : list Recipe) : bool :=
  forallb (fun r => isValid (run_loop ai r)) batch.

(* ================================================================== *)
(** * Properties of the gateway *)
(* ================================================================== *)

Lemma try_catch_verdict (answer : result (option jsstring)) :
  try_catch
    (response <- answer ;;
     text <- defined response ;;
     Ok (includes (toLowerCase (trim text)) (js "yes")))
    (fun _ => Ok false)
  = Ok (verdict answer).
Proof.
  destruct answer as [[text|]|e]; reflexivity.
Qed.

(** C7.  Whatever the model does (it may reject the request, or answer
    without a text), [isFoodImage] and [validateRecipeImage] return a boolean
    and never throw; the boolean is [false] unless the model answered with a
    text, in which case it tells whether the text contains "yes". *)
Theorem classifiers_never_throw
  (ai : GoogleGenAI) (round : nat) (data : option jsstring)
  (mimeType recipeName_ base64ImageData : jsstring) :
  (exists request,
      isFoodImage ai round data mimeType
      = Ok (verdict (generateContent ai round request)))
  /\ (exists request,
      validateRecipeImage ai round recipeName_ base64ImageData
      = Ok (verdict (generateContent ai round request)))
  /\ (forall e, isFoodImage ai round data mimeType <> Throw e)
  /\ (forall e, validateRecipeImage ai round recipeName_ base64ImageData <> Throw e)
  /\ (forall e, verdict (Throw e) = false)
  /\ verdict (Ok None) = false.
Proof.
  unfold isFoodImage, validateRecipeImage.
  repeat split; try (eexists; apply try_catch_verdict);
    intros e; rewrite try_catch_verdict; discriminate.
Qed.

(* ================================================================== *)
(** * The image loop *)
(* ================================================================== *)

#[local] Arguments refinedPrompt : simpl never.
#[local] Arguments generateRecipeImage : simpl never.
#[local] Arguments validateRecipeImage : simpl never.

Ltac case_call :=
  match goal with
  | |- context [generateRecipeImage ?a ?k ?q] =>
      destruct (generateRecipeImage a k q) as [?img|?e]; cbn
  | |- context [validateRecipeImage ?a ?k ?n ?i] =>
      destruct (validateRecipeImage a k n i) as [[|]|?e]; cbn
  end.

(** The loop unrolled: it stops after an accepted first attempt and makes
    exactly one more attempt otherwise. *)
Lemma run_loop_unrolled (ai : GoogleGenAI) (r : Recipe) :
  run_loop ai r =
  match attempt ai 1 r with
  | Some img =>
      {| currentRecipe := r; generatedUrl := Some img; isValid := true;
         attempts := 1; requested := [imagePrompt r] |}
  | None =>
      let r2 := secondRecipe ai r in
      match attempt ai 2 r2 with
      | Some img =>
          {| currentRecipe := r2; generatedUrl := Some img; isValid := true;
             attempts := 2; requested := [imagePrompt r; imagePrompt r2] |}
      | None =>
          {| currentRecipe := r2; generatedUrl := None; isValid := false;
             attempts := 2; requested := [imagePrompt r; imagePrompt r2] |}
      end
  end.
Proof.
  unfold run_loop, attempt, secondRecipe, while_loop, loop_body; cbn.
  destruct (generateRecipeImage ai 1 (imagePrompt r)) as [img1|e1]; cbn;
    [destruct (validateRecipeImage ai 1 (recipeName r) img1) as [[|]|e1]; cbn|];
    repeat case_call; reflexivity.
Qed.

(** The fuel is enough: the loop ends because its guard is false. *)
Lemma run_loop_exits (ai : GoogleGenAI) (r : Recipe) :
  negb (isValid (run_loop ai r))
  && (attempts (run_loop ai r) <? MAX_ATTEMPTS)%nat = false.
Proof.
  rewrite run_loop_unrolled.
  destruct (attempt ai 1 r); [reflexivity|].
  cbn zeta. destruct (attempt ai 2 (secondRecipe ai r)); reflexivity.
Qed.

(** Every prompt in [requested] stands for one call of
    [generateRecipeImage]: the two counts agree. *)
Lemma requested_counts_attempts (ai : GoogleGenAI) (r : Recipe) :
  length (requested (run_loop ai r)) = attempts (run_loop ai r).
Proof.
  rewrite run_loop_unrolled.
  destruct (attempt ai 1 r); [reflexivity|].
  cbn zeta. destruct (attempt ai 2 (secondRecipe ai r)); reflexivity.
Qed.

(** C1.  The image loop on one recipe: with a validator that answers false
    on every attempt, two images are requested and the recipe ends with the
    failure flag and no image; with a validator that answers false on the
    first attempt and true on the second, two images are requested and the
    recipe ends with the second image and the flag off; with a validator
    that answers true on the first attempt, one image is requested and the
    recipe ends with it.  Never more than two images are requested. *)
Theorem image_loop_attempt_budget (ai : GoogleGenAI) (recipe : Recipe) :
  let st := run_loop ai recipe in
  let final := finalRecipeState ai recipe in
  ((forall round name img, validateRecipeImage ai round name img = Ok false) ->
     length (requested st) = 2 /\ attempts st = 2
     /\ imageUrl final = None /\ imageError final = Some true)
  /\ (forall img1 img2,
        generateRecipeImage ai 1 (imagePrompt recipe) = Ok img1 ->
        validateRecipeImage ai 1 (recipeName recipe) img1 = Ok false ->
        generateRecipeImage ai 2 (refinedPrompt recipe) = Ok img2 ->
        validateRecipeImage ai 2 (recipeName recipe) img2 = Ok true ->
        length (requested st) = 2 /\ attempts st = 2
        /\ imageUrl final = Some img2 /\ imageError final = Some false)
  /\ (forall img1,
        generateRecipeImage ai 1 (imagePrompt recipe) = Ok img1 ->
        validateRecipeImage ai 1 (recipeName recipe) img1 = Ok true ->
        length (requested st) = 1 /\ attempts st = 1
        /\ imageUrl final = Some img1 /\ imageError final = Some false)
  /\ length (requested st) <= 2.
Proof.
  cbv zeta. unfold finalRecipeState. rewrite run_loop_unrolled.
  unfold attempt, secondRecipe.
  split; [|split; [|split]].
  - intros Hno.
    destruct (generateRecipeImage ai 1 (imagePrompt recipe)) as [img1|e1]; cbn;
      rewrite ?Hno; cbn;
      repeat match goal with
             | |- context [generateRecipeImage ?a ?k ?q] =>
                 destruct (generateRecipeImage a k q) as [?img|?e]; cbn;
                 rewrite ?Hno; cbn
             end; repeat split; reflexivity.
  - intros img1 img2 G1 V1 G2 V2. rewrite G1, V1. cbn. rewrite G2, V2.
    repeat split; reflexivity.
  - intros img1 G1 V1. rewrite G1, V1. repeat split; reflexivity.
  - destruct (generateRecipeImage ai 1 (imagePrompt recipe)) as [img1|e1]; cbn;
      [destruct (validateRecipeImage ai 1 (recipeName recipe) img1) as [[|]|e1]; cbn|];
      repeat case_call; auto.
Qed.

Lemma image_loop_attempt_budget_witness :
  (length (requested (run_loop ai_always_no sampleRecipe)) = 2
   /\ attempts (run_loop ai_always_no sampleRecipe) = 2
   /\ imageUrl (finalRecipeState ai_always_no sampleRecipe) = None
   /\ imageError (finalRecipeState ai_always_no sampleRecipe) = Some true)
  /\ (length (requested (run_loop ai_no_then_yes sampleRecipe)) = 2
      /\ attempts (run_loop ai_no_then_yes sampleRecipe) = 2
      /\ imageUrl (finalRecipeState ai_no_then_yes sampleRecipe)
         = Some (js "data:image/jpeg;base64,QQ==")
      /\ imageError (finalRecipeState ai_no_then_yes sampleRecipe) = Some false)
  /\ (length (requested (run_loop ai_always_yes sampleRecipe)) = 1
      /\ attempts (run_loop ai_always_yes sampleRecipe) = 1
      /\ imageUrl (finalRecipeState ai_always_yes sampleRecipe)
         = Some (js "data:image/jpeg;base64,QQ==")
      /\ imageError (finalRecipeState ai_always_yes sampleRecipe) = Some false).
Proof.
  split; [|split].
  - apply (proj1 (image_loop_attempt_budget ai_always_no sampleRecipe)).
    intros round name img. reflexivity.
  - apply (proj1 (proj2 (image_loop_attempt_budget ai_no_then_yes sampleRecipe))
             (js "data:image/jpeg;base64,QQ==") (js "data:image/jpeg;base64,QQ=="));
      vm_compute; reflexivity.
  - apply (proj1 (proj2 (proj2 (image_loop_attempt_budget ai_always_yes sampleRecipe)))
             (js "data:image/jpeg;base64,QQ=="));
      vm_compute; reflexivity.
Defined.

(** C2, as stated, fails: an error of the image generation on the first
    attempt does not end the loop; here the second attempt succeeds and the
    recipe ends with an image and the flag off. *)
Lemma generation_error_on_first_attempt_is_retried :
  (exists e, generateRecipeImage ai_error_then_yes 1 (imagePrompt sampleRecipe)
             = Throw e)
  /\ ~ (imageUrl (finalRecipeState ai_error_then_yes sampleRecipe) = None
        /\ imageError (finalRecipeState ai_error_then_yes sampleRecipe) = Some true).
Proof.
  split.
  - eexists. vm_compute. reflexivity.
  - intros [H _]. vm_compute in H. discriminate H.
Qed.

(** C2, amended.  An error of the image generation ends the loop in the
    rejected state when it happens on the second, last attempt: the image
    stays unset and the failure flag is set.  An error on the first attempt
    uses that attempt up: a second image is requested, with the prompt
    unchanged, and the second attempt decides the outcome: the recipe ends
    with the image that the second attempt accepted and the flag off, or,
    when the second attempt accepted none, without image and with the flag
    on; its other fields are those of the recipe. *)
Theorem generation_error_on_last_attempt_rejects (ai : GoogleGenAI) (recipe : Recipe) :
  let st := run_loop ai recipe in
  let final := finalRecipeState ai recipe in
  (forall e, generateRecipeImage ai 1 (imagePrompt recipe) = Throw e ->
             requested st = [imagePrompt recipe; imagePrompt recipe]
             /\ attempts st = 2
             /\ final
                = with_image recipe (attempt ai 2 recipe)
                    (match attempt ai 2 recipe with
                     | Some _ => false
                     | None => true
                     end))
  /\ (forall p1 p2 e,
        requested st = [p1; p2] ->
        generateRecipeImage ai 2 p2 = Throw e ->
        imageUrl final = None /\ imageError final = Some true).
Proof.
  cbv zeta. split.
  - intros e G1.
    assert (A1 : attempt ai 1 recipe = None) by (unfold attempt; rewrite G1; reflexivity).
    assert (S2 : secondRecipe ai recipe = recipe)
      by (unfold secondRecipe; rewrite G1; reflexivity).
    unfold finalRecipeState. rewrite run_loop_unrolled, A1. cbv zeta.
    rewrite S2.
    destruct (attempt ai 2 recipe) as [img|]; cbn;
      (split; [reflexivity|split; reflexivity]).
  - unfold finalRecipeState. rewrite run_loop_unrolled.
    unfold attempt, secondRecipe.
    intros p1 p2 e.
    destruct (generateRecipeImage ai 1 (imagePrompt recipe)) as [img1|e1]; cbn;
      [destruct (validateRecipeImage ai 1 (recipeName recipe) img1) as [[|]|e1]; cbn|].
    1: discriminate.
    all: repeat match goal with
           | |- context [generateRecipeImage ?a ?k ?q] =>
               destruct (generateRecipeImage a k q) as [?img|?e] eqn:?; cbn
           | |- context [validateRecipeImage ?a ?k ?n ?i] =>
               destruct (validateRecipeImage a k n i) as [[|]|?e]; cbn
           end;
      intros Hreq G2; try (split; reflexivity);
      injection Hreq as <- <-; congruence.
Qed.

Lemma generation_error_on_last_attempt_rejects_witness :
  (requested (run_loop ai_error_then_yes sampleRecipe)
   = [imagePrompt sampleRecipe; imagePrompt sampleRecipe]
   /\ attempts (run_loop ai_error_then_yes sampleRecipe) = 2
   /\ finalRecipeState ai_error_then_yes sampleRecipe
      = with_image sampleRecipe (attempt ai_error_then_yes 2 sampleRecipe)
          (match attempt ai_error_then_yes 2 sampleRecipe with
           | Some _ => false
           | None => true
           end))
  /\ imageUrl (finalRecipeState ai_yes_then_error sampleRecipe) = None
  /\ imageError (finalRecipeState ai_yes_then_error sampleRecipe) = Some true.
Proof.
  split.
  - apply (proj1 (generation_error_on_last_attempt_rejects ai_error_then_yes sampleRecipe)
             (Error (js "quota"))).
    vm_compute. reflexivity.
  - apply (proj2 (generation_error_on_last_attempt_rejects ai_yes_then_error sampleRecipe)
             (imagePrompt sampleRecipe) (refinedPrompt sampleRecipe)
             (Error (js "quota")));
      vm_compute; reflexivity.
Defined.

(* ================================================================== *)
(** * The normalizer *)
(* ================================================================== *)

Lemma map_with_uuid_spec {A B} (pf : Platform) (f : A -> jsstring -> B)
  (xs : list A) (n : nat) :
  map_with_uuid pf f xs n
  = (map (fun xi => f (fst xi) (randomUUID pf (snd xi)))
         (combine xs (seq n (length xs))),
     n + length xs).
Proof.
  revert n. induction xs as [|x xs IH]; intros n; cbn.
  - f_equal. lia.
  - rewrite IH. cbn. f_equal. lia.
Qed.

Lemma map_with_uuid_length {A B} (pf : Platform) (f : A -> jsstring -> B)
  (xs : list A) (n : nat) :
  length (fst (map_with_uuid pf f xs n)) = length xs.
Proof.
  rewrite map_with_uuid_spec. cbn.
  rewrite length_map, length_combine, length_seq. lia.
Qed.

(** The identifiers handed out to a batch are the draws [n], [n+1], ... *)
Lemma map_with_uuid_ids {A} (pf : Platform) (f : A -> jsstring -> Recipe)
  (xs : list A) (n : nat) :
  (forall x u, id (f x u) = u) ->
  map id (fst (map_with_uuid pf f xs n))
  = map (randomUUID pf) (seq n (length xs)).
Proof.
  intros Hid. rewrite map_with_uuid_spec. cbn.
  revert n. induction xs as [|x xs IH]; intros n; cbn; [reflexivity|].
  rewrite Hid, IH. reflexivity.
Qed.

Lemma map_with_uuid_proj {A B C} (pf : Platform) (f : A -> jsstring -> B)
  (g : B -> C) (h : A -> C) (xs : list A) (n : nat) :
  (forall x u, g (f x u) = h x) ->
  map g (fst (map_with_uuid pf f xs n)) = map h xs.
Proof.
  intros Hg. rewrite map_with_uuid_spec. cbn.
  revert n. induction xs as [|x xs IH]; intros n; cbn; [reflexivity|].
  rewrite Hg, IH. reflexivity.
Qed.

Lemma NoDup_uuids (pf : Platform) (n len : nat) :
  collision_free pf -> NoDup (map (randomUUID pf) (seq n len)).
Proof.
  intros Hfree. apply Finite.Injective_map_NoDup; [exact Hfree|apply seq_NoDup].
Qed.

(** C4, as stated, fails in its last part: the normalizer copies every
    property of a parsed record, so a record that comes with an image gives
    an entry with that image. *)
Lemma normalizer_keeps_image_of_record :
  JSON_parse picturePlatform (js "[]") = Ok (JArray [pictureRaw])
  /\ exists r n',
       parseAndPrepareRecipes picturePlatform (js "[]") 0 = (Ok [r], n')
       /\ imageUrl r = Some (js "https://example.org/e.jpg").
Proof.
  split; [reflexivity|]. eexists. eexists. split; reflexivity.
Qed.

(** C4, amended.  When the gateway's answer parses to a list of raw
    recipes, the normalizer returns the first three of them (all of them
    when there are fewer), in their order: exactly three when the list is
    longer than three.  Each entry gets the next draw of [crypto.randomUUID]
    as its identifier, so the identifiers of a batch are pairwise distinct
    as long as the draws do not collide.  Every other property of an entry
    is that of its record, image and failure flag included: an entry has
    neither exactly when its record has neither, as [recipeSchema] asks. *)
Theorem normalizer_first_three_fresh_ids
  (pf : Platform) (jsonString : jsstring) (n : nat) (raws : list RawRecipe) :
  JSON_parse pf jsonString = Ok (JArray raws) ->
  exists prepared,
    parseAndPrepareRecipes pf jsonString n = (Ok prepared, n + length prepared)
    /\ map raw_of prepared = firstn 3 raws
    /\ (3 < length raws -> length prepared = 3)
    /\ map id prepared = map (randomUUID pf) (seq n (length prepared))
    /\ (collision_free pf -> NoDup (map id prepared))
    /\ (Forall raw_plain (firstn 3 raws) <->
        forall r, In r prepared -> imageUrl r = None /\ imageError r = None).
Proof.
  intros Hparse. unfold parseAndPrepareRecipes. rewrite Hparse.
  pose proof (map_with_uuid_spec pf with_id (firstn 3 raws) n) as Hspec.
  pose proof (map_with_uuid_length pf with_id (firstn 3 raws) n) as Hlen.
  pose proof (map_with_uuid_ids pf with_id (firstn 3 raws) n
                (fun _ _ => eq_refl)) as Hids.
  pose proof (map_with_uuid_proj pf with_id raw_of (fun x => x) (firstn 3 raws) n)
    as Hraw.
  destruct (map_with_uuid pf with_id (firstn 3 raws) n) as [prepared n'] eqn:E.
  cbn [fst] in *. injection Hspec as Hprep Hn.
  assert (Hrawmap : map raw_of prepared = firstn 3 raws).
  { rewrite Hraw; [apply map_id|]. intros [] u; reflexivity. }
  exists prepared. rewrite <- Hlen in Hids.
  split; [subst n'; rewrite Hlen; reflexivity|].
  split; [exact Hrawmap|].
  split; [intros Hlong; rewrite Hlen, length_firstn; lia|].
  split; [exact Hids|].
  split; [intros Hfree; rewrite Hids; apply NoDup_uuids, Hfree|].
  rewrite <- Hrawmap, Forall_map, Forall_forall. unfold raw_plain, raw_of.
  cbn [rawImageUrl rawImageError]. reflexivity.
Qed.

Lemma samplePlatform_collision_free : collision_free samplePlatform.
Proof.
  intros i j H. apply (f_equal (@length N)) in H. cbn in H.
  rewrite !repeat_length in H. lia.
Defined.

Lemma normalizer_first_three_fresh_ids_witness :
  exists prepared,
    parseAndPrepareRecipes samplePlatform (js "[]") 0 = (Ok prepared, 3)
    /\ map raw_of prepared
       = [sampleRaw (js "A"); sampleRaw (js "B"); sampleRaw (js "C")]
    /\ length prepared = 3
    /\ NoDup (map id prepared).
Proof.
  destruct (normalizer_first_three_fresh_ids samplePlatform (js "[]") 0
              (raws := [sampleRaw (js "A"); sampleRaw (js "B");
                        sampleRaw (js "C"); sampleRaw (js "D")]) eq_refl)
    as (prepared & Hrun & Hraw & Hlen & _ & Hnodup & _).
  exists prepared.
  assert (length prepared = 3) as L by (apply Hlen; cbn; lia).
  rewrite L in Hrun.
  repeat split; [exact Hrun | exact Hraw | exact L |].
  apply Hnodup, samplePlatform_collision_free.
Defined.

(* ================================================================== *)
(** * Image and failure flag *)
(* ================================================================== *)

Lemma state_ok_iff (s : AppState) :
  state_ok s <->
  (forall l, recipes s = Some l -> Forall (fun r => consistent r = true) l)
  /\ Forall (fun r => consistent r = true) (popularRecipes s)
  /\ Forall (fun r => consistent r = true) (savedRecipes s).
Proof.
  unfold state_ok, held, displayed. rewrite !Forall_app.
  destruct (recipes s) as [l|]; split.
  - intros [[Hl Hp] Hs]. repeat split; auto. intros l' [= <-]. exact Hl.
  - intros (Hl & Hp & Hs). repeat split; auto.
  - intros [[_ Hp] Hs]. repeat split; auto. discriminate.
  - intros (_ & Hp & Hs). repeat split; auto.
Qed.

Lemma consistent_final (ai : GoogleGenAI) (recipe : Recipe) :
  consistent (finalRecipeState ai recipe) = true.
Proof.
  unfold finalRecipeState. generalize (run_loop ai recipe) as st. intros st.
  unfold consistent, with_image; cbn.
  destruct (isValid st); cbn; [|reflexivity].
  destruct (generatedUrl st); reflexivity.
Qed.

Lemma consistent_with_new_id (r : Recipe) (u : jsstring) :
  consistent (with_new_id r u) = consistent r.
Proof. reflexivity. Qed.

Lemma Forall_map_with_uuid {A} (pf : Platform) (f : A -> jsstring -> Recipe)
  (P : A -> Prop) (Q : Recipe -> Prop) (xs : list A) (n : nat) :
  (forall x u, P x -> Q (f x u)) ->
  Forall P xs -> Forall Q (fst (map_with_uuid pf f xs n)).
Proof.
  intros HPQ Hxs. rewrite map_with_uuid_spec. cbn.
  revert n. induction Hxs as [|x xs Hx Hxs IH]; intros n; cbn; constructor; auto.
Qed.

(** What the gateway returns is made of the first three records that its
    answer parses to. *)
Lemma parseAndPrepareRecipes_records (pf : Platform) (text_ : jsstring)
  (n n' : nat) (l : list Recipe) :
  parseAndPrepareRecipes pf text_ n = (Ok l, n') ->
  exists items, JSON_parse pf text_ = Ok (JArray items)
                /\ map raw_of l = firstn 3 items.
Proof.
  unfold parseAndPrepareRecipes.
  destruct (JSON_parse pf text_) as [[raws|]|e]; try discriminate.
  pose proof (map_with_uuid_proj pf with_id raw_of (fun x => x) (firstn 3 raws) n)
    as Hraw.
  destruct (map_with_uuid pf with_id (firstn 3 raws) n) as [prepared k].
  intros [= <- _]. exists raws. split; [reflexivity|].
  cbn [fst] in Hraw. rewrite Hraw; [apply map_id|]. intros [] u; reflexivity.
Qed.

Lemma fetchRecipes_records (ai : GoogleGenAI) (pf : Platform) (round : nat)
  (parts_ : list Part) (n n' : nat) (l : list Recipe) :
  fetchRecipes ai pf round parts_ n = (Ok l, n') ->
  exists text_ items, JSON_parse pf text_ = Ok (JArray items)
                      /\ map raw_of l = firstn 3 items.
Proof.
  unfold fetchRecipes.
  destruct (generateContent ai round _) as [[text_|]|e]; cbn; try discriminate.
  intros E. exists (trim text_). exact (parseAndPrepareRecipes_records _ _ _ E).
Qed.

Lemma Forall_firstn {A} (P : A -> Prop) (k : nat) (l : list A) :
  Forall P l -> Forall P (firstn k l).
Proof.
  intros H. revert k.
  induction H as [|x l Hx Hl IH]; intros [|k]; cbn [firstn]; constructor;
    auto.
Qed.

Lemma fetchRecipes_consistent (ai : GoogleGenAI) (pf : Platform) (round : nat)
  (parts_ : list Part) (n n' : nat) (l : list Recipe) :
  keeps_invariant pf ->
  fetchRecipes ai pf round parts_ n = (Ok l, n') ->
  Forall (fun r => consistent r = true) l.
Proof.
  intros [Hpf _] E.
  destruct (fetchRecipes_records _ _ _ _ _ E) as (text_ & items & Hparse & Hraw).
  pose proof (Forall_firstn 3 (Hpf _ _ Hparse)) as H.
  rewrite <- Hraw, Forall_map in H. exact H.
Qed.

(** Records without image and flag give recipes without image and flag. *)
Lemma fetchRecipes_plain (ai : GoogleGenAI) (pf : Platform) (round : nat)
  (parts_ : list Part) (n n' : nat) (l : list Recipe) :
  schema_abiding pf ->
  fetchRecipes ai pf round parts_ n = (Ok l, n') ->
  Forall (fun r => imageUrl r = None /\ imageError r = None) l.
Proof.
  intros Hpf E.
  destruct (fetchRecipes_records _ _ _ _ _ E) as (text_ & items & Hparse & Hraw).
  pose proof (Forall_firstn 3 (Hpf _ _ Hparse)) as H.
  rewrite <- Hraw, Forall_map in H. exact H.
Qed.

Lemma plain_consistent (l : list Recipe) :
  Forall (fun r => imageUrl r = None /\ imageError r = None) l ->
  Forall (fun r => consistent r = true) l.
Proof.
  apply Forall_impl. intros r [Hu He]. unfold consistent. rewrite Hu.
  reflexivity.
Qed.

Lemma showRecipes_ok (pf : Platform) (s : AppState) (calls : list GatewayCall)
  (fetchedRecipes : result (list Recipe) * nat) (advisory : option jsstring) :
  state_ok s ->
  (forall l n, fetchedRecipes = (Ok l, n) ->
               Forall (fun r => consistent r = true) l) ->
  state_ok (state (showRecipes pf s calls fetchedRecipes advisory)).
Proof.
  intros Hs Hf. apply state_ok_iff in Hs as (Hr & Hp & Hsv).
  apply state_ok_iff. unfold showRecipes.
  destruct fetchedRecipes as [[l|e] n].
  - pose proof (@Forall_map_with_uuid _ pf with_new_id
                  (fun r => consistent r = true) (fun r => consistent r = true)
                  l n (fun x u H => H) (Hf l n eq_refl)) as Hw.
    destruct (map_with_uuid pf with_new_id l n) as [ws n'].
    destruct advisory; cbn; repeat split; auto; intros ? [= <-]; exact Hw.
  - cbn. repeat split; auto.
Qed.

Lemma showRecipes_fetch_ok (ai : GoogleGenAI) (pf : Platform) (s : AppState)
  (calls : list GatewayCall) (round : nat) (parts_ : list Part) (n : nat)
  (advisory : option jsstring) :
  keeps_invariant pf -> state_ok s ->
  state_ok (state (showRecipes pf s calls (fetchRecipes ai pf round parts_ n) advisory)).
Proof.
  intros Hpf Hs. apply showRecipes_ok; [exact Hs|].
  intros l n' E. eapply fetchRecipes_consistent; eassumption.
Qed.

(** State updates that leave the three collections alone, or empty the
    displayed one, keep the invariant. *)
Lemma state_ok_same (s s' : AppState) :
  (recipes s' = recipes s \/ recipes s' = None) ->
  popularRecipes s' = popularRecipes s ->
  savedRecipes s' = savedRecipes s ->
  state_ok s -> state_ok s'.
Proof.
  intros Hr Hp Hsv Hs. apply state_ok_iff in Hs as (H1 & H2 & H3).
  apply state_ok_iff. rewrite Hp, Hsv. repeat split; auto.
  intros l E. destruct Hr as [Hr|Hr]; rewrite Hr in E; [auto|discriminate].
Qed.

Lemma settle_ok (ai : GoogleGenAI) (recipe : Recipe) (s : AppState) :
  state_ok s -> state_ok (generateAndSetImageForRecipe ai recipe s).
Proof.
  intros Hs. apply state_ok_iff in Hs as (H1 & H2 & H3).
  assert (Hmap : forall l, Forall (fun r => consistent r = true) l ->
            Forall (fun r => consistent r = true)
              (map (fun r => if same_id r (finalRecipeState ai recipe)
                             then finalRecipeState ai recipe else r) l)).
  { intros l Hl. apply Forall_map. revert Hl. apply Forall_impl. intros r Hr.
    destruct (same_id r _); [apply consistent_final|exact Hr]. }
  apply state_ok_iff. unfold generateAndSetImageForRecipe.
  destruct (negb (isValid (run_loop ai recipe))); cbn;
    (repeat split; auto;
     destruct (recipes s) as [l|]; cbn; intros l' [= <-]; auto).
Qed.

Lemma handleGetRecipes_ok ai pf exclude cuisines s n :
  keeps_invariant pf ->
  state_ok s -> state_ok (state (handleGetRecipes ai pf exclude cuisines s n)).
Proof.
  intros Hpf Hs. unfold handleGetRecipes.
  destruct (image s) as [[|c image']|]; cbn [state];
    try solve [revert Hs; apply state_ok_same; cbn; auto].
  assert (H1 : state_ok (setRecipes None (setError None (setIsLoading true s))))
    by (revert Hs; apply state_ok_same; cbn; auto).
  destruct (if (0 <? length exclude)%nat then Ok true else isFoodImage ai 1 _ _)
    as [[|]|e].
  - apply showRecipes_fetch_ok; [exact Hpf|exact H1].
  - apply showRecipes_fetch_ok; [exact Hpf|].
    revert H1. apply state_ok_same; cbn; auto.
  - cbn [state]. revert H1. apply state_ok_same; cbn; auto.
Qed.

Lemma handleLoadMoreRecipes_ok ai pf s n :
  keeps_invariant pf ->
  state_ok s -> state_ok (state (handleLoadMoreRecipes ai pf s n)).
Proof.
  intros Hpf Hs. unfold handleLoadMoreRecipes.
  assert (H1 : state_ok (setRecipes None (setError None (setIsLoading true s))))
    by (revert Hs; apply state_ok_same; cbn; auto).
  destruct (match error s with Some e => _ | None => false end).
  - apply showRecipes_fetch_ok; [exact Hpf|exact H1].
  - destruct (image s) as [[|c image']|]; cbn [state]; auto.
    apply showRecipes_fetch_ok; [exact Hpf|exact H1].
Qed.

Lemma fetchPopular_ok ai pf s n :
  keeps_invariant pf ->
  state_ok s -> state_ok (state (fetchPopular ai pf s n)).
Proof.
  intros Hpf Hs. unfold fetchPopular.
  destruct (length (popularRecipes s) =? 0)%nat; [|exact Hs].
  destruct (getPopularRecipes ai pf 1 n) as [[l|e] n1] eqn:E; [|exact Hs].
  unfold getPopularRecipes in E. cbv zeta in E.
  eapply fetchRecipes_consistent in E; [|exact Hpf].
  pose proof (@Forall_map_with_uuid _ pf with_new_id
                (fun r => consistent r = true) (fun r => consistent r = true)
                l n1 (fun x u H => H) E) as Hw.
  destruct (map_with_uuid pf with_new_id l n1) as [ws n2]. cbn in *.
  apply state_ok_iff in Hs as (H1 & H2 & H3). apply state_ok_iff. cbn.
  repeat split; auto.
Qed.

Lemma step_ok (s s' : AppState) :
  step keeps_invariant s s' -> state_ok s -> state_ok s'.
Proof.
  intros Hstep Hs. destruct Hstep.
  - revert Hs. apply state_ok_same; cbn; auto.
  - apply handleGetRecipes_ok; assumption.
  - apply handleLoadMoreRecipes_ok; assumption.
  - apply showRecipes_fetch_ok; assumption.
  - apply fetchPopular_ok; assumption.
  - apply settle_ok, Hs.
  - revert Hs. apply state_ok_same; cbn; auto.
  - revert Hs. apply state_ok_same; cbn; auto.
  - (* save or unsave a displayed recipe *)
    assert (Hr : consistent r = true).
    { unfold state_ok, held in Hs. rewrite Forall_app in Hs.
      destruct Hs as [Hd _]. rewrite Forall_forall in Hd. auto. }
    apply state_ok_iff in Hs as (H1 & H2 & H3). apply state_ok_iff. cbn.
    repeat split; auto. unfold toggleSaved.
    destruct (existsb _ _).
    + apply Forall_forall. intros x Hx. apply filter_In in Hx as [Hx _].
      rewrite Forall_forall in H3. auto.
    + apply Forall_app. split; [exact H3|]. constructor; auto.
  - apply state_ok_iff in Hs as (H1 & H2 & H3). apply state_ok_iff. cbn.
    repeat split; auto.
    apply Forall_forall. intros x Hx. apply filter_In in Hx as [Hx _].
    rewrite Forall_forall in H3. auto.
  - apply state_ok_iff in Hs as (H1 & H2 & H3). apply state_ok_iff. cbn.
    repeat split; auto. intros l [= <-]. constructor; [|constructor].
    rewrite Forall_forall in H3. auto.
  - revert Hs. apply state_ok_same; cbn; auto.
  - (* a shared link *)
    match goal with H : keeps_invariant _ |- _ => destruct H as [_ Hlink] end.
    unfold loadSharedRecipe. destruct data as [|c data]; [exact Hs|].
    destruct (decodeShared pf (c :: data)) as [decoded|e] eqn:E.
    + destruct (truthy _ && truthy _); [|exact Hs].
      assert (Hd : consistent decoded = true).
      { unfold decodeShared in E.
        destruct (atob (c :: data)) as [text_|e]; cbn [bind] in E;
          [|discriminate].
        exact (Hlink _ _ E). }
      apply state_ok_iff in Hs as (H1 & H2 & H3). apply state_ok_iff. cbn.
      repeat split; auto. intros l [= <-]. constructor; [|constructor]. auto.
    + revert Hs. apply state_ok_same; cbn; auto.
Qed.

Lemma reachable_ok (s : AppState) :
  reachable keeps_invariant (fun r => consistent r = true) s -> state_ok s.
Proof.
  induction 1 as [|saved Hsaved|s s' Hs IH Hstep].
  - constructor.
  - apply state_ok_iff. cbn. repeat split; auto. discriminate.
  - eapply step_ok; eauto.
Qed.

(** C5, as stated, fails: what a shared link decodes to is displayed as it
    is, and what the storage holds is restored as it is; a recipe with both
    an image and the failure flag enters either way. *)
Lemma shared_link_brings_image_and_flag :
  let s := loadSharedRecipe brokenLinkPlatform (Some (js "QQ==")) initialState in
  reachable any_platform any_recipe s
  /\ recipes s = Some [brokenRecipe]
  /\ In brokenRecipe (held s)
  /\ reachable any_platform any_recipe
       (setSavedRecipes (fun _ => [brokenRecipe]) initialState)
  /\ imageUrl brokenRecipe <> None /\ imageError brokenRecipe = Some true.
Proof.
  cbv zeta. split; [|split; [|split; [|split; [|split]]]].
  - eapply reach_step; [apply reach_fresh|].
    apply (step_shared any_platform brokenLinkPlatform). exact I.
  - vm_compute. reflexivity.
  - vm_compute. left. reflexivity.
  - apply reach_restored. constructor; [exact I|constructor].
  - discriminate.
  - reflexivity.
Qed.

(** C5, amended.  The final state that the image loop computes for a
    recipe never has both an image and the failure flag, and its settle
    update keeps every collection of the state free of such recipes.  No
    recipe of a session has both as long as none enters with both: when
    nothing that the platform's parser returns (gateway records, the recipe
    of a shared link) and no stored saved recipe has both, no recipe held by
    a state that the session reaches has. *)
Theorem image_and_failure_exclusive :
  (forall ai recipe, consistent (finalRecipeState ai recipe) = true)
  /\ (forall ai recipe s,
        state_ok s -> state_ok (generateAndSetImageForRecipe ai recipe s))
  /\ (forall s r,
        reachable keeps_invariant (fun r => consistent r = true) s ->
        In r (held s) ->
        ~ (imageUrl r <> None /\ imageError r = Some true)).
Proof.
  split; [exact consistent_final|split; [exact settle_ok|]].
  intros s r Hs Hin [Hu He]. apply reachable_ok in Hs.
  unfold state_ok in Hs. rewrite Forall_forall in Hs. specialize (Hs r Hin).
  unfold consistent in Hs. rewrite He in Hs.
  destruct (imageUrl r); [discriminate|contradiction].
Qed.

Lemma samplePlatform_keeps_invariant : keeps_invariant samplePlatform.
Proof.
  split.
  - intros text_ items [= <-]. repeat constructor.
  - intros text_ r H. discriminate H.
Qed.

Lemma image_and_failure_exclusive_witness :
  state_ok (generateAndSetImageForRecipe ai_always_no sampleFirst initialState)
  /\ In (finalRecipeState ai_always_no sampleFirst) (held sampleSettled)
  /\ imageError (finalRecipeState ai_always_no sampleFirst) = Some true
  /\ ~ (imageUrl (finalRecipeState ai_always_no sampleFirst) <> None
        /\ imageError (finalRecipeState ai_always_no sampleFirst) = Some true).
Proof.
  split; [|split; [|split]].
  - apply (proj1 (proj2 image_and_failure_exclusive)). constructor.
  - vm_compute. left. reflexivity.
  - vm_compute. reflexivity.
  - apply (proj2 (proj2 image_and_failure_exclusive) sampleSettled).
    + eapply reach_step; [eapply reach_step; [apply reach_fresh|]|].
      * apply (step_popular keeps_invariant ai_always_yes samplePlatform 0).
        exact samplePlatform_keeps_invariant.
      * apply (step_settle keeps_invariant ai_always_no sampleFirst).
    + vm_compute. left. reflexivity.
Defined.

(* ================================================================== *)
(** * What a settle update touches *)
(* ================================================================== *)

(** C6, as stated, fails: when the first image is rejected the loop rewrites
    the prompt of its copy of the recipe, and the settle update stores the
    copy; the image prompt of the displayed recipe changes. *)
Lemma settle_changes_image_prompt :
  let s := setRecipes (Some [sampleRecipe]) initialState in
  exists r',
    recipes (generateAndSetImageForRecipe ai_no_then_yes sampleRecipe s) = Some [r']
    /\ id r' = id sampleRecipe
    /\ imagePrompt r' <> imagePrompt sampleRecipe.
Proof.
  eexists. split; [vm_compute; reflexivity|]. split; [reflexivity|].
  vm_compute. discriminate.
Qed.

Lemma same_id_true (r other : Recipe) : same_id r other = true <-> id r = id other.
Proof.
  unfold same_id, jsstring_eqb.
  destruct (list_eq_dec N.eq_dec (id r) (id other)); split; congruence.
Qed.

Lemma finalRecipeState_id (ai : GoogleGenAI) (recipe : Recipe) :
  id (finalRecipeState ai recipe) = id recipe.
Proof.
  unfold finalRecipeState. rewrite run_loop_unrolled.
  destruct (attempt ai 1 recipe); [reflexivity|]. cbv zeta.
  assert (id (secondRecipe ai recipe) = id recipe) as E
    by (unfold secondRecipe; repeat case_call; reflexivity).
  destruct (attempt ai 2 (secondRecipe ai recipe)); exact E.
Qed.

Lemma settled_nth (ai : GoogleGenAI) (recipe : Recipe) (l : list Recipe)
  (i : nat) (r : Recipe) :
  nth_error l i = Some r ->
  (id r <> id recipe -> nth_error (settled ai recipe l) i = Some r)
  /\ (id r = id recipe ->
      nth_error (settled ai recipe l) i = Some (finalRecipeState ai recipe)).
Proof.
  intros Hi. unfold settled. rewrite nth_error_map, Hi. cbn.
  destruct (same_id r recipe) eqn:E; split; intros H; try reflexivity.
  - apply same_id_true in E. contradiction.
  - apply same_id_true in H. congruence.
Qed.

(** C6, amended.  When the image loop settles for a recipe, the displayed
    and the popular collection keep their length and, position by position,
    every entry with another identifier; the saved recipes and the rest of
    the state except the advisory are untouched.  An entry with the
    recipe's identifier is replaced by the final state of the recipe that
    the loop was started with: its identifier, name, description,
    ingredients and instructions are those of that recipe, and its image
    prompt is the one of that recipe or, when the first image was rejected by
    the validator, the refined prompt. *)
Theorem settle_frame (ai : GoogleGenAI) (recipe : Recipe) (s : AppState) :
  let s' := generateAndSetImageForRecipe ai recipe s in
  let final := finalRecipeState ai recipe in
  recipes s' = option_map (settled ai recipe) (recipes s)
  /\ popularRecipes s' = settled ai recipe (popularRecipes s)
  /\ (forall l i r, nth_error l i = Some r ->
        length (settled ai recipe l) = length l
        /\ (id r <> id recipe -> nth_error (settled ai recipe l) i = Some r)
        /\ (id r = id recipe -> nth_error (settled ai recipe l) i = Some final))
  /\ savedRecipes s' = savedRecipes s
  /\ image s' = image s /\ isLoading s' = isLoading s
  /\ copyNotification s' = copyNotification s
  /\ isSavedRecipesOpen s' = isSavedRecipesOpen s
  /\ timerConfig s' = timerConfig s
  /\ selectedCuisines s' = selectedCuisines s
  /\ id final = id recipe
  /\ recipeName final = recipeName recipe
  /\ description final = description recipe
  /\ ingredients final = ingredients recipe
  /\ instructions final = instructions recipe
  /\ imagePrompt final = imagePrompt (secondRecipe ai recipe)
  /\ (imagePrompt final = imagePrompt recipe
      \/ imagePrompt final = refinedPrompt recipe
         /\ exists img, generateRecipeImage ai 1 (imagePrompt recipe) = Ok img
                        /\ validateRecipeImage ai 1 (recipeName recipe) img = Ok false).
Proof.
  cbv zeta.
  assert (Hsame : forall r, same_id r (finalRecipeState ai recipe) = same_id r recipe).
  { intros r. unfold same_id. rewrite finalRecipeState_id. reflexivity. }
  assert (Hmap : forall l,
             map (fun r => if same_id r (finalRecipeState ai recipe)
                           then finalRecipeState ai recipe else r) l
             = settled ai recipe l).
  { intros l. unfold settled. apply map_ext. intros r. rewrite Hsame. reflexivity. }
  split; [|split; [|split]].
  - unfold generateAndSetImageForRecipe.
    destruct (negb (isValid (run_loop ai recipe))); cbn;
      destruct (recipes s); cbn; rewrite ?Hmap; reflexivity.
  - unfold generateAndSetImageForRecipe.
    destruct (negb (isValid (run_loop ai recipe))); cbn; apply Hmap.
  - intros l i r Hi. split; [unfold settled; apply length_map|].
    apply settled_nth, Hi.
  - repeat match goal with
           | |- _ (generateAndSetImageForRecipe _ _ _) = _ /\ _ =>
               split; [unfold generateAndSetImageForRecipe;
                       destruct (negb (isValid (run_loop ai recipe)));
                       reflexivity|]
           end.
    split; [apply finalRecipeState_id|].
    unfold finalRecipeState; rewrite run_loop_unrolled.
    unfold attempt, secondRecipe.
    destruct (generateRecipeImage ai 1 (imagePrompt recipe)) as [img1|e1] eqn:G1;
      [destruct (validateRecipeImage ai 1 (recipeName recipe) img1) as [[|]|e1] eqn:V1|];
      cbn; repeat case_call;
      repeat (split; [reflexivity|]); eauto.
Qed.

Lemma settle_frame_witness :
  nth_error (settled ai_no_then_yes sampleRecipe [otherRecipe; sampleRecipe]) 0
  = Some otherRecipe
  /\ nth_error (settled ai_no_then_yes sampleRecipe [otherRecipe; sampleRecipe]) 1
     = Some (finalRecipeState ai_no_then_yes sampleRecipe).
Proof.
  pose proof (settle_frame ai_no_then_yes sampleRecipe initialState) as H.
  cbv zeta in H. destruct H as (_ & _ & H & _). split.
  - apply (H [otherRecipe; sampleRecipe] 0 otherRecipe eq_refl).
    vm_compute. discriminate.
  - apply (H [otherRecipe; sampleRecipe] 1 sampleRecipe eq_refl).
    reflexivity.
Defined.

(* ================================================================== *)
(** * Saving and unsaving *)
(* ================================================================== *)

(** C8, as stated, fails: unsaving a recipe and saving it again stores the
    recipe as it is displayed now, at the end of the list.  Here the saved
    copy had no image yet and the displayed one has: after two toggles the
    saved list is another list, with another entry. *)
Lemma toggle_twice_replaces_saved_entry :
  NoDup (savedIds [savedWithoutImage])
  /\ toggleSaved shownWithImage (toggleSaved shownWithImage [savedWithoutImage])
     = [shownWithImage]
  /\ [shownWithImage] <> [savedWithoutImage]
  /\ ~ (forall r, In r [shownWithImage] <-> In r [savedWithoutImage]).
Proof.
  split; [|split; [|split]].
  - repeat constructor. intros [].
  - vm_compute. reflexivity.
  - vm_compute. discriminate.
  - intros H. destruct (proj1 (H shownWithImage) (or_introl eq_refl)) as [E|[]].
    vm_compute in E. discriminate E.
Qed.

Lemma existsb_same_id (r : Recipe) (prev : list Recipe) :
  existsb (fun x => same_id x r) prev = true <-> In (id r) (savedIds prev).
Proof.
  unfold savedIds. rewrite existsb_exists, in_map_iff. split.
  - intros (x & Hx & E). apply same_id_true in E. eauto.
  - intros (x & E & Hx). exists x. split; [exact Hx|]. apply same_id_true, E.
Qed.

Lemma filter_other_ids (r : Recipe) (prev : list Recipe) :
  savedIds (filter (fun x => negb (same_id x r)) prev)
  = filter (fun i => negb (jsstring_eqb i (id r))) (savedIds prev).
Proof.
  unfold savedIds. induction prev as [|x prev IH]; cbn; [reflexivity|].
  unfold same_id at 1. destruct (jsstring_eqb (id x) (id r)); cbn; congruence.
Qed.

Lemma jsstring_eqb_true (a b : jsstring) : jsstring_eqb a b = true <-> a = b.
Proof.
  unfold jsstring_eqb. destruct (list_eq_dec N.eq_dec a b); split; congruence.
Qed.

Lemma filter_absent (r : Recipe) (prev : list Recipe) :
  ~ In (id r) (savedIds prev) ->
  filter (fun x => negb (same_id x r)) prev = prev.
Proof.
  unfold savedIds. induction prev as [|x prev IH]; cbn; [reflexivity|].
  intros Hnot. destruct (same_id x r) eqn:E; cbn.
  - apply same_id_true in E. tauto.
  - rewrite IH; tauto.
Qed.

Lemma toggleSaved_NoDup (r : Recipe) (prev : list Recipe) :
  NoDup (savedIds prev) -> NoDup (savedIds (toggleSaved r prev)).
Proof.
  intros Hnd. unfold toggleSaved.
  destruct (existsb (fun x => same_id x r) prev) eqn:E.
  - rewrite filter_other_ids. apply NoDup_filter, Hnd.
  - unfold savedIds. rewrite map_app. cbn.
    apply NoDup_app; [exact Hnd|repeat constructor; intros []|].
    intros i Hi [<-|[]].
    apply existsb_same_id in Hi. congruence.
Qed.

Lemma toggleAll_NoDup (toggles saved : list Recipe) :
  NoDup (savedIds saved) -> NoDup (savedIds (toggleAll toggles saved)).
Proof.
  unfold toggleAll. revert saved.
  induction toggles as [|r toggles IH]; intros saved Hnd; cbn; [exact Hnd|].
  apply IH, toggleSaved_NoDup, Hnd.
Qed.

Lemma toggleSaved_twice (r : Recipe) (prev : list Recipe) :
  toggleSaved r (toggleSaved r prev)
  = if existsb (fun x => same_id x r) prev
    then filter (fun x => negb (same_id x r)) prev ++ [r]
    else prev.
Proof.
  unfold toggleSaved at 2.
  destruct (existsb (fun x => same_id x r) prev) eqn:E.
  - unfold toggleSaved.
    replace (existsb (fun x => same_id x r) (filter _ prev)) with false;
      [reflexivity|].
    symmetry. apply not_true_is_false. intros H.
    apply existsb_exists in H as (x & Hx & Hid).
    apply filter_In in Hx as [_ Hx]. rewrite Hid in Hx. discriminate.
  - unfold toggleSaved. rewrite existsb_app. cbn.
    assert (same_id r r = true) as -> by (apply same_id_true; reflexivity).
    rewrite orb_true_r, filter_app. cbn.
    assert (same_id r r = true) as -> by (apply same_id_true; reflexivity).
    cbn. rewrite app_nil_r. apply filter_absent.
    intros Hin. apply existsb_same_id in Hin. congruence.
Qed.

(** C8, amended.  From a saved list without duplicate identifiers:
    toggling a recipe twice gives the list back unchanged when its identifier
    was not saved; when it was, the entry with that identifier is removed and
    the toggled recipe is appended in its place, so the saved identifiers are
    the same as before and the recipe is still saved.  After any sequence of
    toggles the saved list has no two entries with the same identifier. *)
Theorem toggle_twice_and_no_duplicates (r : Recipe) (saved : list Recipe) :
  NoDup (savedIds saved) ->
  (~ In (id r) (savedIds saved) ->
     toggleSaved r (toggleSaved r saved) = saved)
  /\ (In (id r) (savedIds saved) ->
        toggleSaved r (toggleSaved r saved)
        = filter (fun x => negb (same_id x r)) saved ++ [r])
  /\ (forall i, In i (savedIds (toggleSaved r (toggleSaved r saved)))
                <-> In i (savedIds saved))
  /\ (forall toggles, NoDup (savedIds (toggleAll toggles saved))).
Proof.
  intros Hnd. rewrite toggleSaved_twice.
  destruct (existsb (fun x => same_id x r) saved) eqn:E.
  - assert (In (id r) (savedIds saved)) as Hin by (apply existsb_same_id, E).
    split; [tauto|]. split; [reflexivity|]. split.
    + intros i. unfold savedIds at 1. rewrite map_app, in_app_iff.
      fold (savedIds (filter (fun x => negb (same_id x r)) saved)).
      rewrite filter_other_ids, filter_In. cbn. split.
      * intros [[Hi _]|[<-|[]]]; assumption.
      * intros Hi. destruct (jsstring_eqb i (id r)) eqn:Ei.
        -- apply jsstring_eqb_true in Ei. auto.
        -- left. split; [exact Hi|reflexivity].
    + intros toggles. apply toggleAll_NoDup, Hnd.
  - assert (~ In (id r) (savedIds saved)) as Hout
      by (intros Hin; apply existsb_same_id in Hin; congruence).
    split; [reflexivity|]. split; [tauto|]. split; [tauto|].
    intros toggles. apply toggleAll_NoDup, Hnd.
Qed.

Lemma toggle_twice_and_no_duplicates_witness :
  toggleSaved otherRecipe (toggleSaved otherRecipe [sampleRecipe]) = [sampleRecipe]
  /\ toggleSaved shownWithImage (toggleSaved shownWithImage [savedWithoutImage; otherRecipe])
     = [otherRecipe; shownWithImage]
  /\ NoDup (savedIds (toggleAll [otherRecipe; shownWithImage; otherRecipe] [sampleRecipe])).
Proof.
  split; [|split].
  - apply (toggle_twice_and_no_duplicates otherRecipe [sampleRecipe]).
    + repeat constructor. intros [].
    + vm_compute. intros [E|[]]. discriminate E.
  - apply (proj1 (proj2 (toggle_twice_and_no_duplicates shownWithImage
                           [savedWithoutImage; otherRecipe]
                           ltac:(repeat constructor; vm_compute;
                                 intros H; repeat destruct H as [H|H];
                                 try discriminate H; exact H)))).
    vm_compute. left. reflexivity.
  - apply (toggle_twice_and_no_duplicates otherRecipe [sampleRecipe]).
    repeat constructor. intros [].
Defined.

(* ================================================================== *)
(** * Load more, without an image *)
(* ================================================================== *)

(** C10.  When "load more" is started with no image and the current
    advisory is not the not-food one, the handler sets the loading flag,
    clears the advisory and the displayed recipes, and returns: it sends no
    request, starts no image loop, and leaves the loading flag set. *)
Theorem load_more_without_image_stalls
  (ai : GoogleGenAI) (pf : Platform) (s : AppState) (n : nat) :
  truthy (image s) = false ->
  match error s with
  | Some e => includes e (js "This doesn't appear to be food")
  | None => false
  end = false ->
  let out := handleLoadMoreRecipes ai pf s n in
  isLoading (state out) = true
  /\ recipes (state out) = None
  /\ error (state out) = None
  /\ fetched out = []
  /\ dispatched out = []
  /\ uuids out = n
  /\ state out = setRecipes None (setError None (setIsLoading true s)).
Proof.
  intros Himage Hfallback. cbv zeta. unfold handleLoadMoreRecipes.
  rewrite Hfallback.
  destruct (image s) as [[|c image']|]; try discriminate Himage;
    repeat split; reflexivity.
Qed.

Lemma load_more_without_image_stalls_witness :
  isLoading (state (handleLoadMoreRecipes ai_always_yes samplePlatform sampleShown 0)) = true
  /\ recipes (state (handleLoadMoreRecipes ai_always_yes samplePlatform sampleShown 0)) = None
  /\ error (state (handleLoadMoreRecipes ai_always_yes samplePlatform sampleShown 0)) = None
  /\ fetched (handleLoadMoreRecipes ai_always_yes samplePlatform sampleShown 0) = [].
Proof.
  destruct (load_more_without_image_stalls ai_always_yes samplePlatform sampleShown 0)
    as (H1 & H2 & H3 & H4 & _).
  - reflexivity.
  - vm_compute. reflexivity.
  - repeat split; assumption.
Defined.

(* ================================================================== *)
(** * Shareable links *)
(* ================================================================== *)

(** C9 fails on the code.  A recipe whose name has a character beyond
    Latin-1 gets no link at all: [btoa] throws on its JSON text.  A recipe
    whose JSON text encodes to base64 with a [+] gets a link that does not
    decode: the query string turns the [+] into a space and [atob] throws.
    Neither depends on the JSON parser.  A plain recipe does come back as
    the JSON text it was serialized to. *)
Theorem share_link_round_trip_breaks (pf : Platform) (origin pathname : jsstring) :
  generateShareableLink origin pathname phoRecipe = Throw InvalidCharacterError
  /\ shareRoundTrip pf phoRecipe = Throw InvalidCharacterError
  /\ (exists encoded, shareParameter tildeRecipe = Ok encoded /\ In 43%N encoded)
  /\ shareRoundTrip pf tildeRecipe = Throw InvalidCharacterError
  /\ shareRoundTrip pf sampleRecipe
     = JSON_parse_recipe pf (JSON_stringify sampleRecipe).
Proof.
  split; [reflexivity|]. split; [reflexivity|]. split.
  - eexists. split; [vm_compute; reflexivity|]. vm_compute. tauto.
  - split.
    + unfold shareRoundTrip, decodeShared.
      replace (shareParameter tildeRecipe)
        with (Ok (base64_encode (JSON_stringify tildeRecipe)))
        by (vm_compute; reflexivity).
      cbn [bind].
      replace (atob (searchParams_value (base64_encode (JSON_stringify tildeRecipe))))
        with (@Throw jsstring InvalidCharacterError) by (vm_compute; reflexivity).
      reflexivity.
    + unfold shareRoundTrip, decodeShared.
      replace (shareParameter sampleRecipe)
        with (Ok (base64_encode (JSON_stringify sampleRecipe)))
        by (vm_compute; reflexivity).
      cbn [bind].
      replace (atob (searchParams_value (base64_encode (JSON_stringify sampleRecipe))))
        with (Ok (JSON_stringify sampleRecipe)) by (vm_compute; reflexivity).
      reflexivity.
Qed.

(* ================================================================== *)
(** * The instruction time parser *)
(* ================================================================== *)

(** ** What the matcher computes *)

Lemma star_sound (p : N -> bool) (s : jsstring) (caps : captures) (k : cont)
  (x : captures) :
  star p s caps k = Some x ->
  exists w s', s = w ++ s' /\ Forall (fun c => p c = true) w /\ k s' caps = Some x.
Proof.
  induction s as [|c s IH]; cbn.
  - intros H. exists [], []. auto.
  - destruct (p c) eqn:Hc.
    + destruct (star p s caps k) as [r|] eqn:E.
      * intros [= ->]. destruct (IH eq_refl) as (w & s' & -> & Hw & Hk).
        exists (c :: w), s'. auto.
      * intros H. exists [], (c :: s). auto.
    + intros H. exists [], (c :: s). auto.
Qed.

Lemma star_complete (p : N -> bool) (w s : jsstring) (caps : captures) (k : cont) :
  Forall (fun c => p c = true) w ->
  k s caps <> None -> star p (w ++ s) caps k <> None.
Proof.
  intros Hw Hk. induction Hw as [|c w Hc Hw IH]; cbn.
  - destruct s as [|c s]; cbn; [exact Hk|].
    destruct (p c); [|exact Hk].
    destruct (star p s caps k); [discriminate|exact Hk].
  - rewrite Hc. destruct (star p (w ++ s) caps k); [discriminate|contradiction].
Qed.

(** The matcher finds only matches ... *)
Lemma m_sound (r : regex) :
  forall s caps k x,
    m r s caps k = Some x ->
    exists s' caps', matches r s caps s' caps' /\ k s' caps' = Some x.
Proof.
  induction r as [|c|p|p|p|a IHa b IHb|a IHa b IHb|a IHa|n a IHa];
    intros s caps k x; cbn.
  - intros H. exists s, caps. split; [constructor|exact H].
  - destruct s as [|ch s]; [discriminate|].
    destruct (canonicalize ch =? canonicalize c)%N eqn:E; [|discriminate].
    intros H. exists s, caps. split; [|exact H].
    constructor. apply N.eqb_eq, E.
  - destruct s as [|ch s]; [discriminate|].
    destruct (p ch) eqn:E; [|discriminate].
    intros H. exists s, caps. split; [constructor; exact E|exact H].
  - intros H. apply star_sound in H as (w & s' & -> & Hw & Hk).
    exists s', caps. split; [constructor; exact Hw|exact Hk].
  - destruct s as [|ch s]; [discriminate|].
    destruct (p ch) eqn:E; [|discriminate].
    intros H. apply star_sound in H as (w & s' & -> & Hw & Hk).
    exists s', caps. split; [|exact Hk].
    apply (M_Plus p (w := ch :: w)); [discriminate|constructor; assumption].
  - intros H. apply IHa in H as (s1 & caps1 & Ha & H).
    apply IHb in H as (s2 & caps2 & Hb & H).
    exists s2, caps2. split; [econstructor; eassumption|exact H].
  - destruct (m a s caps k) as [y|] eqn:E.
    + intros [= ->]. apply IHa in E as (s' & caps' & Ha & H).
      exists s', caps'. split; [apply M_AltL, Ha|exact H].
    + intros H. apply IHb in H as (s' & caps' & Hb & H).
      exists s', caps'. split; [apply M_AltR, Hb|exact H].
  - destruct (m a s caps k) as [y|] eqn:E.
    + intros [= ->]. apply IHa in E as (s' & caps' & Ha & H).
      exists s', caps'. split; [apply M_OptSome, Ha|exact H].
    + intros H. exists s, caps. split; [apply M_OptNone|exact H].
  - intros H. apply IHa in H as (s' & caps' & Ha & H).
    eexists s', _. split; [apply M_Group, Ha|exact H].
Qed.

(** ... and finds one whenever there is one that the continuation
    accepts. *)
Lemma m_complete (r : regex) (s : jsstring) (caps : captures) (s' : jsstring)
  (caps' : captures) :
  matches r s caps s' caps' ->
  forall k, k s' caps' <> None -> m r s caps k <> None.
Proof.
  induction 1 as [s caps|c ch s caps Hc|p ch s caps Hp|p w s caps Hw
                 |p w s caps Hne Hw|a b s caps s1 caps1 s2 caps2 _ IHa _ IHb
                 |a b s caps s' caps' _ IH|a b s caps s' caps' _ IH
                 |a s caps s' caps' _ IH|a s caps|n a s caps s' caps' _ IH];
    intros k Hk; cbn.
  - exact Hk.
  - rewrite Hc, N.eqb_refl. exact Hk.
  - rewrite Hp. exact Hk.
  - apply star_complete; assumption.
  - destruct Hw as [|ch w Hch Hw]; [contradiction|]. cbn. rewrite Hch.
    apply star_complete; assumption.
  - apply IHa. apply IHb. exact Hk.
  - specialize (IH k Hk). destruct (m a s caps k); [discriminate|contradiction].
  - destruct (m a s caps k); [discriminate|]. apply IH, Hk.
  - specialize (IH k Hk). destruct (m a s caps k); [discriminate|contradiction].
  - destruct (m a s caps k); [discriminate|exact Hk].
  - apply IH. exact Hk.
Qed.

(** [str_match] returns the match at the first position that has one. *)
Lemma str_match_some (r : regex) (s : jsstring) (caps : captures) :
  str_match r s = Some caps ->
  exists pre suf,
    s = pre ++ suf
    /\ m r suf [] (fun _ c => Some c) = Some caps
    /\ forall pre' suf', s = pre' ++ suf' -> length pre' < length pre ->
                         m r suf' [] (fun _ c => Some c) = None.
Proof.
  induction s as [|c s IH]; cbn.
  - destruct (m r [] [] _) as [y|] eqn:E; [|discriminate].
    intros [= ->]. exists [], []. repeat split; auto. cbn. intros; lia.
  - destruct (m r (c :: s) [] _) as [y|] eqn:E.
    + intros [= ->]. exists [], (c :: s). repeat split; auto. cbn. intros; lia.
    + intros H. destruct (IH H) as (pre & suf & -> & Hm & Hfirst).
      exists (c :: pre), suf. repeat split; auto.
      intros pre' suf' Heq Hlen. destruct pre' as [|c' pre'].
      * cbn in Heq. subst suf'. exact E.
      * cbn in Heq. injection Heq as <- Heq. apply (Hfirst pre' suf' Heq).
        cbn in Hlen. lia.
Qed.

Lemma str_match_none (r : regex) (s : jsstring) :
  str_match r s = None ->
  forall pre suf, s = pre ++ suf -> m r suf [] (fun _ c => Some c) = None.
Proof.
  induction s as [|c s IH]; cbn.
  - destruct (m r [] [] _) as [y|] eqn:E; [discriminate|].
    intros _ pre suf Heq. symmetry in Heq. apply app_eq_nil in Heq as [-> ->].
    exact E.
  - destruct (m r (c :: s) [] _) as [y|] eqn:E; [discriminate|].
    intros H pre suf Heq. destruct pre as [|c' pre].
    + cbn in Heq. subst suf. exact E.
    + cbn in Heq. injection Heq as <- Heq. apply (IH H pre suf Heq).
Qed.

(** ** Inversion of [matches] *)

Lemma matches_Seq_inv a b s caps s2 caps2 :
  matches (Seq a b) s caps s2 caps2 ->
  exists s1 caps1, matches a s caps s1 caps1 /\ matches b s1 caps1 s2 caps2.
Proof. inversion 1; subst; eauto. Qed.

Lemma matches_Alt_inv a b s caps s' caps' :
  matches (Alt a b) s caps s' caps' ->
  matches a s caps s' caps' \/ matches b s caps s' caps'.
Proof. inversion 1; subst; auto. Qed.

Lemma matches_Opt_inv a s caps s' caps' :
  matches (Opt a) s caps s' caps' ->
  matches a s caps s' caps' \/ (s' = s /\ caps' = caps).
Proof. inversion 1; subst; auto. Qed.

Lemma matches_Star_inv p s caps s' caps' :
  matches (Star p) s caps s' caps' ->
  exists w, s = w ++ s' /\ caps' = caps /\ Forall (fun x => p x = true) w.
Proof. inversion 1; subst; eauto. Qed.

Lemma matches_Plus_inv p s caps s' caps' :
  matches (Plus p) s caps s' caps' ->
  exists w, s = w ++ s' /\ caps' = caps /\ w <> []
            /\ Forall (fun x => p x = true) w.
Proof. inversion 1; subst; eauto. Qed.

Lemma matches_Group_inv n a s caps s' caps' :
  matches (Group n a) s caps s' caps' ->
  exists caps0,
    matches a s caps s' caps0
    /\ caps' = (n, firstn (length s - length s') s) :: caps0.
Proof. inversion 1; subst; eauto. Qed.

Lemma firstn_consumed (w s' : jsstring) :
  firstn (length (w ++ s') - length s') (w ++ s') = w.
Proof.
  rewrite length_app, Nat.add_sub, firstn_app, Nat.sub_diag, firstn_all.
  cbn. apply app_nil_r.
Qed.

Lemma matches_lit (pattern : jsstring) :
  forall s caps s' caps',
    matches (lit pattern) s caps s' caps' <->
    exists w, s = w ++ s' /\ caps' = caps /\ ci_word pattern w.
Proof.
  induction pattern as [|c pattern IH]; intros s caps s' caps'.
  - cbn. split.
    + inversion 1; subst. exists []. repeat split. constructor.
    + intros (w & -> & -> & Hw). inversion Hw; subst. constructor.
  - destruct pattern as [|c2 pattern].
    + cbn. split.
      * inversion 1; subst. exists [ch]. repeat split.
        constructor; [assumption|constructor].
      * intros (w & -> & -> & Hw). inversion Hw as [|ch c' w' p' Hc Hw']; subst.
        inversion Hw'; subst. constructor. exact Hc.
    + change (lit (c :: c2 :: pattern)) with (Seq (Chr c) (lit (c2 :: pattern))).
      split.
      * intros H. apply matches_Seq_inv in H as (s1 & caps1 & Hc & Hrest).
        inversion Hc; subst. apply IH in Hrest as (w & -> & -> & Hw).
        exists (ch :: w). repeat split. constructor; assumption.
      * intros (w & -> & -> & Hw). inversion Hw as [|ch c' w' p' Hc Hw']; subst.
        cbn. eapply M_Seq; [constructor; exact Hc|].
        apply IH. exists w'. auto.
Qed.

(** A match of [timeRegex] is a phrase, and its groups 2 and 3 hold the
    second number and the unit. *)
Lemma timeRegex_sound (s s' : jsstring) (caps : captures) :
  matches timeRegex s [] s' caps ->
  exists head amount b uw,
    s = (head ++ amount ++ b ++ uw) ++ s'
    /\ (head = [] \/ range_prefix head)
    /\ digits amount /\ blanks b
    /\ (unit_word Minutes uw \/ unit_word Hours uw)
    /\ capture 2 caps = Some amount
    /\ capture 3 caps = Some uw.
Proof.
  unfold timeRegex. intros H.
  apply matches_Seq_inv in H as (s1 & caps1 & Hhead & H).
  apply matches_Seq_inv in H as (s2 & caps2 & Hamount & H).
  apply matches_Seq_inv in H as (s3 & caps3 & Hb & Hunit).
  apply matches_Group_inv in Hamount as (c0 & Hamount & ->).
  apply matches_Plus_inv in Hamount as (amount & -> & -> & Hne & Hdig).
  apply matches_Star_inv in Hb as (b & -> & -> & Hb).
  apply matches_Group_inv in Hunit as (c0 & Hunit & ->).
  assert (Huw : exists uw, s3 = uw ++ s' /\ c0 = (2, firstn (length (amount ++ b ++ s3) - length (b ++ s3)) (amount ++ b ++ s3)) :: caps1
                           /\ (unit_word Minutes uw \/ unit_word Hours uw)).
  { apply matches_Alt_inv in Hunit as [Hu|Hunit];
      [|apply matches_Alt_inv in Hunit as [Hu|Hunit];
        [|apply matches_Alt_inv in Hunit as [Hu|Hu]]];
      apply matches_lit in Hu as (uw & -> & -> & Hu); exists uw;
      repeat split; cbn; auto. }
  destruct Huw as (uw & -> & -> & Hu).
  rewrite (firstn_consumed amount (b ++ uw ++ s')), (firstn_consumed uw s').
  assert (Hh : exists head, s = head ++ amount ++ b ++ uw ++ s'
                            /\ (head = [] \/ range_prefix head)).
  { apply matches_Opt_inv in Hhead as [Hhead|[<- ->]];
      [|exists []; split; [reflexivity|left; reflexivity]].
    apply matches_Seq_inv in Hhead as (sa & ca & Hd1 & Hhead).
    apply matches_Seq_inv in Hhead as (sb & cb & Hb1 & Hhead).
    apply matches_Seq_inv in Hhead as (sc & cc & Hto & Hb2).
    apply matches_Group_inv in Hd1 as (c1 & Hd1 & ->).
    apply matches_Plus_inv in Hd1 as (d1 & -> & -> & Hne1 & Hd1).
    apply matches_Star_inv in Hb1 as (b1 & -> & -> & Hb1).
    apply matches_lit in Hto as (t & -> & -> & Hto).
    apply matches_Star_inv in Hb2 as (b2 & -> & -> & Hb2).
    exists (d1 ++ b1 ++ t ++ b2). split.
    - rewrite <- !app_assoc. reflexivity.
    - right. exists d1, b1, t, b2. repeat split; assumption. }
  destruct Hh as (head & -> & Hrange).
  exists head, amount, b, uw. repeat split; auto.
  rewrite <- !app_assoc. reflexivity.
Qed.

(** Every phrase is a match of [timeRegex]. *)
Lemma timeRegex_complete (w amount : jsstring) (u : unit_kind) (rest : jsstring) :
  phrase w amount u -> exists caps, matches timeRegex (w ++ rest) [] rest caps.
Proof.
  intros (head & b & uw & -> & Hhead & [Hne Hdig] & Hb & Hu).
  assert (Hunit : forall caps,
             matches (Alt (lit (js "minute")) (Alt (lit (js "minutes"))
                     (Alt (lit (js "hour")) (lit (js "hours")))))
               (uw ++ rest) caps rest caps).
  { intros caps. destruct u; destruct Hu as [Hu|Hu].
    - apply M_AltL, matches_lit. eauto.
    - apply M_AltR, M_AltL, matches_lit. eauto.
    - apply M_AltR, M_AltR, M_AltL, matches_lit. eauto.
    - apply M_AltR, M_AltR, M_AltR, matches_lit. eauto. }
  assert (Htail : forall caps, exists caps',
             matches (Seq (Group 2 (Plus is_digit))
                     (Seq (Star is_space)
                          (Group 3 (Alt (lit (js "minute")) (Alt (lit (js "minutes"))
                                   (Alt (lit (js "hour")) (lit (js "hours"))))))))
               (amount ++ b ++ uw ++ rest) caps rest caps').
  { intros caps. eexists. eapply M_Seq.
    - apply M_Group. apply M_Plus; eassumption.
    - eapply M_Seq; [apply M_Star; exact Hb|]. apply M_Group, Hunit. }
  unfold timeRegex. rewrite <- !app_assoc.
  destruct Hhead as [->|(d1 & b1 & t & b2 & -> & [Hne1 Hd1] & Hb1 & Hto & Hb2)].
  - destruct (Htail []) as (caps' & Ht). exists caps'. cbn.
    eapply M_Seq; [apply M_OptNone|exact Ht].
  - rewrite <- !app_assoc.
    destruct (Htail [(1, firstn (length (d1 ++ b1 ++ t ++ b2 ++ amount ++ b ++ uw ++ rest)
                                 - length (b1 ++ t ++ b2 ++ amount ++ b ++ uw ++ rest))
                          (d1 ++ b1 ++ t ++ b2 ++ amount ++ b ++ uw ++ rest))])
      as (caps' & Ht).
    exists caps'. eapply M_Seq; [|exact Ht].
    apply M_OptSome. eapply M_Seq.
    + apply M_Group. apply M_Plus; eassumption.
    + eapply M_Seq; [apply M_Star; exact Hb1|].
      eapply M_Seq; [apply matches_lit; eauto|]. apply M_Star. exact Hb2.
Qed.

(** ** Characters *)

Ltac case_cmp a b :=
  let E := fresh "E" in
  destruct (a <=? b)%N eqn:E; [apply N.leb_le in E|apply N.leb_gt in E].

Ltac case_eq_N a b :=
  let E := fresh "E" in
  destruct (a =? b)%N eqn:E; [apply N.eqb_eq in E|apply N.eqb_neq in E].

Ltac by_ranges :=
  unfold is_digit, is_space, lower, canonicalize in *; unfold in_range in *;
  repeat (match goal with
          | H : context [(?a <=? ?b)%N] |- _ => case_cmp a b
          | H : context [(?a =? ?b)%N] |- _ => case_eq_N a b
          | |- context [(?a <=? ?b)%N] => case_cmp a b
          | |- context [(?a =? ?b)%N] => case_eq_N a b
          end; cbn in *; try discriminate; try lia);
  try reflexivity; try lia.

Lemma digit_not_space (c : N) : is_digit c = true -> is_space c = false.
Proof. intros H. by_ranges. Qed.

Lemma digit_not_sign (c : N) :
  is_digit c = true -> (c =? 45)%N = false /\ (c =? 43)%N = false.
Proof. intros H. split; by_ranges. Qed.

Lemma lower_canon (ch c : N) :
  in_range 97 122 c = true -> canonicalize ch = canonicalize c -> lower ch = c.
Proof. intros Hc H. by_ranges. Qed.

Lemma canon_letter (ch c : N) :
  in_range 97 122 c = true -> canonicalize ch = canonicalize c ->
  is_digit ch = false /\ is_space ch = false.
Proof. intros Hc H. split; by_ranges. Qed.

Lemma takeWhile_all (p : N -> bool) (w : jsstring) :
  Forall (fun c => p c = true) w -> takeWhile p w = w.
Proof.
  induction 1 as [|c w Hc Hw IH]; cbn; [reflexivity|]. rewrite Hc, IH. reflexivity.
Qed.

(** On a run of digits [parseInt] reads the whole run. *)
Lemma parseInt10_digits (w : jsstring) :
  digits w -> parseInt10 w = to_double (digits_value w).
Proof.
  intros [Hne Hw]. destruct Hw as [|c w Hc Hw]; [contradiction|].
  unfold parseInt10, trimStart. cbn [dropWhile].
  rewrite (digit_not_space c Hc).
  destruct (digit_not_sign c Hc) as [-> ->].
  rewrite (takeWhile_all is_digit (w := c :: w)) by (constructor; assumption).
  f_equal. apply Z.mul_1_l.
Qed.

(** Up to 2^53 every integer is a double. *)
Lemma to_double_exact (z : Z) :
  (Z.abs z <= 2 ^ 53)%Z -> to_double z = Num z.
Proof.
  intros H. unfold to_double. cbv zeta.
  destruct (Z.ltb_spec (Z.abs z) (2 ^ 53)) as [Hlt|Hge]; [reflexivity|].
  assert (Hz : z = (2 ^ 53)%Z \/ z = (- 2 ^ 53)%Z) by lia.
  destruct Hz as [-> | ->]; vm_compute; reflexivity.
Qed.

Lemma digits_value_from (w : jsstring) (acc : Z) :
  Forall (fun c => is_digit c = true) w -> (0 <= acc)%Z ->
  (0 <= fold_left (fun a d => (a * 10 + (Z.of_N d - 48))%Z) w acc)%Z.
Proof.
  intros Hw. revert acc.
  induction Hw as [|c w Hc Hw IH]; intros acc Hacc; cbn [fold_left];
    [exact Hacc|].
  apply IH. unfold is_digit, in_range in Hc.
  apply andb_prop in Hc as [H1 H2].
  apply N.leb_le in H1. lia.
Qed.

Lemma digits_value_nonneg (w : jsstring) :
  digits w -> (0 <= digits_value w)%Z.
Proof.
  intros [_ Hw]. unfold digits_value. apply digits_value_from; [exact Hw|lia].
Qed.

(** Where the product is exact the doubles give the seconds. *)
Lemma rounded_seconds_exact (amount : jsstring) (u : unit_kind) :
  digits amount -> exact_seconds amount u ->
  rounded_seconds amount u = seconds amount u.
Proof.
  intros Ha Hex. pose proof (digits_value_nonneg Ha) as Hpos.
  unfold exact_seconds in Hex. unfold rounded_seconds, seconds.
  rewrite (@to_double_exact (digits_value amount)) by (destruct u; lia).
  cbn [mul]. apply to_double_exact. destruct u; lia.
Qed.

Lemma ci_word_lower (pattern w : jsstring) :
  lowercase pattern -> ci_word pattern w -> toLowerCase w = pattern.
Proof.
  intros Hp Hw. unfold toLowerCase.
  induction Hw as [|ch c w pattern Hc Hw IH]; cbn; [reflexivity|].
  inversion Hp; subst. rewrite IH by assumption.
  f_equal. apply lower_canon; assumption.
Qed.

Lemma lowercase_js_words :
  lowercase (js "minute") /\ lowercase (js "minutes")
  /\ lowercase (js "hour") /\ lowercase (js "hours") /\ lowercase (js "to").
Proof. repeat split; repeat constructor. Qed.

Lemma unit_word_starts (u : unit_kind) (uw : jsstring) :
  unit_word u uw ->
  startsWith (toLowerCase uw) (js "hour")
  = match u with Hours => true | Minutes => false end.
Proof.
  destruct lowercase_js_words as (H1 & H2 & H3 & H4 & _).
  destruct u; intros [H|H]; apply ci_word_lower in H; try assumption;
    rewrite H; reflexivity.
Qed.

(** ** The first letter of the words, and where a run ends *)

Lemma ci_word_begins (pattern w : jsstring) (c : N) (rest : jsstring) :
  pattern = c :: rest -> ci_word pattern w -> begins (canonicalize c) w.
Proof.
  intros -> H. inversion H; subst. eexists _, _. split; [reflexivity|assumption].
Qed.

Lemma unit_word_begins (u : unit_kind) (uw : jsstring) :
  unit_word u uw -> begins match u with Minutes => 77 | Hours => 72 end%N uw.
Proof.
  destruct u; intros [H|H];
    eapply (ci_word_begins (w := uw)) in H; try reflexivity; exact H.
Qed.

Lemma run_unique (p : N -> bool) (x x' y y' : jsstring) :
  Forall (fun c => p c = true) x -> Forall (fun c => p c = true) x' ->
  ends_run p y -> ends_run p y' ->
  x ++ y = x' ++ y' -> x = x' /\ y = y'.
Proof.
  intros Hx. revert x'. induction Hx as [|c x Hc Hx IH]; intros x' Hx' Hy Hy' E.
  - destruct Hx' as [|c' x' Hc' Hx']; [auto|].
    destruct Hy as (c & y0 & -> & Hc). cbn in E. injection E as -> _. congruence.
  - destruct Hx' as [|c' x' Hc' Hx'].
    + destruct Hy' as (c' & y0 & -> & Hc'). cbn in E. injection E as -> _. congruence.
    + cbn in E. injection E as <- E. destruct (IH x' Hx' Hy Hy' E) as [-> ->]. auto.
Qed.

Lemma begins_ends_run (k : N) (p : N -> bool) (w rest : jsstring) :
  (forall ch, canonicalize ch = k -> p ch = false) ->
  begins k w -> ends_run p (w ++ rest).
Proof.
  intros Hk (ch & w' & -> & Hch). exists ch, (w' ++ rest). split; [reflexivity|auto].
Qed.

Lemma blanks_then (p : N -> bool) (b y : jsstring) :
  (forall c, is_space c = true -> p c = false) ->
  blanks b -> ends_run p y -> ends_run p (b ++ y).
Proof.
  intros Hsp Hb Hy. destruct Hb as [|c b Hc Hb]; [exact Hy|].
  exists c, (b ++ y). split; [reflexivity|auto].
Qed.

Lemma space_not_digit (c : N) : is_space c = true -> is_digit c = false.
Proof.
  intros H. destruct (is_digit c) eqn:E; [|reflexivity].
  apply digit_not_space in E. congruence.
Qed.

Lemma letter_not_digit (k ch : N) :
  in_range 65 90 k = true -> canonicalize ch = k -> is_digit ch = false.
Proof. intros Hk H. by_ranges. Qed.

Lemma letter_not_space (k ch : N) :
  in_range 65 90 k = true -> canonicalize ch = k -> is_space ch = false.
Proof. intros Hk H. by_ranges. Qed.

Lemma digits_ends_blank_run (amount y : jsstring) :
  digits amount -> ends_run is_space (amount ++ y).
Proof.
  intros [Hne Hd]. destruct Hd as [|c w Hc Hw]; [contradiction|].
  exists c, (w ++ y). split; [reflexivity|apply digit_not_space, Hc].
Qed.

Lemma app_eq_length {A} (l1 l1' l2 l2' : list A) :
  l1 ++ l2 = l1' ++ l2' -> length l1 = length l1' -> l1 = l1' /\ l2 = l2'.
Proof.
  revert l1'. induction l1 as [|a l1 IH]; intros [|a' l1'] E L;
    try discriminate L; cbn in *; [auto|].
  injection E as <- E. injection L as L. destruct (IH l1' E L) as [-> ->]. auto.
Qed.

(** The tail of a phrase, from its second number on, is read in one way
    only. *)
Lemma tail_unique (amount b uw rest amount' b' uw' rest' : jsstring)
  (u u' : unit_kind) :
  digits amount -> blanks b -> unit_word u uw ->
  digits amount' -> blanks b' -> unit_word u' uw' ->
  amount ++ b ++ uw ++ rest = amount' ++ b' ++ uw' ++ rest' ->
  amount = amount' /\ u = u'.
Proof.
  intros Ha Hb Hu Ha' Hb' Hu' E.
  apply unit_word_begins in Hu, Hu'.
  assert (forall v w r, begins match v with Minutes => 77 | Hours => 72 end%N w ->
                        ends_run is_space (w ++ r)) as Hsp.
  { intros v w r Hw. eapply begins_ends_run; [|exact Hw].
    intros ch Hch. eapply letter_not_space; [|exact Hch]. destruct v; reflexivity. }
  assert (forall v w r bb, blanks bb ->
                        begins match v with Minutes => 77 | Hours => 72 end%N w ->
                        ends_run is_digit (bb ++ w ++ r)) as Hdg.
  { intros v w r bb Hbb Hw. apply blanks_then; [apply space_not_digit|exact Hbb|].
    eapply begins_ends_run; [|exact Hw].
    intros ch Hch. eapply letter_not_digit; [|exact Hch]. destruct v; reflexivity. }
  destruct Ha as [_ Ha], Ha' as [_ Ha'].
  destruct (@run_unique is_digit _ _ _ _ Ha Ha' (Hdg u uw rest b Hb Hu)
              (Hdg u' uw' rest' b' Hb' Hu') E) as [-> E1].
  split; [reflexivity|].
  destruct (@run_unique is_space _ _ _ _ Hb Hb' (Hsp u uw rest Hu) (Hsp u' uw' rest' Hu') E1)
    as [_ E2].
  destruct Hu as (c & w & -> & Hc), Hu' as (c' & w' & -> & Hc').
  cbn in E2. injection E2 as <- _.
  destruct u, u'; try reflexivity; rewrite Hc in Hc'; discriminate Hc'.
Qed.

Lemma phrase_unique (w rest w' rest' amount amount' : jsstring) (u u' : unit_kind) :
  phrase w amount u -> phrase w' amount' u' ->
  w ++ rest = w' ++ rest' -> amount = amount' /\ u = u'.
Proof.
  intros (head & b & uw & -> & Hhead & Ha & Hb & Hu)
         (head' & b' & uw' & -> & Hhead' & Ha' & Hb' & Hu') E.
  rewrite <- !app_assoc in E.
  assert (Hto : forall t r, ci_word (js "to") t ->
                  ends_run is_space (t ++ r) /\ ends_run is_digit (t ++ r)
                  /\ begins 84%N t /\ length t = 2).
  { intros t r Ht. pose proof Ht as Hlen. apply Forall2_length in Hlen.
    eapply (ci_word_begins (w := t)) in Ht; [|reflexivity].
    repeat split; [| |exact Ht|exact Hlen].
    - eapply begins_ends_run; [|exact Ht].
      intros ch Hch. eapply letter_not_space; [|exact Hch]. reflexivity.
    - eapply begins_ends_run; [|exact Ht].
      intros ch Hch. eapply letter_not_digit; [|exact Hch]. reflexivity. }
  assert (Hunit : forall v x r bb, blanks bb -> unit_word v x ->
                    ends_run is_digit (bb ++ x ++ r) /\ ends_run is_space (x ++ r)).
  { intros v x r bb Hbb Hx. apply unit_word_begins in Hx. split.
    - apply blanks_then; [apply space_not_digit|exact Hbb|].
      eapply begins_ends_run; [|exact Hx].
      intros ch Hch. eapply letter_not_digit; [|exact Hch]. destruct v; reflexivity.
    - eapply begins_ends_run; [|exact Hx].
      intros ch Hch. eapply letter_not_space; [|exact Hch]. destruct v; reflexivity. }
  destruct Hhead as [->|(d1 & b1 & t & b2 & -> & Hd1 & Hb1 & Ht & Hb2)];
    destruct Hhead' as [->|(d1' & b1' & t' & b2' & -> & Hd1' & Hb1' & Ht' & Hb2')];
    cbn [app] in E; rewrite <- ?app_assoc in E.
  - exact (@tail_unique _ _ _ _ _ _ _ _ _ _ Ha Hb Hu Ha' Hb' Hu' E).
  - (* a bare number against a range: the unit would have to be "to" *)
    exfalso.
    destruct (Hunit u uw rest b Hb Hu) as [Hdg Hsp].
    destruct (Hto t' (b2' ++ amount' ++ b' ++ uw' ++ rest') Ht') as (Hsp' & Hdg' & Hbt & _).
    destruct Ha as [_ Ha], Hd1' as [_ Hd1'].
    destruct (@run_unique is_digit _ _ _ _ Ha Hd1' Hdg
                (@blanks_then is_digit _ _ space_not_digit Hb1' Hdg') E) as [_ E1].
    destruct (@run_unique is_space _ _ _ _ Hb Hb1' Hsp Hsp' E1) as [_ E2].
    apply unit_word_begins in Hu.
    destruct Hu as (c & x & -> & Hc), Hbt as (c' & x' & -> & Hc').
    cbn in E2. injection E2 as <- _. rewrite Hc in Hc'. destruct u; discriminate Hc'.
  - exfalso.
    destruct (Hunit u' uw' rest' b' Hb' Hu') as [Hdg Hsp].
    destruct (Hto t (b2 ++ amount ++ b ++ uw ++ rest) Ht) as (Hsp' & Hdg' & Hbt & _).
    destruct Ha' as [_ Ha'], Hd1 as [_ Hd1].
    destruct (@run_unique is_digit _ _ _ _ Hd1 Ha'
                (@blanks_then is_digit _ _ space_not_digit Hb1 Hdg') Hdg E) as [_ E1].
    destruct (@run_unique is_space _ _ _ _ Hb1 Hb' Hsp' Hsp E1) as [_ E2].
    apply unit_word_begins in Hu'.
    destruct Hu' as (c & x & -> & Hc), Hbt as (c' & x' & -> & Hc').
    cbn in E2. injection E2 as <- _. rewrite Hc in Hc'. destruct u'; discriminate Hc'.
  - destruct (Hto t (b2 ++ amount ++ b ++ uw ++ rest) Ht) as (Hsp & Hdg & _ & Hlen).
    destruct (Hto t' (b2' ++ amount' ++ b' ++ uw' ++ rest') Ht') as (Hsp' & Hdg' & _ & Hlen').
    destruct Hd1 as [_ Hd1], Hd1' as [_ Hd1'].
    destruct (@run_unique is_digit _ _ _ _ Hd1 Hd1'
                (@blanks_then is_digit _ _ space_not_digit Hb1 Hdg)
                (@blanks_then is_digit _ _ space_not_digit Hb1' Hdg') E) as [_ E1].
    destruct (@run_unique is_space _ _ _ _ Hb1 Hb1' Hsp Hsp' E1) as [_ E2].
    apply app_eq_length in E2 as [_ E3]; [|congruence].
    destruct (@run_unique is_space _ _ _ _ Hb2 Hb2'
                (@digits_ends_blank_run _ (b ++ uw ++ rest) Ha)
                (@digits_ends_blank_run _ (b' ++ uw' ++ rest') Ha') E3) as [_ E4].
    exact (@tail_unique _ _ _ _ _ _ _ _ _ _ Ha Hb Hu Ha' Hb' Hu' E4).
Qed.

Lemma phrase_at_unique (s : jsstring) (i : nat) (amount amount' : jsstring)
  (u u' : unit_kind) :
  phrase_at s i amount u -> phrase_at s i amount' u' ->
  amount = amount' /\ u = u'.
Proof.
  intros (pre & w & rest & -> & <- & Hp) (pre' & w' & rest' & E & L & Hp').
  apply app_eq_length in E as [_ E]; [|congruence].
  exact (@phrase_unique _ _ _ _ _ _ _ _ Hp Hp' E).
Qed.

Lemma capture_group (n : nat) (caps : captures) (w : jsstring) :
  capture n caps = Some w -> group n caps = w.
Proof. unfold group. intros ->. reflexivity. Qed.

(** The parser on an instruction without a phrase, and on one with a first
    phrase. *)
Lemma parse_no_phrase (instruction : jsstring) :
  str_match timeRegex instruction = None ->
  forall i amount u, ~ phrase_at instruction i amount u.
Proof.
  intros Hnone i amount u (pre & w & rest & -> & _ & Hp).
  destruct (@timeRegex_complete _ _ _ rest Hp) as (caps & Hm).
  apply (@m_complete _ _ _ _ _ Hm (fun _ c => Some c)); [discriminate|].
  exact (@str_match_none _ _ Hnone pre (w ++ rest) eq_refl).
Qed.

Lemma parse_first_phrase (instruction : jsstring) (caps : captures) :
  str_match timeRegex instruction = Some caps ->
  exists i amount u uw,
    phrase_at instruction i amount u
    /\ (forall j amount' u', j < i -> ~ phrase_at instruction j amount' u')
    /\ group 2 caps = amount /\ group 3 caps = uw /\ unit_word u uw.
Proof.
  intros Hsome.
  apply str_match_some in Hsome as (pre & suf & -> & Hm & Hfirst).
  apply m_sound in Hm as (s' & caps' & Hmatch & [= ->]).
  apply timeRegex_sound in Hmatch
    as (head & amount & b & uw & -> & Hhead & Ha & Hb & Hu & H2 & H3).
  assert (exists u, unit_word u uw) as [u Huw]
    by (destruct Hu; [exists Minutes|exists Hours]; assumption).
  exists (length pre), amount, u, uw.
  split; [|split; [|split; [|split]]].
  - exists pre, (head ++ amount ++ b ++ uw), s'.
    split; [reflexivity|]. split; [reflexivity|].
    exists head, b, uw.
    split; [reflexivity|]. split; [exact Hhead|]. split; [exact Ha|].
    split; [exact Hb|exact Huw].
  - intros j amount' u' Hj (pre' & w' & rest' & E & <- & Hp).
    destruct (@timeRegex_complete _ _ _ rest' Hp) as (caps' & Hm').
    apply (@m_complete _ _ _ _ _ Hm' (fun _ c => Some c)); [discriminate|].
    apply (Hfirst pre' (w' ++ rest') E Hj).
  - apply capture_group, H2.
  - apply capture_group, H3.
  - exact Huw.
Qed.

(** The duration that the parser returns is the rounded seconds of the
    first phrase. *)
Lemma parse_cases (instruction : jsstring) :
  text (parseInstructionForTime instruction) = instruction
  /\ ((timeInSeconds (parseInstructionForTime instruction) = None
       /\ forall i amount u, ~ phrase_at instruction i amount u)
      \/ exists i amount u,
           phrase_at instruction i amount u
           /\ (forall j amount' u', j < i ->
                                    ~ phrase_at instruction j amount' u')
           /\ digits amount
           /\ timeInSeconds (parseInstructionForTime instruction)
              = Some (rounded_seconds amount u)).
Proof.
  unfold parseInstructionForTime.
  destruct (str_match timeRegex instruction) as [caps|] eqn:E.
  - split; [reflexivity|]. right.
    destruct (@parse_first_phrase _ _ E)
      as (i & amount & u & uw & Hat & Hfirst & -> & -> & Hu).
    exists i, amount, u. split; [exact Hat|]. split; [exact Hfirst|].
    assert (Ha : digits amount)
      by (destruct Hat as (_ & _ & _ & _ & _ & (_ & _ & _ & _ & _ & Ha & _));
          exact Ha).
    split; [exact Ha|].
    cbn [timeInSeconds]. rewrite (@unit_word_starts u _ Hu).
    rewrite (@parseInt10_digits _ Ha). unfold rounded_seconds.
    destruct u; reflexivity.
  - split; [reflexivity|]. left. split; [reflexivity|].
    apply parse_no_phrase, E.
Qed.

(** C3, as stated, fails for amounts that doubles do not have: 2^53 + 1
    minutes is read as 2^53 minutes, and the duration is 60 seconds short
    of the amount times 60. *)
Lemma parser_rounds_large_amounts :
  exists i u,
    phrase_at bigInstruction i (js "9007199254740993") u
    /\ (forall j amount' u', j < i -> ~ phrase_at bigInstruction j amount' u')
    /\ timeInSeconds (parseInstructionForTime bigInstruction)
       = Some (Num 540431955284459520)
    /\ (digits_value (js "9007199254740993") * 60 = 540431955284459580)%Z
    /\ timeInSeconds (parseInstructionForTime bigInstruction)
       <> Some (seconds (js "9007199254740993") u).
Proof.
  destruct (str_match timeRegex bigInstruction) as [caps|] eqn:E;
    [|vm_compute in E; discriminate E].
  destruct (@parse_first_phrase _ _ E)
    as (i & amount & u & uw & Hat & Hfirst & H2 & _ & _).
  assert (Hamount : amount = js "9007199254740993").
  { rewrite <- H2. vm_compute in E. injection E as <-. vm_compute. reflexivity. }
  rewrite Hamount in Hat. exists i, u.
  split; [exact Hat|]. split; [exact Hfirst|].
  split; [vm_compute; reflexivity|]. split; [vm_compute; reflexivity|].
  destruct u; vm_compute; intros H; discriminate H.
Qed.

(** C3, amended.  The parser returns the instruction unchanged.  It returns
    no duration exactly when the instruction has no phrase of the form
    [<N> to] <N> (minute(s)|hour(s)), read without regard to case; otherwise
    it returns the seconds of the phrase at the first index that has one, as
    doubles give them: its second number, rounded, times 3600 for hours and
    times 60 for minutes, rounded.  As long as that product is at most 2^53
    nothing is rounded, and the duration is the second number times 3600 or
    times 60.  At one index a phrase has one amount and one unit only.  The
    four sample instructions give 600, 3600, 600 and no duration. *)
Theorem instruction_time_parser :
  (forall instruction,
      text (parseInstructionForTime instruction) = instruction
      /\ ((timeInSeconds (parseInstructionForTime instruction) = None
           /\ forall i amount u, ~ phrase_at instruction i amount u)
          \/ exists i amount u,
               phrase_at instruction i amount u
               /\ (forall j amount' u', j < i ->
                                        ~ phrase_at instruction j amount' u')
               /\ timeInSeconds (parseInstructionForTime instruction)
                  = Some (rounded_seconds amount u)))
  /\ (forall instruction i amount u,
         phrase_at instruction i amount u ->
         (forall j amount' u', j < i -> ~ phrase_at instruction j amount' u') ->
         exact_seconds amount u ->
         timeInSeconds (parseInstructionForTime instruction)
         = Some (seconds amount u))
  /\ (forall s i amount u amount' u',
         phrase_at s i amount u -> phrase_at s i amount' u' ->
         amount = amount' /\ u = u')
  /\ (forall amount, seconds amount Hours = Num (digits_value amount * 3600)
                     /\ seconds amount Minutes = Num (digits_value amount * 60))
  /\ timeInSeconds (parseInstructionForTime (js "Simmer for 10 minutes"))
     = Some (Num 600)
  /\ timeInSeconds (parseInstructionForTime (js "Bake for 1 hour"))
     = Some (Num 3600)
  /\ timeInSeconds (parseInstructionForTime (js "Let rest 5 to 10 minutes"))
     = Some (Num 600)
  /\ timeInSeconds (parseInstructionForTime (js "Add salt to taste")) = None.
Proof.
  split; [|split; [|split; [intros s i amount u amount' u'; apply phrase_at_unique|
                            split; [split; reflexivity|]]]].
  - intros instruction.
    destruct (parse_cases instruction) as [Ht [Hnone|Hsome]].
    + split; [exact Ht|]. left. exact Hnone.
    + split; [exact Ht|]. right.
      destruct Hsome as (i & amount & u & Hat & Hfirst & _ & Hv).
      exists i, amount, u. split; [exact Hat|]. split; [exact Hfirst|exact Hv].
  - intros instruction i amount u Hat Hfirst Hex.
    destruct (parse_cases instruction) as [_ [[_ Hno]|Hsome]].
    + exfalso. exact (Hno _ _ _ Hat).
    + destruct Hsome as (i' & amount' & u' & Hat' & Hfirst' & Ha & Hv).
      assert (i' = i).
      { destruct (Nat.lt_trichotomy i' i) as [Hlt|[Heq|Hgt]]; [|exact Heq|].
        - exfalso. exact (Hfirst _ _ _ Hlt Hat').
        - exfalso. exact (Hfirst' _ _ _ Hgt Hat). }
      subst i'.
      destruct (@phrase_at_unique _ _ _ _ _ _ Hat' Hat) as [-> ->].
      rewrite Hv. f_equal. apply rounded_seconds_exact; assumption.
  - repeat split; vm_compute; reflexivity.
Qed.

Lemma short_phrase : phrase_at (js "10 minutes") 0 (js "10") Minutes.
Proof.
  exists [], (js "10 minute"), (js "s").
  split; [reflexivity|]. split; [reflexivity|].
  exists [], (js " "), (js "minute").
  split; [reflexivity|]. split; [left; reflexivity|].
  repeat split; try discriminate; repeat constructor.
Defined.

Lemma rest_phrase : phrase_at restInstruction 9 (js "10") Minutes.
Proof.
  exists (js "Let rest "), (js "5 to 10 minute"), (js "s").
  split; [reflexivity|]. split; [reflexivity|].
  exists (js "5 to "), (js " "), (js "minute").
  split; [reflexivity|]. split.
  - right. exists (js "5"), (js " "), (js "to"), (js " ").
    split; [reflexivity|].
    repeat split; try discriminate; repeat constructor.
  - repeat split; try discriminate; repeat constructor.
Defined.

Lemma instruction_time_parser_witness :
  phrase_at restInstruction 9 (js "10") Minutes
  /\ ~ phrase_at restInstruction 9 (js "5") Minutes
  /\ seconds (js "10") Minutes = Num 600
  /\ timeInSeconds (parseInstructionForTime (js "10 minutes"))
     = Some (seconds (js "10") Minutes).
Proof.
  split; [exact rest_phrase|]. split; [|split; [reflexivity|]].
  - intros H.
    destruct (proj1 (proj2 (proj2 instruction_time_parser)) restInstruction 9
                (js "10") Minutes (js "5") Minutes rest_phrase H) as [E _].
    discriminate E.
  - apply (proj1 (proj2 instruction_time_parser) (js "10 minutes") 0
             (js "10") Minutes short_phrase).
    + intros j amount' u' Hj. inversion Hj.
    + vm_compute. intros H. discriminate H.
Defined.

(* ================================================================== *)
(** * Data URLs *)
(* ================================================================== *)

Lemma indexOf_from_skips (c : N) (pre rest : jsstring) (i : Z) :
  ~ In c pre ->
  indexOf_from c (pre ++ c :: rest) i = (i + Z.of_nat (length pre))%Z.
Proof.
  revert i. induction pre as [|x pre IH]; intros i Hnot; cbn [app indexOf_from].
  - rewrite N.eqb_refl. cbn. lia.
  - destruct (N.eqb_spec x c) as [->|Hx]; [exfalso; apply Hnot; left; reflexivity|].
    rewrite IH by (intros H; apply Hnot; right; exact H).
    cbn [length]. lia.
Qed.

Lemma indexOf_from_absent (c : N) (s : jsstring) (i : Z) :
  ~ In c s -> indexOf_from c s i = (-1)%Z.
Proof.
  revert i. induction s as [|x s IH]; intros i Hnot; cbn; [reflexivity|].
  destruct (N.eqb_spec x c) as [->|Hx]; [exfalso; apply Hnot; left; reflexivity|].
  apply IH. intros H. apply Hnot. right. exact H.
Qed.

Lemma split_absent (c : N) (s : jsstring) : ~ In c s -> split c s = [s].
Proof.
  induction s as [|x s IH]; intros Hnot; cbn; [reflexivity|].
  destruct (N.eqb_spec x c) as [->|Hx]; [exfalso; apply Hnot; left; reflexivity|].
  rewrite IH by (intros H; apply Hnot; right; exact H). reflexivity.
Qed.

Lemma split_first (c : N) (pre rest : jsstring) :
  ~ In c pre -> split c (pre ++ c :: rest) = pre :: split c rest.
Proof.
  induction pre as [|x pre IH]; intros Hnot; cbn [app split].
  - rewrite N.eqb_refl. reflexivity.
  - destruct (N.eqb_spec x c) as [->|Hx]; [exfalso; apply Hnot; left; reflexivity|].
    rewrite IH by (intros H; apply Hnot; right; exact H). reflexivity.
Qed.

Lemma substring_middle (pre mid post : jsstring) :
  substring (pre ++ mid ++ post) (Z.of_nat (length pre))
    (Z.of_nat (length pre + length mid)) = mid.
Proof.
  unfold substring. rewrite !length_app.
  set (len := Z.of_nat (length pre + (length mid + length post))).
  replace (Z.to_nat (Z.min (Z.max (Z.of_nat (length pre)) 0) len))
    with (length pre) by lia.
  replace (Z.to_nat (Z.min (Z.max (Z.of_nat (length pre + length mid)) 0) len))
    with (length pre + length mid) by lia.
  rewrite Nat.min_l, Nat.max_r by lia.
  replace (length pre + length mid - length pre) with (length mid) by lia.
  rewrite skipn_app, skipn_all, Nat.sub_diag. cbn [skipn app].
  rewrite firstn_app, firstn_all, Nat.sub_diag. cbn. apply app_nil_r.
Qed.

Lemma data_url_parts_core (mime data : jsstring) :
  ~ In 59%N mime -> ~ In 44%N mime -> ~ In 44%N data ->
  mimeTypeOf (dataURL mime data) = mime
  /\ base64DataOf (dataURL mime data) = Some data.
Proof.
  intros Hsemi Hcomma Hdata. unfold dataURL. split.
  - unfold mimeTypeOf.
    assert (E1 : indexOf (js "data:" ++ mime ++ js ";base64," ++ data) 58 = 4%Z)
      by reflexivity.
    assert (E2 : indexOf (js "data:" ++ mime ++ js ";base64," ++ data) 59
                 = Z.of_nat (length (js "data:") + length mime)).
    { unfold indexOf.
      replace (js "data:" ++ mime ++ js ";base64," ++ data)
        with ((js "data:" ++ mime) ++ 59%N :: js "base64," ++ data)
        by (rewrite <- app_assoc; reflexivity).
      rewrite indexOf_from_skips.
      - rewrite length_app. lia.
      - intros H. apply in_app_or in H as [H|H]; [|contradiction].
        vm_compute in H. repeat destruct H as [H|H]; try discriminate H; exact H. }
    rewrite E1, E2.
    change (4 + 1)%Z with (Z.of_nat (length (js "data:"))).
    apply (substring_middle (js "data:") mime (js ";base64," ++ data)).
  - unfold base64DataOf.
    replace (js "data:" ++ mime ++ js ";base64," ++ data)
      with ((js "data:" ++ mime ++ js ";base64") ++ 44%N :: data)
      by (rewrite <- !app_assoc; reflexivity).
    rewrite split_first; [rewrite split_absent by assumption; reflexivity|].
    intros H. apply in_app_or in H as [H|H];
      [|apply in_app_or in H as [H|H]; [contradiction|]];
      vm_compute in H; repeat destruct H as [H|H]; try discriminate H; exact H.
Qed.

(** X1.  The two places that take a data URL apart read the media type and
    the payload back: for a URL "data:" + mime + ";base64," + data the media
    type is the text between the first colon and the first semicolon and the
    payload the text after the first comma, provided the media type has no
    semicolon or comma and the payload no comma.  A string without a comma
    has no payload ([undefined]). *)
Theorem data_url_parts (mime data : jsstring) :
  ~ In 59%N mime -> ~ In 44%N mime -> ~ In 44%N data ->
  mimeTypeOf (dataURL mime data) = mime
  /\ base64DataOf (dataURL mime data) = Some data
  /\ (forall s, ~ In 44%N s -> base64DataOf s = None).
Proof.
  intros Hsemi Hcomma Hdata.
  destruct (@data_url_parts_core mime data Hsemi Hcomma Hdata) as [Hm Hd].
  split; [exact Hm|]. split; [exact Hd|].
  intros s Hs. unfold base64DataOf. rewrite split_absent by assumption.
  reflexivity.
Qed.

Lemma data_url_parts_witness :
  mimeTypeOf (dataURL (js "image/png") (js "QQ==")) = js "image/png"
  /\ base64DataOf (dataURL (js "image/png") (js "QQ==")) = Some (js "QQ==")
  /\ base64DataOf (js "no payload here") = None.
Proof.
  destruct (@data_url_parts (js "image/png") (js "QQ=="))
    as (H1 & H2 & H3);
    try (vm_compute; intros H; repeat destruct H as [H|H];
         try discriminate H; exact H).
  split; [exact H1|]. split; [exact H2|].
  apply H3. vm_compute. intros H. repeat destruct H as [H|H];
    try discriminate H; exact H.
Defined.


(* ================================================================== *)
(** * The gateway: images and fetches *)
(* ================================================================== *)

Lemma validate_data_url (ai : GoogleGenAI) (round : nat)
  (name mime data : jsstring) :
  ~ In 59%N mime -> ~ In 44%N mime -> ~ In 44%N data ->
  validateRecipeImage ai round name (dataURL mime data)
  = Ok (verdict (generateContent ai round
                   (validationRequest mime (Some data)
                      (validationQuestion name)))).
Proof.
  intros Hsemi Hcomma Hdata.
  destruct (@data_url_parts_core mime data Hsemi Hcomma Hdata) as [Hm Hd].
  unfold validateRecipeImage.
  fold (mimeTypeOf (dataURL mime data)). fold (base64DataOf (dataURL mime data)).
  rewrite Hm, Hd. apply try_catch_verdict.
Qed.

(** X2.  [generateRecipeImage] sends one request for one JPEG image of
    aspect 4:3.  When the service answers with images, the result is the
    JPEG data URL of the bytes of the first of them,
    [generatedImages[0].image.imageBytes], whatever images follow; a result
    is returned in this case only.  [validateRecipeImage] takes such a URL
    apart again and shows the model exactly these bytes, as image/jpeg,
    with its question about the dish.  A first entry without [image] is a
    TypeError; an answer without images throws "Image generation failed to
    return an image."; a rejection of the service is passed on. *)
Theorem generated_image_reaches_validator
  (ai : GoogleGenAI) (round : nat) (prompt_ : jsstring) :
  (forall image rest,
      generateImages ai round (imagesRequest prompt_)
      = Ok (Some (Some image :: rest)) ->
      generateRecipeImage ai round prompt_
      = Ok (dataURL (js "image/jpeg") (bytesText image))
      /\ forall ai' round' name,
          ~ In 44%N (bytesText image) ->
          validateRecipeImage ai' round' name
            (dataURL (js "image/jpeg") (bytesText image))
          = Ok (verdict (generateContent ai' round'
                           (validationRequest (js "image/jpeg")
                              (Some (bytesText image))
                              (validationQuestion name)))))
  /\ (forall url,
         generateRecipeImage ai round prompt_ = Ok url ->
         exists image rest,
           generateImages ai round (imagesRequest prompt_)
           = Ok (Some (Some image :: rest))
           /\ url = dataURL (js "image/jpeg") (bytesText image))
  /\ (forall rest,
         generateImages ai round (imagesRequest prompt_)
         = Ok (Some (None :: rest)) ->
         generateRecipeImage ai round prompt_ = Throw TypeError)
  /\ (generateImages ai round (imagesRequest prompt_) = Ok None ->
      generateRecipeImage ai round prompt_
      = Throw (Error (js "Image generation failed to return an image.")))
  /\ (generateImages ai round (imagesRequest prompt_) = Ok (Some []) ->
      generateRecipeImage ai round prompt_
      = Throw (Error (js "Image generation failed to return an image.")))
  /\ (forall e, generateImages ai round (imagesRequest prompt_) = Throw e ->
                generateRecipeImage ai round prompt_ = Throw e).
Proof.
  unfold generateRecipeImage. fold (imagesRequest prompt_).
  split; [|split; [|repeat split; intros; rewrite H; reflexivity]].
  - intros image rest E. rewrite E. split; [reflexivity|].
    intros ai' round' name Hcomma.
    apply (@validate_data_url ai' round' name (js "image/jpeg"));
      try assumption;
      vm_compute; intros H; repeat destruct H as [H|H];
      try discriminate H; exact H.
  - intros url.
    destruct (generateImages ai round (imagesRequest prompt_))
      as [[[|[image|] rest]|]|e]; cbn; try discriminate.
    intros [= <-]. exists image, rest. split; reflexivity.
Qed.

Lemma generated_image_reaches_validator_witness :
  generateRecipeImage ai_always_yes 1 (js "A bowl of soup")
  = Ok (dataURL (js "image/jpeg") (js "QQ=="))
  /\ validateRecipeImage ai_always_no 2 (js "Soup")
       (dataURL (js "image/jpeg") (js "QQ=="))
     = Ok (verdict (generateContent ai_always_no 2
                      (validationRequest (js "image/jpeg") (Some (js "QQ=="))
                         (validationQuestion (js "Soup"))))).
Proof.
  destruct (proj1 (generated_image_reaches_validator ai_always_yes 1
                     (js "A bowl of soup")) (Some (js "QQ==")) [] eq_refl)
    as (Hurl & Hval).
  split; [exact Hurl|].
  apply (Hval ai_always_no 2 (js "Soup")).
  vm_compute. intros H. repeat destruct H as [H|H]; try discriminate H; exact H.
Defined.

Lemma fetchRecipes_outcome (ai : GoogleGenAI) (pf : Platform) (round : nat)
  (parts_ : list Part) (n : nat) :
  fetch_outcome pf n (fetchRecipes ai pf round parts_ n).
Proof.
  unfold fetch_outcome.
  destruct (fetchRecipes ai pf round parts_ n) as [[l|e] n'] eqn:E.
  - pose proof (fetchRecipes_records _ _ _ _ _ E) as Hrec.
    revert E. unfold fetchRecipes.
    destruct (generateContent ai round _) as [[text|]|e]; cbn;
      try discriminate.
    unfold parseAndPrepareRecipes.
    destruct (JSON_parse pf (trim text)) as [[raws|]|e]; try discriminate.
    pose proof (map_with_uuid_spec pf with_id (firstn 3 raws) n) as Hspec.
    pose proof (map_with_uuid_length pf with_id (firstn 3 raws) n) as Hlen.
    pose proof (map_with_uuid_ids pf with_id (firstn 3 raws) n
                  (fun _ _ => eq_refl)) as Hids.
    destruct (map_with_uuid pf with_id (firstn 3 raws) n) as [prepared k].
    cbn [fst] in *. injection Hspec as _ Hn.
    intros [= <- <-].
    split; [rewrite Hlen, length_firstn; lia|].
    split; [rewrite Hlen; exact Hn|].
    split; [rewrite Hlen; exact Hids|exact Hrec].
  - revert E. unfold fetchRecipes.
    destruct (generateContent ai round _) as [[text|]|e']; cbn;
      try (intros [= _ <-]; reflexivity).
    unfold parseAndPrepareRecipes.
    destruct (JSON_parse pf (trim text)) as [[raws|]|e'];
      try (intros [= _ <-]; reflexivity).
    destruct (map_with_uuid pf with_id (firstn 3 raws) n). discriminate.
Qed.

Lemma fetch_outcome_plain (pf : Platform) (n : nat)
  (outcome : result (list Recipe) * nat) :
  schema_abiding pf -> fetch_outcome pf n outcome -> fetch_plain outcome.
Proof.
  intros Hpf. unfold fetch_outcome, fetch_plain.
  destruct outcome as [[l|e] n']; [|trivial].
  intros (_ & _ & _ & text_ & items & Hparse & Hraw).
  pose proof (Forall_firstn 3 (Hpf _ _ Hparse)) as H.
  rewrite <- Hraw, Forall_map in H. exact H.
Qed.

Lemma samplePlatform_schema_abiding : schema_abiding samplePlatform.
Proof.
  intros text_ items [= <-]. repeat constructor.
Qed.



(* ================================================================== *)
(** * Finding recipes and loading more *)
(* ================================================================== *)

Lemma isFoodImage_verdict (ai : GoogleGenAI) (round : nat)
  (data : option jsstring) (mimeType : jsstring) :
  exists b, isFoodImage ai round data mimeType = Ok b.
Proof. unfold isFoodImage. rewrite try_catch_verdict. eauto. Qed.

(** What the common end of the two fetching handlers leaves behind. *)
Lemma showRecipes_outcome (pf : Platform) (s : AppState)
  (calls : list GatewayCall) (fetchedRecipes : result (list Recipe) * nat)
  (advisory : option jsstring) (n : nat) :
  fetch_outcome pf n fetchedRecipes ->
  let out := showRecipes pf s calls fetchedRecipes advisory in
  isLoading (state out) = false
  /\ image (state out) = image s
  /\ savedRecipes (state out) = savedRecipes s
  /\ popularRecipes (state out) = popularRecipes s
  /\ fetched out = calls
  /\ ((recipes (state out) = Some (dispatched out)
       /\ length (dispatched out) <= 3
       /\ (schema_abiding pf -> Forall plain (dispatched out))
       /\ (collision_free pf -> NoDup (map id (dispatched out)))
       /\ error (state out) = match advisory with
                              | Some t => Some t
                              | None => error s
                              end
       /\ exists l, fst fetchedRecipes = Ok l
                    /\ map raw_of (dispatched out) = map raw_of l)
      \/ (recipes (state out) = recipes s
          /\ dispatched out = []
          /\ exists err, fst fetchedRecipes = Throw err
                         /\ error (state out) = Some (messageOf err))).
Proof.
  intros Hf. cbv zeta. unfold showRecipes.
  destruct fetchedRecipes as [[l|err] n1]; cbn [fetch_outcome] in Hf.
  - pose proof Hf as Hfull. destruct Hf as (Hlen & _ & _ & _).
    pose proof (map_with_uuid_length pf with_new_id l n1) as Hl.
    pose proof (map_with_uuid_ids pf with_new_id l n1 (fun _ _ => eq_refl)) as Hids.
    pose proof (@map_with_uuid_proj _ _ _ pf with_new_id raw_of raw_of l n1
                  (fun _ _ => eq_refl)) as Hraw.
    pose proof (@Forall_map_with_uuid _ pf with_new_id plain plain l n1) as Hp.
    destruct (map_with_uuid pf with_new_id l n1) as [ws n2]. cbn [fst] in *.
    assert (Hstate : forall t, state
              {| state := t; dispatched := ws; fetched := calls; uuids := n2 |} = t)
      by reflexivity.
    destruct advisory as [t|]; cbn;
      (repeat (split; [reflexivity|]); left;
       split; [reflexivity|]; split; [lia|];
       split; [intros Hpf; apply Hp;
               [intros x u Hx; exact Hx
               |exact (@fetch_outcome_plain pf n (Ok l, n1) Hpf Hfull)]|];
       split; [intros Hfree; rewrite Hids; apply NoDup_uuids, Hfree|];
       split; [reflexivity|]; exists l; split; [reflexivity|exact Hraw]).
  - cbn. repeat (split; [reflexivity|]). right.
    split; [reflexivity|]. split; [reflexivity|]. exists err. split; reflexivity.
Qed.

(** What [handleGetRecipes] leaves behind. *)
Lemma handleGetRecipes_outcome (ai : GoogleGenAI) (pf : Platform)
  (exclude cuisines : list jsstring) (s : AppState) (n : nat) :
  let out := handleGetRecipes ai pf exclude cuisines s n in
  (truthy (image s) = false ->
     state out = setError (Some (js "Please select an image first.")) s
     /\ dispatched out = [] /\ uuids out = n)
  /\ (truthy (image s) = true ->
        isLoading (state out) = false
        /\ image (state out) = image s
        /\ savedRecipes (state out) = savedRecipes s
        /\ popularRecipes (state out) = popularRecipes s
        /\ ((recipes (state out) = Some (dispatched out)
             /\ length (dispatched out) <= 3
             /\ (schema_abiding pf -> Forall plain (dispatched out))
             /\ (collision_free pf -> NoDup (map id (dispatched out)))
             /\ (error (state out) = None
                 \/ error (state out) = Some notFoodAdvisory))
            \/ (recipes (state out) = None
                /\ dispatched out = []
                /\ exists msg, error (state out) = Some msg))).
Proof.
  cbv zeta. unfold handleGetRecipes.
  destruct (image s) as [[|c image']|] eqn:Himg; cbn [truthy].
  1,3: split; [intros _; repeat split; reflexivity|discriminate].
  split; [discriminate|]. intros _.
  set (s1 := setRecipes None (setError None (setIsLoading true s))).
  assert (Hboth : forall calls fetchedRecipes s2,
    fetch_outcome pf n fetchedRecipes ->
    image s2 = image s -> savedRecipes s2 = savedRecipes s ->
    popularRecipes s2 = popularRecipes s -> recipes s2 = None ->
    (error s2 = None \/ error s2 = Some notFoodAdvisory) ->
    let out := showRecipes pf s2 calls fetchedRecipes None in
    isLoading (state out) = false
    /\ image (state out) = image s
    /\ savedRecipes (state out) = savedRecipes s
    /\ popularRecipes (state out) = popularRecipes s
    /\ ((recipes (state out) = Some (dispatched out)
         /\ length (dispatched out) <= 3
         /\ (schema_abiding pf -> Forall plain (dispatched out))
         /\ (collision_free pf -> NoDup (map id (dispatched out)))
         /\ (error (state out) = None
             \/ error (state out) = Some notFoodAdvisory))
        \/ (recipes (state out) = None
            /\ dispatched out = []
            /\ exists msg, error (state out) = Some msg))).
  { intros calls fetchedRecipes s2 Hf Hi Hsv Hp Hr He.
    destruct (@showRecipes_outcome pf s2 calls fetchedRecipes None n Hf)
      as (H1 & H2 & H3 & H4 & _ & H6).
    cbv zeta. split; [exact H1|]. split; [congruence|].
    split; [congruence|]. split; [congruence|].
    destruct H6 as [(Ha & Hb & Hc & Hd & Hee & _)|(Ha & Hb & err & _ & Hee)].
    - left. repeat split; try assumption. rewrite Hee. exact He.
    - right. split; [congruence|]. split; [exact Hb|]. eauto. }
  rewrite <- Himg.
  destruct (0 <? length exclude)%nat.
  - apply Hboth; try reflexivity; [apply fetchRecipes_outcome|left; reflexivity].
  - destruct (isFoodImage_verdict ai 1 (base64DataOf (c :: image'))
                (mimeTypeOf (c :: image'))) as [[|] ->].
    + apply Hboth; try reflexivity; [apply fetchRecipes_outcome|left; reflexivity].
    + apply Hboth; try reflexivity; [apply fetchRecipes_outcome|right; reflexivity].
Qed.

(** X4.  [handleGetRecipes] without an image reports "Please select an image
    first." and does nothing else.  With an image it always ends with the
    loading flag released and the saved and popular recipes untouched, in
    one of two ways: it displays a batch of at most three recipes and
    starts the image loop for exactly the displayed batch (the batch is
    without images and failure flags when the parser returns records as
    the schema describes them, its identifiers are pairwise distinct when
    UUID draws do not collide, and the advisory is absent or the not-food
    one), or, when the fetch threw, it displays no recipes, starts no loop
    and reports an error. *)
Theorem find_recipes_outcome (ai : GoogleGenAI) (pf : Platform)
  (exclude cuisines : list jsstring) (s : AppState) (n : nat) :
  let out := handleGetRecipes ai pf exclude cuisines s n in
  (truthy (image s) = false ->
     state out = setError (Some (js "Please select an image first.")) s
     /\ dispatched out = [] /\ uuids out = n)
  /\ (truthy (image s) = true ->
        isLoading (state out) = false
        /\ image (state out) = image s
        /\ savedRecipes (state out) = savedRecipes s
        /\ popularRecipes (state out) = popularRecipes s
        /\ ((recipes (state out) = Some (dispatched out)
             /\ length (dispatched out) <= 3
             /\ (schema_abiding pf -> Forall plain (dispatched out))
             /\ (collision_free pf -> NoDup (map id (dispatched out)))
             /\ (error (state out) = None
                 \/ error (state out) = Some notFoodAdvisory))
            \/ (recipes (state out) = None
                /\ dispatched out = []
                /\ exists msg, error (state out) = Some msg))).
Proof. exact (handleGetRecipes_outcome ai pf exclude cuisines s n). Qed.

Lemma find_recipes_outcome_witness :
  state (handleGetRecipes ai_always_yes samplePlatform [] [] initialState 0)
  = setError (Some (js "Please select an image first.")) initialState
  /\ isLoading (state (handleGetRecipes ai_always_yes samplePlatform [] []
                         sampleWithImage 0)) = false
  /\ Forall plain (dispatched (handleGetRecipes ai_always_yes samplePlatform
                                 [] [] sampleWithImage 0))
  /\ NoDup (map id (dispatched (handleGetRecipes ai_always_yes samplePlatform
                                  [] [] sampleWithImage 0))).
Proof.
  split.
  - apply (proj1 (find_recipes_outcome ai_always_yes samplePlatform [] []
                    initialState 0)).
    reflexivity.
  - destruct (proj2 (find_recipes_outcome ai_always_yes samplePlatform [] []
                       sampleWithImage 0) eq_refl)
      as (Hload & _ & _ & _ & [(_ & _ & Hplain & Hnd & _)|(Hnone & _)]).
    + split; [exact Hload|].
      split; [exact (Hplain samplePlatform_schema_abiding)|
              exact (Hnd samplePlatform_collision_free)].
    + vm_compute in Hnone. discriminate Hnone.
Defined.




(* ================================================================== *)
(** * Image loops that settle in any order *)
(* ================================================================== *)

Ltac state_fields :=
  cbn [image recipes isLoading error copyNotification savedRecipes
       popularRecipes isSavedRecipesOpen timerConfig selectedCuisines].

(** The settle update, field by field. *)
Lemma settle_fields (ai : GoogleGenAI) (recipe : Recipe) (s : AppState) :
  generateAndSetImageForRecipe ai recipe s
  = {| image := image s;
       recipes := option_map (settled ai recipe) (recipes s);
       isLoading := isLoading s;
       error := if isValid (run_loop ai recipe) then error s
                else Some imageAdvisory;
       copyNotification := copyNotification s;
       savedRecipes := savedRecipes s;
       popularRecipes := settled ai recipe (popularRecipes s);
       isSavedRecipesOpen := isSavedRecipesOpen s;
       timerConfig := timerConfig s;
       selectedCuisines := selectedCuisines s |}.
Proof.
  assert (Hmap : forall l,
             map (fun r => if same_id r (finalRecipeState ai recipe)
                           then finalRecipeState ai recipe else r) l
             = settled ai recipe l).
  { intros l. unfold settled. apply map_ext. intros r.
    unfold same_id. rewrite finalRecipeState_id. reflexivity. }
  unfold generateAndSetImageForRecipe. cbv zeta.
  unfold setError, setPopularRecipes, updateRecipes.
  destruct (isValid (run_loop ai recipe)); cbn [negb image recipes isLoading
    error copyNotification savedRecipes popularRecipes isSavedRecipesOpen
    timerConfig selectedCuisines];
    rewrite Hmap; destruct (recipes s); cbn [option_map]; rewrite ?Hmap;
    reflexivity.
Qed.

Lemma same_id_false (r other : Recipe) :
  same_id r other = false <-> id r <> id other.
Proof.
  split.
  - intros E H. apply same_id_true in H. congruence.
  - intros H. destruct (same_id r other) eqn:E; [|reflexivity].
    apply same_id_true in E. contradiction.
Qed.

Lemma settled_commute (ai1 ai2 : GoogleGenAI) (r1 r2 : Recipe) (l : list Recipe) :
  id r1 <> id r2 ->
  settled ai1 r1 (settled ai2 r2 l) = settled ai2 r2 (settled ai1 r1 l).
Proof.
  intros Hne. unfold settled. rewrite !map_map. apply map_ext. intros r.
  cbv beta.
  assert (H12 : same_id (finalRecipeState ai1 r1) r2 = false)
    by (apply same_id_false; rewrite finalRecipeState_id; exact Hne).
  assert (H21 : same_id (finalRecipeState ai2 r2) r1 = false)
    by (apply same_id_false; rewrite finalRecipeState_id; congruence).
  destruct (same_id r r1) eqn:E1, (same_id r r2) eqn:E2;
    rewrite ?H12, ?H21, ?E1, ?E2; try reflexivity.
  apply same_id_true in E1, E2. congruence.
Qed.

Lemma settle_commute (ai1 ai2 : GoogleGenAI) (r1 r2 : Recipe) (s : AppState) :
  id r1 <> id r2 ->
  generateAndSetImageForRecipe ai1 r1 (generateAndSetImageForRecipe ai2 r2 s)
  = generateAndSetImageForRecipe ai2 r2 (generateAndSetImageForRecipe ai1 r1 s).
Proof.
  intros Hne. rewrite !settle_fields. state_fields.
  rewrite (@settled_commute ai1 ai2 r1 r2 (popularRecipes s) Hne).
  f_equal.
  - destruct (recipes s) as [l|]; cbn [option_map]; [|reflexivity].
    rewrite (@settled_commute ai1 ai2 r1 r2 l Hne). reflexivity.
  - destruct (isValid (run_loop ai1 r1)), (isValid (run_loop ai2 r2)); reflexivity.
Qed.

Lemma settleAll_perm (tasks tasks' : list (GoogleGenAI * Recipe)) :
  Permutation tasks tasks' ->
  NoDup (taskIds tasks) ->
  forall s, settleAll tasks' s = settleAll tasks s.
Proof.
  unfold settleAll.
  induction 1 as [|t l l' Hp IH|t1 t2 l|l l' l'' Hp1 IH1 Hp2 IH2];
    intros Hnd s; cbn.
  - reflexivity.
  - apply IH. inversion Hnd; assumption.
  - f_equal. apply settle_commute.
    cbn in Hnd. inversion Hnd as [|? ? Hin _]; subst.
    intros E. apply Hin. left. symmetry. exact E.
  - rewrite IH2, IH1; [reflexivity|exact Hnd|].
    unfold taskIds. eapply Permutation_NoDup; [|exact Hnd].
    apply Permutation_map, Hp1.
Qed.

Lemma settleAll_recipes (tasks : list (GoogleGenAI * Recipe)) (s : AppState) :
  recipes (settleAll tasks s) = option_map (map (settledBy tasks)) (recipes s)
  /\ popularRecipes (settleAll tasks s) = map (settledBy tasks) (popularRecipes s)
  /\ savedRecipes (settleAll tasks s) = savedRecipes s.
Proof.
  unfold settleAll, settledBy. revert s.
  induction tasks as [|t tasks IH]; intros s; cbn.
  - rewrite map_id. destruct (recipes s); cbn; rewrite ?map_id; auto.
  - destruct (IH (generateAndSetImageForRecipe (fst t) (snd t) s))
      as (H1 & H2 & H3).
    rewrite H1, H2, H3, settle_fields. cbn. unfold settled.
    destruct (recipes s); cbn; rewrite !map_map; auto.
Qed.

Lemma settledBy_other (tasks : list (GoogleGenAI * Recipe)) (r : Recipe) :
  ~ In (id r) (taskIds tasks) -> settledBy tasks r = r.
Proof.
  unfold settledBy, taskIds. revert r.
  induction tasks as [|t tasks IH]; intros r Hnot; cbn; [reflexivity|].
  assert (same_id r (snd t) = false) as ->
    by (apply same_id_false; intros E; apply Hnot; left; symmetry; exact E).
  apply IH. intros H. apply Hnot. right. exact H.
Qed.

Lemma settledBy_own (tasks : list (GoogleGenAI * Recipe)) :
  NoDup (taskIds tasks) ->
  map (settledBy tasks) (map snd tasks)
  = map (fun t => finalRecipeState (fst t) (snd t)) tasks.
Proof.
  induction tasks as [|t tasks IH]; intros Hnd; [reflexivity|].
  cbn in Hnd. inversion Hnd as [|? ? Hin Hnd']; subst.
  cbn [map]. f_equal.
  - unfold settledBy. cbn [fold_left].
    assert (same_id (snd t) (snd t) = true) as -> by (apply same_id_true; reflexivity).
    apply (@settledBy_other tasks). rewrite finalRecipeState_id. exact Hin.
  - rewrite <- (IH Hnd'). apply map_ext_in. intros r Hr.
    unfold settledBy at 1. cbn [fold_left].
    assert (same_id r (snd t) = false) as ->; [|reflexivity].
    apply same_id_false. intros E. apply Hin. rewrite <- E.
    unfold taskIds. rewrite <- map_map. apply in_map, Hr.
Qed.

(** X6.  Two image loops for recipes with different identifiers may settle
    in either order: the resulting state is the same.  More generally, for
    loops with pairwise different identifiers, the state after all of them
    have settled does not depend on the order in which they did. *)
Theorem settle_order_is_irrelevant :
  (forall ai1 ai2 r1 r2 s,
      id r1 <> id r2 ->
      generateAndSetImageForRecipe ai1 r1 (generateAndSetImageForRecipe ai2 r2 s)
      = generateAndSetImageForRecipe ai2 r2 (generateAndSetImageForRecipe ai1 r1 s))
  /\ (forall tasks tasks' s,
        Permutation tasks tasks' -> NoDup (taskIds tasks) ->
        settleAll tasks' s = settleAll tasks s).
Proof.
  split.
  - intros. apply settle_commute. assumption.
  - intros. apply settleAll_perm; assumption.
Qed.

(** X7.  When a batch with pairwise different identifiers is on display
    and the image loop of each of its recipes has settled, every displayed
    recipe is the final state that its own loop computed: each has been
    written by its own loop only.  Popular recipes with other identifiers
    and the saved recipes are as they were. *)
Theorem all_loops_settled (tasks : list (GoogleGenAI * Recipe)) (s : AppState) :
  NoDup (taskIds tasks) ->
  recipes s = Some (map snd tasks) ->
  recipes (settleAll tasks s)
  = Some (map (fun t => finalRecipeState (fst t) (snd t)) tasks)
  /\ (forall r, In r (popularRecipes s) -> ~ In (id r) (taskIds tasks) ->
                In r (popularRecipes (settleAll tasks s)))
  /\ savedRecipes (settleAll tasks s) = savedRecipes s.
Proof.
  intros Hnd Hrec.
  destruct (settleAll_recipes tasks s) as (H1 & H2 & H3).
  split; [|split].
  - rewrite H1, Hrec. cbn. f_equal. apply settledBy_own, Hnd.
  - intros r Hr Hnot. rewrite H2. apply in_map_iff. exists r.
    split; [apply settledBy_other, Hnot|exact Hr].
  - exact H3.
Qed.

Lemma sampleTasks_NoDup : NoDup (taskIds sampleTasks).
Proof.
  repeat constructor; vm_compute; intros H;
    repeat destruct H as [H|H]; try discriminate H; exact H.
Qed.

Lemma settle_order_is_irrelevant_witness :
  settleAll (rev sampleTasks) sampleBatch = settleAll sampleTasks sampleBatch.
Proof.
  apply (proj2 settle_order_is_irrelevant sampleTasks (rev sampleTasks) sampleBatch).
  - apply Permutation_rev.
  - exact sampleTasks_NoDup.
Defined.

Lemma all_loops_settled_witness :
  recipes (settleAll sampleTasks sampleBatch)
  = Some [finalRecipeState ai_always_yes sampleRecipe;
          finalRecipeState ai_always_no otherRecipe].
Proof.
  apply (proj1 (@all_loops_settled sampleTasks sampleBatch sampleTasks_NoDup eq_refl)).
Defined.

Lemma settled_absent (ai : GoogleGenAI) (recipe : Recipe) (l : list Recipe) :
  (forall r, In r l -> id r <> id recipe) -> settled ai recipe l = l.
Proof.
  intros H. unfold settled. rewrite <- (map_id l) at 2.
  apply map_ext_in. intros r Hr.
  assert (same_id r recipe = false) as -> by (apply same_id_false, H, Hr).
  reflexivity.
Qed.

(** X8.  A loop that settles when no displayed recipe has its identifier
    any more leaves both displayed collections as they are; when the loop
    accepted an image the whole state is unchanged, but when it rejected it
    still raises the image advisory.  In particular a loop that fails after
    "Start Over" puts the advisory on the start page. *)
Theorem stale_settle (ai : GoogleGenAI) (recipe : Recipe) (s : AppState) :
  ((forall r, In r (displayed s) -> id r <> id recipe) ->
   recipes (generateAndSetImageForRecipe ai recipe s) = recipes s
   /\ popularRecipes (generateAndSetImageForRecipe ai recipe s) = popularRecipes s
   /\ error (generateAndSetImageForRecipe ai recipe s)
      = (if isValid (run_loop ai recipe) then error s else Some imageAdvisory)
   /\ (isValid (run_loop ai recipe) = true ->
       generateAndSetImageForRecipe ai recipe s = s))
  /\ (isValid (run_loop ai recipe) = false ->
      let s' := generateAndSetImageForRecipe ai recipe (handleReset s) in
      image s' = None /\ recipes s' = None /\ error s' = Some imageAdvisory).
Proof.
  split.
  - intros Habsent.
    assert (Hpop : settled ai recipe (popularRecipes s) = popularRecipes s).
    { apply settled_absent. intros r Hr. apply Habsent.
      unfold displayed. apply in_or_app. right. exact Hr. }
    assert (Hrec : option_map (settled ai recipe) (recipes s) = recipes s).
    { unfold displayed in Habsent.
      destruct (recipes s) as [l|]; cbn [option_map]; [|reflexivity].
      f_equal. apply settled_absent. intros r Hr. apply Habsent.
      apply in_or_app. left. exact Hr. }
    rewrite settle_fields. state_fields. rewrite Hpop, Hrec.
    split; [reflexivity|]. split; [reflexivity|]. split; [reflexivity|].
    intros ->. destruct s; reflexivity.
  - intros Hrej s'. subst s'. rewrite settle_fields, Hrej. state_fields.
    split; [reflexivity|]. split; reflexivity.
Qed.

Lemma stale_settle_witness :
  error (generateAndSetImageForRecipe ai_always_no sampleRecipe
           (handleReset sampleBatch)) = Some imageAdvisory
  /\ recipes (generateAndSetImageForRecipe ai_always_yes sampleRecipe
                (handleReset sampleBatch)) = recipes (handleReset sampleBatch).
Proof.
  split.
  - apply (proj2 (stale_settle ai_always_no sampleRecipe sampleBatch)).
    vm_compute. reflexivity.
  - apply (proj1 (stale_settle ai_always_yes sampleRecipe (handleReset sampleBatch))).
    intros r Hr. vm_compute in Hr. destruct Hr.
Defined.

(* ================================================================== *)
(** * What the recipe card shows *)
(* ================================================================== *)

Lemma generateRecipeImage_url (ai : GoogleGenAI) (round : nat)
  (prompt_ url : jsstring) :
  generateRecipeImage ai round prompt_ = Ok url ->
  exists bytes, url = dataURL (js "image/jpeg") bytes.
Proof.
  unfold generateRecipeImage.
  destruct (generateImages ai round _) as [[[|[image|] rest]|]|e]; cbn;
    try discriminate.
  intros [= <-]. eexists. reflexivity.
Qed.

Lemma attempt_url (ai : GoogleGenAI) (round : nat) (r : Recipe) (img : jsstring) :
  attempt ai round r = Some img ->
  exists bytes, img = dataURL (js "image/jpeg") bytes.
Proof.
  unfold attempt.
  destruct (generateRecipeImage ai round (imagePrompt r)) as [url|e] eqn:E;
    [|discriminate].
  destruct (validateRecipeImage ai round (recipeName r) url) as [[|]|e];
    try discriminate.
  intros [= <-]. exact (@generateRecipeImage_url ai round _ url E).
Qed.

(** The card of a settled recipe: the accepted image or the failure panel. *)
Lemma final_card (ai : GoogleGenAI) (recipe : Recipe) :
  (isValid (run_loop ai recipe) = true ->
   exists bytes,
     imageArea (finalRecipeState ai recipe)
     = ShowImage (dataURL (js "image/jpeg") bytes)
     /\ generatedUrl (run_loop ai recipe)
        = Some (dataURL (js "image/jpeg") bytes))
  /\ (isValid (run_loop ai recipe) = false ->
      imageArea (finalRecipeState ai recipe) = ShowFailure)
  /\ imageArea (finalRecipeState ai recipe) <> ShowPending.
Proof.
  assert (Hurl : isValid (run_loop ai recipe) = true ->
                 exists bytes, generatedUrl (run_loop ai recipe)
                               = Some (dataURL (js "image/jpeg") bytes)).
  { rewrite run_loop_unrolled.
    destruct (attempt ai 1 recipe) as [img|] eqn:E1.
    - intros _. destruct (@attempt_url ai 1 recipe img E1) as [bytes ->].
      exists bytes. reflexivity.
    - cbv zeta.
      destruct (attempt ai 2 (secondRecipe ai recipe)) as [img|] eqn:E2.
      + intros _. destruct (@attempt_url ai 2 _ img E2) as [bytes ->].
        exists bytes. reflexivity.
      + discriminate. }
  assert (Hacc : isValid (run_loop ai recipe) = true ->
                 exists bytes,
                   imageArea (finalRecipeState ai recipe)
                   = ShowImage (dataURL (js "image/jpeg") bytes)
                   /\ generatedUrl (run_loop ai recipe)
                      = Some (dataURL (js "image/jpeg") bytes)).
  { intros Hv. destruct (Hurl Hv) as [bytes Hb]. exists bytes.
    split; [|exact Hb].
    unfold finalRecipeState, imageArea. cbv zeta. rewrite Hv, Hb. reflexivity. }
  assert (Hrej : isValid (run_loop ai recipe) = false ->
                 imageArea (finalRecipeState ai recipe) = ShowFailure).
  { intros Hv. unfold finalRecipeState, imageArea. cbv zeta. rewrite Hv.
    reflexivity. }
  split; [exact Hacc|]. split; [exact Hrej|].
  destruct (isValid (run_loop ai recipe)) eqn:Hv.
  - destruct (Hacc eq_refl) as (bytes & -> & _). discriminate.
  - rewrite (Hrej eq_refl). discriminate.
Qed.

(** X9.  The card of a recipe whose image loop has settled never shows the
    placeholder: it shows the accepted image, a JPEG data URL, when the loop
    accepted one, and the failure panel when it did not.  The card of a
    recipe as the gateway returns it, without image and failure flag, shows
    the placeholder. *)
Theorem card_after_settle (ai : GoogleGenAI) (recipe : Recipe) :
  (isValid (run_loop ai recipe) = true ->
   exists bytes,
     imageArea (finalRecipeState ai recipe)
     = ShowImage (dataURL (js "image/jpeg") bytes)
     /\ generatedUrl (run_loop ai recipe)
        = Some (dataURL (js "image/jpeg") bytes))
  /\ (isValid (run_loop ai recipe) = false ->
      imageArea (finalRecipeState ai recipe) = ShowFailure)
  /\ imageArea (finalRecipeState ai recipe) <> ShowPending
  /\ (plain recipe -> imageArea recipe = ShowPending).
Proof.
  destruct (final_card ai recipe) as (H1 & H2 & H3).
  split; [exact H1|]. split; [exact H2|]. split; [exact H3|].
  intros [Hu He]. unfold imageArea. rewrite Hu, He. reflexivity.
Qed.

Lemma card_after_settle_witness :
  (exists bytes,
      imageArea (finalRecipeState ai_no_then_yes sampleRecipe)
      = ShowImage (dataURL (js "image/jpeg") bytes)
      /\ generatedUrl (run_loop ai_no_then_yes sampleRecipe)
         = Some (dataURL (js "image/jpeg") bytes))
  /\ imageArea (finalRecipeState ai_always_no sampleRecipe) = ShowFailure
  /\ imageArea sampleRecipe = ShowPending.
Proof.
  split; [|split].
  - apply (proj1 (card_after_settle ai_no_then_yes sampleRecipe)).
    vm_compute. reflexivity.
  - apply (proj1 (proj2 (card_after_settle ai_always_no sampleRecipe))).
    vm_compute. reflexivity.
  - apply (proj2 (proj2 (proj2 (card_after_settle ai_always_yes sampleRecipe)))).
    split; reflexivity.
Defined.

(** An integer from 2^53 on rounds to a double from 2^53 on, or to
    Infinity. *)
Lemma to_double_large (z : Z) :
  (2 ^ 53 <= z)%Z ->
  (exists m, to_double z = Num m /\ (2 ^ 53 <= m)%Z)
  \/ to_double z = Infinity false.
Proof.
  intros Hz.
  assert (H53 : (2 ^ 53 = 9007199254740992)%Z) by reflexivity.
  unfold to_double. cbv zeta.
  rewrite (Z.abs_eq z) by lia.
  destruct (Z.ltb_spec z (2 ^ 53)) as [Hlt|_]; [lia|].
  assert (Hlog : (53 <= Z.log2 z)%Z) by (apply Z.log2_le_pow2; lia).
  set (e := (Z.log2 z - 52)%Z).
  assert (He : (2 <= 2 ^ e)%Z)
    by (change 2%Z with (2 ^ 1)%Z at 1; apply Z.pow_le_mono_r; lia).
  assert (Hle : (2 ^ e * 2 ^ 52 <= z)%Z).
  { rewrite <- Z.pow_add_r by lia.
    replace (e + 52)%Z with (Z.log2 z) by lia. apply Z.log2_spec; lia. }
  assert (Hq : (2 ^ 52 <= z / 2 ^ e)%Z)
    by (apply Z.div_le_lower_bound; lia).
  set (q' := if (z mod 2 ^ e <? 2 ^ (e - 1))%Z then (z / 2 ^ e)%Z
             else if (2 ^ (e - 1) <? z mod 2 ^ e)%Z then (z / 2 ^ e + 1)%Z
                  else if Z.even (z / 2 ^ e) then (z / 2 ^ e)%Z
                       else (z / 2 ^ e + 1)%Z).
  assert (Hq' : (2 ^ 52 <= q')%Z).
  { subst q'. destruct (z mod 2 ^ e <? 2 ^ (e - 1))%Z; [exact Hq|].
    destruct (2 ^ (e - 1) <? z mod 2 ^ e)%Z; [lia|].
    destruct (Z.even (z / 2 ^ e)); lia. }
  assert (H52 : (2 ^ 52 = 4503599627370496)%Z) by reflexivity.
  destruct (2 ^ 1024 <=? q' * 2 ^ e)%Z.
  - right. f_equal. apply Z.ltb_ge. lia.
  - left. exists (Z.sgn z * (q' * 2 ^ e))%Z. split; [reflexivity|].
    rewrite Z.sgn_pos by lia. nia.
Qed.

(** A positive integer rounds to a positive double, or to Infinity. *)
Lemma to_double_pos (z : Z) :
  (0 < z)%Z ->
  (exists m, to_double z = Num m /\ (0 < m)%Z) \/ to_double z = Infinity false.
Proof.
  intros Hz.
  assert (H53 : (2 ^ 53 = 9007199254740992)%Z) by reflexivity.
  destruct (Z.le_gt_cases (2 ^ 53) z) as [Hge|Hlt].
  - destruct (to_double_large Hge) as [(m & E & Hm)|E]; [left|right; exact E].
    exists m. split; [exact E|lia].
  - left. exists z. split; [apply to_double_exact; lia|exact Hz].
Qed.

(** Seconds below 2^53 were not rounded. *)
Lemma exact_of_small (amount : jsstring) (u : unit_kind) (t : Z) :
  digits amount -> rounded_seconds amount u = Num t -> (t < 2 ^ 53)%Z ->
  exact_seconds amount u.
Proof.
  intros Ha E Ht. pose proof (digits_value_nonneg Ha) as Hpos.
  assert (H53 : (2 ^ 53 = 9007199254740992)%Z) by reflexivity.
  unfold exact_seconds.
  set (f := match u with Hours => 3600%Z | Minutes => 60%Z end) in *.
  assert (Hf : (1 <= f)%Z) by (subst f; destruct u; lia).
  destruct (Z.le_gt_cases (digits_value amount * f) (2 ^ 53)) as [H|H];
    [exact H|exfalso].
  unfold rounded_seconds in E. fold f in E.
  destruct (Z.le_gt_cases (2 ^ 53) (digits_value amount)) as [Hbig|Hsmall].
  - destruct (to_double_large Hbig) as [(m & Em & Hm)|Em];
      rewrite Em in E; cbn [mul] in E.
    + destruct (@to_double_large (m * f) ltac:(nia)) as [(m' & Em' & Hm')|Em'];
        rewrite Em' in E; [injection E as <-; lia|discriminate E].
    + destruct (f =? 0)%Z; discriminate E.
  - rewrite (@to_double_exact (digits_value amount)) in E by lia.
    cbn [mul] in E.
    destruct (@to_double_large (digits_value amount * f) ltac:(lia))
      as [(m' & Em' & Hm')|Em'];
      rewrite Em' in E; [injection E as <-; lia|discriminate E].
Qed.

(** The rounded seconds of an amount are zero exactly for the amount zero,
    and otherwise positive or Infinity. *)
Lemma truthy_rounded_seconds (amount : jsstring) (u : unit_kind) :
  digits amount ->
  truthy_seconds (Some (rounded_seconds amount u))
  = negb (digits_value amount =? 0)%Z.
Proof.
  intros Ha. pose proof (digits_value_nonneg Ha) as Hpos.
  unfold rounded_seconds.
  destruct (Z.eqb_spec (digits_value amount) 0) as [->|Hne].
  - destruct u; reflexivity.
  - assert (Hf : (0 < match u with Hours => 3600 | Minutes => 60 end)%Z)
      by (destruct u; lia).
    destruct (@to_double_pos (digits_value amount) ltac:(lia))
      as [(m & -> & Hm)| ->].
    + cbn [mul].
      destruct (@to_double_pos
                  (m * match u with Hours => 3600 | Minutes => 60 end)
                  ltac:(nia)) as [(m' & -> & Hm')| ->].
      * cbn [truthy_seconds negb]. apply negb_true_iff, Z.eqb_neq. lia.
      * reflexivity.
    + cbn [mul]. destruct u; reflexivity.
Qed.

(** X10.  An instruction step shows a timer button exactly when its first
    duration phrase has an amount other than zero.  The button passes to
    [onStartTimer] the step itself as the description and the seconds of
    that phrase as doubles give them: the amount, rounded, times 3600 or
    60, rounded.  As long as the amount times 3600 or 60 is at most 2^53,
    nothing is rounded: the seconds are that product, a positive whole
    number of minutes.  A step without a phrase, or whose first phrase is
    of zero minutes or hours, has no button. *)
Theorem timer_button (step : jsstring) :
  match timerButton step with
  | Some (t, description_) =>
      description_ = step
      /\ exists i amount u,
           phrase_at step i amount u
           /\ (forall j amount' u', j < i -> ~ phrase_at step j amount' u')
           /\ digits_value amount <> 0%Z
           /\ t = rounded_seconds amount u
           /\ (exact_seconds amount u ->
               t = seconds amount u
               /\ exists minutes, (0 < minutes)%Z /\ t = Num (60 * minutes))
  | None =>
      (forall i amount u, ~ phrase_at step i amount u)
      \/ exists i amount u,
           phrase_at step i amount u
           /\ (forall j amount' u', j < i -> ~ phrase_at step j amount' u')
           /\ digits_value amount = 0%Z
  end.
Proof.
  unfold timerButton. cbv zeta.
  destruct (parse_cases step) as [Htext [[Hnone Hno]|Hsome]].
  - rewrite Hnone. cbn. left. exact Hno.
  - destruct Hsome as (i & amount & u & Hat & Hfirst & Ha & Ht).
    rewrite Ht, Htext, (truthy_rounded_seconds u Ha).
    pose proof (digits_value_nonneg Ha) as Hpos.
    destruct (Z.eqb_spec (digits_value amount) 0) as [Hz|Hnz]; cbn [negb].
    + right. exists i, amount, u. split; [exact Hat|]. split; [exact Hfirst|].
      exact Hz.
    + split; [reflexivity|].
      exists i, amount, u. split; [exact Hat|]. split; [exact Hfirst|].
      split; [exact Hnz|]. split; [reflexivity|].
      intros Hex. split; [apply rounded_seconds_exact; assumption|].
      rewrite (rounded_seconds_exact Ha Hex).
      exists (digits_value amount * match u with Hours => 60 | Minutes => 1 end)%Z.
      unfold seconds. split; [destruct u; lia|f_equal; destruct u; lia].
Qed.

Lemma timer_button_witness :
  timerButton (js "Boil for 10 minutes")
  = Some (Num 600, js "Boil for 10 minutes")
  /\ exists minutes, (0 < minutes)%Z /\ Num 600 = Num (60 * minutes).
Proof.
  pose proof (timer_button (js "Boil for 10 minutes")) as H.
  assert (E : timerButton (js "Boil for 10 minutes")
              = Some (Num 600, js "Boil for 10 minutes"))
    by (vm_compute; reflexivity).
  split; [exact E|].
  rewrite E in H.
  destruct H as (_ & i & amount & u & Hat & Hfirst & _ & Ht & Hm).
  assert (Ha : digits amount)
    by (destruct Hat as (_ & _ & _ & _ & _ & (_ & _ & _ & _ & _ & Ha & _));
        exact Ha).
  assert (Hex : exact_seconds amount u)
    by (apply (@exact_of_small amount u 600 Ha (eq_sym Ht)); reflexivity).
  exact (proj2 (Hm Hex)).
Defined.

(* ================================================================== *)
(** * The timer widget *)
(* ================================================================== *)






Lemma tick_active (w : Widget) :
  isActive w = true -> (0 < timeLeft w)%Z ->
  tick w = {| widgetDuration := widgetDuration w;
              widgetDescription := widgetDescription w;
              timeLeft := timeLeft w - 1;
              isActive := (0 <? timeLeft w - 1)%Z |}.
Proof.
  intros Ea Ht. unfold tick, ticking, update, firstEffect, ticking.
  rewrite Ea. cbn [andb timeLeft isActive].
  destruct (Z.ltb_spec 0 (timeLeft w)); [|lia].
  destruct (Z.eqb_spec (timeLeft w - 1) (timeLeft w)); [lia|]. cbn [andb].
  destruct (Z.ltb_spec 0 (timeLeft w - 1)); [reflexivity|].
  destruct (Z.eqb_spec (timeLeft w - 1) 0); [reflexivity|lia].
Qed.

Lemma tick_stopped (w : Widget) : ticking w = false -> tick w = w.
Proof. unfold tick. intros ->. reflexivity. Qed.

Lemma countdown_from (n : nat) (w : Widget) :
  isActive w = true -> (0 < timeLeft w)%Z ->
  widgetRun (repeat Tick n) w
  = {| widgetDuration := widgetDuration w;
       widgetDescription := widgetDescription w;
       timeLeft := Z.max 0 (timeLeft w - Z.of_nat n);
       isActive := (Z.of_nat n <? timeLeft w)%Z |}.
Proof.
  unfold widgetRun. revert w.
  induction n as [|n IH]; intros w Ea Ht.
  - cbn [repeat fold_left]. destruct w as [d desc t a]; cbn in *.
    subst a. f_equal; [lia|]. symmetry. apply Z.ltb_lt. lia.
  - cbn [repeat fold_left widgetStep]. rewrite (tick_active w Ea Ht).
    destruct (Z.ltb_spec 0 (timeLeft w - 1)) as [Hpos|Hzero].
    + rewrite IH; cbn [widgetDuration widgetDescription timeLeft isActive];
        [|reflexivity|exact Hpos].
      f_equal; [lia|].
      destruct (Z.ltb_spec (Z.of_nat n) (timeLeft w - 1)),
               (Z.ltb_spec (Z.of_nat (S n)) (timeLeft w)); try reflexivity; lia.
    + assert (Hstop : forall m w', ticking w' = false ->
                                   fold_left widgetStep (repeat Tick m) w' = w').
      { intros m. induction m as [|m IHm]; intros w' Hw';
          cbn [repeat fold_left widgetStep];
          [reflexivity|]. rewrite (tick_stopped w' Hw'). apply IHm, Hw'. }
      rewrite Hstop by reflexivity.
      f_equal; [lia|].
      symmetry. apply Z.ltb_ge. lia.
Qed.

(** X12.  A widget mounted with a positive duration of at most 2^53
    seconds, the range in which doubles count in steps of one, counts down
    one second per firing of its interval: after [n] firings it shows the
    duration less [n], runs as long as that is positive, and stays stopped
    at zero from the firing that reaches it on; it never shows a negative
    time. *)
Theorem widget_countdown (duration_ : Z) (description_ : jsstring) (n : nat) :
  (0 < duration_ <= 2 ^ 53)%Z ->
  widgetRun (repeat Tick n) (mountWidget duration_ description_)
  = {| widgetDuration := duration_; widgetDescription := description_;
       timeLeft := Z.max 0 (duration_ - Z.of_nat n);
       isActive := (Z.of_nat n <? duration_)%Z |}.
Proof.
  intros [Hd _].
  apply (@countdown_from n (mountWidget duration_ description_));
    [reflexivity|exact Hd].
Qed.

Lemma widget_countdown_witness :
  widgetRun (repeat Tick 700) (mountWidget 600 (js "Boil for 10 minutes"))
  = {| widgetDuration := 600; widgetDescription := js "Boil for 10 minutes";
       timeLeft := Z.max 0 (600 - Z.of_nat 700);
       isActive := (Z.of_nat 700 <? 600)%Z |}.
Proof.
  apply (@widget_countdown 600 (js "Boil for 10 minutes") 700).
  split; [reflexivity|discriminate].
Defined.

(** X13.  The controls of a running widget.  Pausing keeps the time shown
    and no firing changes it while paused; pausing and resuming gives the
    state back.  Reset puts a widget of positive duration back to its
    duration, running.  Props equal to the current ones do not restart the
    timer, so that starting the timer of the same step again has no effect;
    other props with a positive duration restart it as a mount does. *)
Theorem widget_controls (w : Widget) :
  (isActive w = true -> (0 < timeLeft w)%Z ->
   timeLeft (togglePause w) = timeLeft w
   /\ (forall n, widgetRun (repeat Tick n) (togglePause w) = togglePause w)
   /\ togglePause (togglePause w) = w)
  /\ ((0 < widgetDuration w)%Z ->
      handleResetTimer w
      = mountWidget (widgetDuration w) (widgetDescription w))
  /\ receiveProps (widgetDuration w) (widgetDescription w) w = w
  /\ (forall duration_ description_,
         (0 < duration_)%Z ->
         duration_ <> widgetDuration w
         \/ jsstring_eqb description_ (widgetDescription w) = false ->
         receiveProps duration_ description_ w
         = mountWidget duration_ description_).
Proof.
  split; [|split; [|split]].
  - intros Ea Ht.
    assert (Hp : togglePause w
                 = {| widgetDuration := widgetDuration w;
                      widgetDescription := widgetDescription w;
                      timeLeft := timeLeft w; isActive := false |}).
    { unfold togglePause, isFinished, update, firstEffect, ticking.
      rewrite Ea. cbn [negb andb timeLeft isActive Bool.eqb].
      destruct (Z.eqb_spec (timeLeft w) 0); [lia|].
      rewrite Z.eqb_refl. cbn [andb].
      destruct (Z.eqb_spec (timeLeft w) 0); [lia|reflexivity]. }
    split; [rewrite Hp; reflexivity|]. split.
    + intros n. rewrite Hp. unfold widgetRun.
      induction n as [|n IH]; cbn [repeat fold_left widgetStep]; [reflexivity|].
      rewrite tick_stopped by reflexivity. exact IH.
    + rewrite Hp. unfold togglePause, isFinished, update, firstEffect, ticking.
      cbn [negb andb timeLeft isActive Bool.eqb widgetDuration widgetDescription].
      destruct (Z.eqb_spec (timeLeft w) 0); [lia|].
      rewrite Z.eqb_refl. cbn [andb].
      destruct (Z.ltb_spec 0 (timeLeft w)); [|lia].
      destruct w as [d desc t a]; cbn in *. subst a. reflexivity.
  - intros Hd. unfold handleResetTimer, update, firstEffect, ticking, mountWidget.
    cbn [timeLeft isActive andb widgetDuration widgetDescription].
    destruct (Z.eqb_spec (widgetDuration w) (timeLeft w)) as [E|E]; cbn [andb].
    + destruct (isActive w) eqn:Ea; cbn [Bool.eqb].
      * destruct w as [d desc t a]; cbn in *. subst. reflexivity.
      * destruct (Z.ltb_spec 0 (widgetDuration w)); [reflexivity|lia].
    + destruct (Z.ltb_spec 0 (widgetDuration w)); [reflexivity|lia].
  - unfold receiveProps. rewrite Z.eqb_refl.
    assert (jsstring_eqb (widgetDescription w) (widgetDescription w) = true) as ->
      by (apply jsstring_eqb_true; reflexivity).
    reflexivity.
  - intros d desc Hd Hdiff. unfold receiveProps.
    assert ((d =? widgetDuration w)%Z && jsstring_eqb desc (widgetDescription w)
            = false) as ->.
    { destruct Hdiff as [H|H].
      - apply Z.eqb_neq in H. rewrite H. reflexivity.
      - rewrite H. apply andb_false_r. }
    unfold update, firstEffect, ticking, mountWidget.
    cbn [timeLeft isActive andb widgetDuration widgetDescription].
    destruct (Z.eqb_spec d (timeLeft w)) as [E|E]; cbn [andb].
    + destruct (isActive w) eqn:Ea; cbn [Bool.eqb].
      * rewrite <- E. reflexivity.
      * destruct (Z.ltb_spec 0 d); [reflexivity|lia].
    + destruct (Z.ltb_spec 0 d); [reflexivity|lia].
Qed.

Lemma widget_controls_witness :
  togglePause (togglePause (mountWidget 600 (js "Boil for 10 minutes")))
  = mountWidget 600 (js "Boil for 10 minutes")
  /\ receiveProps 60 (js "Rest for 1 minute")
       (mountWidget 600 (js "Boil for 10 minutes"))
     = mountWidget 60 (js "Rest for 1 minute").
Proof.
  split.
  - apply (proj1 (widget_controls (mountWidget 600 (js "Boil for 10 minutes"))));
      [reflexivity|cbn; lia].
  - apply (proj2 (proj2 (proj2
             (widget_controls (mountWidget 600 (js "Boil for 10 minutes")))))).
    + lia.
    + left. cbn. lia.
Defined.

(* ================================================================== *)
(** * The time on the widget *)
(* ================================================================== *)

Lemma size_nat_bound (p : positive) :
  (N.pos p < 2 ^ N.of_nat (Pos.size_nat p))%N.
Proof.
  induction p as [p IH|p IH|]; cbn [Pos.size_nat];
    [| |reflexivity];
    rewrite Nnat.Nat2N.inj_succ, N.pow_succ_r' by lia;
    set (b := (2 ^ N.of_nat (Pos.size_nat p))%N) in *; lia.
Qed.

Lemma decimal_fuel (n : N) : (n < 10 ^ N.of_nat (S (N.size_nat n)))%N.
Proof.
  rewrite Nnat.Nat2N.inj_succ, N.pow_succ_r'.
  assert (H : (n < 2 ^ N.of_nat (N.size_nat n))%N).
  { destruct n as [|p]; [cbn; lia|apply size_nat_bound]. }
  assert (H2 : (2 ^ N.of_nat (N.size_nat n) <= 10 ^ N.of_nat (N.size_nat n))%N)
    by (apply N.pow_le_mono_l; lia).
  lia.
Qed.

Lemma digits_value_snoc (w : jsstring) (d : N) :
  digits_value (w ++ [d]) = (digits_value w * 10 + (Z.of_N d - 48))%Z.
Proof. unfold digits_value. rewrite fold_left_app. reflexivity. Qed.

Lemma decimal_digits_spec (fuel : nat) :
  forall n, (n < 10 ^ N.of_nat (S fuel))%N ->
    digits_value (decimal_digits fuel n) = Z.of_N n
    /\ Forall (fun c => is_digit c = true) (decimal_digits fuel n)
    /\ (1 <= length (decimal_digits fuel n))%nat
    /\ ((10 <= n)%N -> (2 <= length (decimal_digits fuel n))%nat)
    /\ ((n < 100)%N -> (length (decimal_digits fuel n) <= 2)%nat).
Proof.
  assert (Hdigit : forall d, (d < 10)%N -> is_digit (48 + d) = true).
  { intros d Hd. unfold is_digit, in_range.
    apply andb_true_intro. split; apply N.leb_le; lia. }
  induction fuel as [|fuel IH]; intros n Hn.
  - assert (Hlt : (n < 10)%N) by (cbn in Hn; lia).
    cbn [decimal_digits]. apply N.ltb_lt in Hlt as E. rewrite E.
    unfold digits_value. cbn [fold_left length].
    split; [lia|]. split; [repeat constructor; apply Hdigit, Hlt|].
    split; [lia|]. split; lia.
  - cbn [decimal_digits].
    destruct (N.ltb_spec n 10) as [Hlt|Hge].
    + unfold digits_value. cbn [fold_left length].
      split; [lia|]. split; [repeat constructor; apply Hdigit, Hlt|].
      split; [lia|]. split; lia.
    + assert (Hq : (n / 10 < 10 ^ N.of_nat (S fuel))%N).
      { rewrite Nnat.Nat2N.inj_succ, N.pow_succ_r' in Hn.
        apply N.Div0.div_lt_upper_bound. exact Hn. }
      destruct (IH _ Hq) as (Hv & Hd & Hl1 & Hl2 & Hl3).
      pose proof (N.mod_upper_bound n 10 ltac:(lia)) as Hm.
      pose proof (N.div_mod n 10 ltac:(lia)) as Hdm.
      rewrite digits_value_snoc, Hv, length_app. cbn [length].
      split; [lia|].
      split; [apply Forall_app; split; [exact Hd|
                repeat constructor; apply Hdigit, Hm]|].
      split; [lia|]. split; [lia|].
      intros H100.
      assert (Hq10 : (n / 10 < 10)%N)
        by (apply N.Div0.div_lt_upper_bound; lia).
      assert (length (decimal_digits fuel (n / 10)) = 1%nat).
      { destruct fuel; cbn [decimal_digits];
          apply N.ltb_lt in Hq10 as ->; reflexivity. }
      lia.
Qed.

Lemma decimal_spec (n : N) :
  digits_value (decimal n) = Z.of_N n
  /\ Forall (fun c => is_digit c = true) (decimal n)
  /\ (1 <= length (decimal n))%nat
  /\ ((10 <= n)%N -> (2 <= length (decimal n))%nat)
  /\ ((n < 100)%N -> (length (decimal n) <= 2)%nat).
Proof. apply decimal_digits_spec, decimal_fuel. Qed.

Lemma digits_value_zeros (k : nat) (w : jsstring) :
  digits_value (repeat 48%N k ++ w) = digits_value w.
Proof.
  unfold digits_value. rewrite fold_left_app. f_equal.
  induction k as [|k IH]; [reflexivity|exact IH].
Qed.

Lemma padStart_decimal (n : N) :
  let w := padStart (decimal n) 2 48 in
  digits_value w = Z.of_N n
  /\ digits w
  /\ (2 <= length w)%nat
  /\ ((n < 100)%N -> length w = 2%nat).
Proof.
  intros w. subst w. unfold padStart.
  destruct (decimal_spec n) as (Hv & Hd & Hl1 & Hl2 & Hl3).
  rewrite digits_value_zeros, length_app, repeat_length.
  split; [exact Hv|]. split; [|split; [lia|intros H; specialize (Hl3 H); lia]].
  split.
  - intros E. apply (f_equal (@length N)) in E.
    rewrite length_app in E. cbn in E. lia.
  - apply Forall_app. split; [|exact Hd].
    apply Forall_forall. intros c Hc. apply repeat_spec in Hc. subst c.
    reflexivity.
Qed.

(** X14.  For a time of zero seconds or more, up to 2^53, [formatTime]
    writes the whole minutes, a colon and the remaining seconds, each in
    decimal digits: the seconds with exactly two digits and a value below
    60, the minutes with at least two digits (exactly two below 100
    minutes), so that the time can be read back from the text.  A whole
    number of minutes ends in ":00". *)
Theorem format_time_reads_back (t : Z) :
  (0 <= t <= 2 ^ 53)%Z ->
  exists mm ss,
    formatTime (Num t) = Some (mm ++ js ":" ++ ss)
    /\ digits mm /\ digits ss
    /\ length ss = 2%nat /\ (2 <= length mm)%nat
    /\ (digits_value ss < 60)%Z
    /\ (digits_value mm * 60 + digits_value ss)%Z = t
    /\ parseInt10 mm = Num (t / 60)
    /\ ((t < 6000)%Z -> length mm = 2%nat)
    /\ ((t mod 60 = 0)%Z -> ss = js "00").
Proof.
  intros [Ht Hmax].
  assert (H53 : (2 ^ 53 = 9007199254740992)%Z) by reflexivity.
  assert (H21 : (10 ^ 21 = 1000000000000000000000)%Z) by reflexivity.
  assert (Hq : (0 <= t / 60)%Z) by (apply Z.div_pos; lia).
  assert (Hq' : (t / 60 <= t)%Z) by (apply Z.div_le_upper_bound; lia).
  assert (Hr : Z.rem t 60 = (t mod 60)%Z) by (apply Z.rem_mod_nonneg; lia).
  pose proof (Z.mod_pos_bound t 60 ltac:(lia)) as Hm.
  pose proof (Z.div_mod t 60 ltac:(lia)) as Hdm.
  unfold formatTime, floor_div, remainder, String_of. cbv zeta.
  change ((0 <? 60)%Z && (60 <=? 2 ^ 53)%Z) with true. cbv iota.
  rewrite (Z.abs_eq t) by lia.
  destruct (Z.leb_spec t (2 ^ 53)); [|lia].
  change (60 =? 0)%Z with false. cbv iota.
  rewrite (Z.abs_eq (t / 60)), (Z.abs_eq (Z.rem t 60)) by lia.
  destruct (Z.ltb_spec (t / 60) (10 ^ 21)); [|lia].
  destruct (Z.ltb_spec (Z.rem t 60) (10 ^ 21)); [|lia].
  destruct (Z.ltb_spec (t / 60) 0); [lia|].
  destruct (Z.ltb_spec (Z.rem t 60) 0); [lia|].
  destruct (padStart_decimal (Z.to_N (t / 60))) as (Hv1 & Hd1 & Hl1 & Hs1).
  destruct (padStart_decimal (Z.to_N (Z.rem t 60))) as (Hv2 & Hd2 & Hl2 & Hs2).
  exists (padStart (decimal (Z.to_N (t / 60))) 2 48),
         (padStart (decimal (Z.to_N (Z.rem t 60))) 2 48).
  split; [reflexivity|]. split; [exact Hd1|]. split; [exact Hd2|].
  split; [apply Hs2; lia|]. split; [exact Hl1|].
  split; [rewrite Hv2; lia|]. split; [rewrite Hv1, Hv2; lia|].
  split.
  { rewrite (@parseInt10_digits _ Hd1), Hv1, Z2N.id by lia.
    apply to_double_exact. lia. }
  split.
  - intros H6000. apply Hs1.
    assert (t / 60 < 100)%Z by (apply Z.div_lt_upper_bound; lia). lia.
  - intros Hzero. rewrite Hr, Hzero. reflexivity.
Qed.

Lemma format_time_reads_back_witness :
  exists mm ss,
    formatTime (Num 605) = Some (mm ++ js ":" ++ ss)
    /\ digits mm /\ digits ss
    /\ length ss = 2%nat /\ (2 <= length mm)%nat
    /\ (digits_value ss < 60)%Z
    /\ (digits_value mm * 60 + digits_value ss)%Z = 605%Z
    /\ parseInt10 mm = Num (605 / 60)
    /\ ((605 < 6000)%Z -> length mm = 2%nat)
    /\ ((605 mod 60 = 0)%Z -> ss = js "00").
Proof.
  apply (@format_time_reads_back 605%Z). split; [discriminate|discriminate].
Defined.

(* ================================================================== *)
(** * The loading tips *)
(* ================================================================== *)

Lemma random_index_in_range (x : QArith_base.Q) (bound : nat) :
  unit_draw x -> 0 < bound -> random_index x bound < bound.
Proof.
  intros [H0 H1] Hb. unfold random_index.
  destruct x as [n d].
  unfold QArith_base.Qle, QArith_base.Qlt in H0, H1. cbn in H0, H1.
  unfold Qround.Qfloor, QArith_base.Qmult, QArith_base.inject_Z.
  cbn [QArith_base.Qnum QArith_base.Qden].
  rewrite Pos.mul_1_r.
  assert (Hlt : (n * Z.of_nat bound / Z.pos d < Z.of_nat bound)%Z)
    by (apply Z.div_lt_upper_bound; nia).
  assert (Hge : (0 <= n * Z.of_nat bound / Z.pos d)%Z)
    by (apply Z.div_pos; nia).
  lia.
Qed.

Lemma set_index_at {A} (l1 l2 : list A) (a v : A) (i : nat) :
  length l1 = i -> set_index (l1 ++ a :: l2) i v = l1 ++ v :: l2.
Proof.
  intros <-. unfold set_index.
  rewrite firstn_app, Nat.sub_diag, firstn_all, firstn_O, app_nil_r.
  rewrite skipn_app, skipn_all2 by lia.
  replace (S (length l1) - length l1) with 1 by lia. reflexivity.
Qed.

Lemma swap_ordered {A} (l : list A) (i j : nat) (a b : A) :
  i < j -> nth_error l i = Some a -> nth_error l j = Some b ->
  exists l1 l2 l3,
    l = l1 ++ a :: l2 ++ b :: l3
    /\ length l1 = i /\ length (l1 ++ a :: l2) = j.
Proof.
  intros Hij Ha Hb.
  apply nth_error_split in Ha as (l1 & rest & -> & Hl1).
  rewrite nth_error_app2 in Hb by lia.
  replace (j - length l1) with (S (j - length l1 - 1)) in Hb by lia.
  cbn [nth_error] in Hb.
  apply nth_error_split in Hb as (l2 & l3 & -> & Hl2).
  exists l1, l2, l3. split; [reflexivity|]. split; [exact Hl1|].
  rewrite length_app. cbn [length]. lia.
Qed.

Lemma swap_ends {A} (l2 l3 : list A) (a b : A) :
  Permutation (a :: l2 ++ b :: l3) (b :: l2 ++ a :: l3).
Proof.
  transitivity (a :: b :: l2 ++ l3);
    [apply perm_skip; symmetry; apply Permutation_middle|].
  transitivity (b :: a :: l2 ++ l3); [apply perm_swap|].
  apply perm_skip, Permutation_middle.
Qed.

Lemma swap_Permutation {A} (l l' : list A) (i j : nat) :
  swap l i j = Some l' -> Permutation l l'.
Proof.
  unfold swap.
  destruct (nth_error l i) as [a|] eqn:Ha; [|discriminate].
  destruct (nth_error l j) as [b|] eqn:Hb; [|discriminate].
  intros [= <-].
  destruct (Nat.lt_trichotomy i j) as [Hij|[->|Hji]].
  - destruct (swap_ordered l Hij Ha Hb) as (l1 & l2 & l3 & -> & H1 & H2).
    rewrite (set_index_at l1 (l2 ++ b :: l3) a b H1).
    replace (l1 ++ b :: l2 ++ b :: l3) with ((l1 ++ b :: l2) ++ b :: l3)
      by (rewrite <- app_assoc; reflexivity).
    rewrite (@set_index_at _ (l1 ++ b :: l2) l3 b a j)
      by (rewrite length_app in *; cbn [length] in *; lia).
    rewrite <- app_assoc. cbn [app].
    apply Permutation_app_head.
    apply swap_ends.
  - assert (a = b) as <- by congruence.
    apply nth_error_split in Ha as (l1 & l2 & -> & H1).
    rewrite (set_index_at l1 l2 a a H1), (set_index_at l1 l2 a a H1).
    reflexivity.
  - destruct (swap_ordered l Hji Hb Ha) as (l1 & l2 & l3 & -> & H1 & H2).
    replace (l1 ++ b :: l2 ++ a :: l3) with ((l1 ++ b :: l2) ++ a :: l3)
      by (rewrite <- app_assoc; reflexivity).
    rewrite (@set_index_at _ (l1 ++ b :: l2) l3 a b i H2).
    rewrite <- !app_assoc. cbn [app].
    rewrite (set_index_at l1 (l2 ++ b :: l3) b a H1).
    apply Permutation_app_head.
    apply swap_ends.
Qed.

Lemma swap_defined {A} (l : list A) (i j : nat) :
  i < length l -> j < length l -> exists l', swap l i j = Some l'.
Proof.
  intros Hi Hj. unfold swap.
  destruct (nth_error l i) eqn:Ei; [|apply nth_error_None in Ei; lia].
  destruct (nth_error l j) eqn:Ej; [|apply nth_error_None in Ej; lia].
  eexists. reflexivity.
Qed.

Lemma shuffle_loop_spec {A} (random : nat -> QArith_base.Q) (i : nat) :
  (forall n, unit_draw (random n)) ->
  forall (k : nat) (l : list A),
    i < length l \/ i = 0 ->
    exists out,
      shuffle_loop random i k l = Some (out, k + i) /\ Permutation l out.
Proof.
  intros Hdraw.
  induction i as [|i IH]; intros k l Hi; cbn [shuffle_loop].
  - exists l. split; [rewrite Nat.add_0_r; reflexivity|reflexivity].
  - cbv zeta.
    assert (Hlen : S i < length l) by lia.
    pose proof (@random_index_in_range (random k) (S i + 1) (Hdraw k)
                  ltac:(lia)) as Hj.
    destruct (@swap_defined _ l (S i) (random_index (random k) (S i + 1))
                Hlen ltac:(lia)) as [l' Hswap].
    rewrite Hswap.
    pose proof (swap_Permutation _ _ _ Hswap) as Hp.
    destruct (IH (S k) l') as (out & Hout & Hperm).
    { left. rewrite <- (Permutation_length Hp). lia. }
    exists out. split; [rewrite Hout; do 2 f_equal; lia|].
    etransitivity; eassumption.
Qed.

(** X15.  With draws of [Math.random] in [0, 1), [shuffleArray] returns a
    permutation of its argument (the same elements, as often), after one
    draw for each position but the first: each index that it draws lies
    inside the array, so that no exchange stores [undefined] or extends the
    array. *)
Theorem shuffle_is_permutation {A} (random : nat -> QArith_base.Q)
  (array : list A) (k : nat) :
  (forall n, unit_draw (random n)) ->
  exists out,
    shuffleArray random array k = Some (out, k + (length array - 1))
    /\ Permutation array out
    /\ length out = length array.
Proof.
  intros Hdraw. unfold shuffleArray.
  destruct (@shuffle_loop_spec A random (length array - 1) Hdraw k array)
    as (out & Hout & Hp); [lia|].
  exists out. split; [exact Hout|]. split; [exact Hp|].
  symmetry. apply Permutation_length, Hp.
Qed.

Lemma sampleDraws_unit (n : nat) : unit_draw (sampleDraws n).
Proof.
  unfold sampleDraws. destruct (n <? 6)%nat; vm_compute;
    (split; [intros H; discriminate H|reflexivity]).
Qed.

Lemma shuffle_is_permutation_witness :
  exists out,
    shuffleArray sampleDraws tips 0 = Some (out, 0 + (length tips - 1))
    /\ Permutation tips out
    /\ length out = length tips.
Proof.
  apply (@shuffle_is_permutation jsstring sampleDraws tips 0).
  intros n. unfold sampleDraws. destruct (n <? 6)%nat; vm_compute;
    (split; [intros H; discriminate H|reflexivity]).
Defined.

Lemma tips_all_candidates :
  filter (fun t => match currentTip initialTips with
                   | Some cur => negb (jsstring_eqb t cur)
                   | None => true
                   end) tips = tips.
Proof. vm_compute. reflexivity. Qed.

Lemma skipn_S_nth {A} (l : list A) (i : nat) (x : A) :
  nth_error l i = Some x -> skipn i l = x :: skipn (S i) l.
Proof.
  revert l. induction i as [|i IH]; intros [|y l] H; try discriminate.
  - cbn in H. injection H as ->. reflexivity.
  - cbn [nth_error] in H. cbn [skipn]. rewrite (IH l H). reflexivity.
Qed.

(** A shuffled list on display: its first tip is shown, the firings of the
    interval go through the others in order. *)
Lemma tips_run (random : nat -> QArith_base.Q) (P : list jsstring)
  (m k : nat) :
  tipsAfter random m
  = Some ({| currentTip := nth_error P 0; remainingTips := skipn 1 P |}, k) ->
  forall i, i < length P ->
    tipsAfter random (m + i)
    = Some ({| currentTip := nth_error P i; remainingTips := skipn (S i) P |}, k).
Proof.
  intros Hm i. induction i as [|i IH]; intros Hi.
  - rewrite Nat.add_0_r. exact Hm.
  - rewrite Nat.add_succ_r. cbn [tipsAfter]. rewrite IH by lia.
    unfold tipsTick, intervalCallback. cbn [remainingTips].
    destruct (nth_error P (S i)) as [x|] eqn:Ex;
      [|apply nth_error_None in Ex; lia].
    rewrite (skipn_S_nth P (S i) Ex). reflexivity.
Qed.

Lemma tips_cycle_state (random : nat -> QArith_base.Q) :
  (forall n, unit_draw (random n)) ->
  forall c, exists P k,
    Permutation tips P
    /\ tipsAfter random (7 * c)
       = Some ({| currentTip := nth_error P 0; remainingTips := skipn 1 P |}, k).
Proof.
  intros Hdraw c. induction c as [|c (P & k & Hp & Hst)].
  - destruct (@shuffle_is_permutation jsstring random tips 0 Hdraw)
      as (P & HP & Hperm & _).
    exists P, (0 + (length tips - 1)). split; [exact Hperm|].
    rewrite Nat.mul_0_r. cbn [tipsAfter]. unfold mountTips.
    rewrite HP. reflexivity.
  - assert (Hlen : length P = 7)
      by (rewrite <- (Permutation_length Hp); reflexivity).
    pose proof (@tips_run random P (7 * c) k Hst 6 ltac:(lia)) as H6.
    destruct (@shuffle_is_permutation jsstring random tips k Hdraw)
      as (P' & HP' & Hperm' & _).
    exists P', (k + (length tips - 1)). split; [exact Hperm'|].
    replace (7 * S c) with (S (7 * c + 6)) by lia.
    cbn [tipsAfter]. rewrite H6.
    unfold tipsTick, intervalCallback. cbn [remainingTips].
    rewrite (skipn_all2 P) by lia.
    rewrite tips_all_candidates, HP'. reflexivity.
Qed.

(** X16.  With draws of [Math.random] in [0, 1), the tips on display go
    round in cycles of seven: the mount and each seventh firing of the
    interval shuffle all seven tips, and the seven tips shown from there on
    are that shuffle in order, each tip once.  The reshuffle does not leave
    out the tip on display, because the interval callback compares with the
    [currentTip] of the first render, the empty string: there are draws for
    which the tip shown last in one cycle is shown again first in the
    next. *)
Theorem tips_cycle :
  (forall random,
      (forall n, unit_draw (random n)) ->
      forall c, exists P,
        Permutation tips P
        /\ forall i, i < 7 -> shownTip random (7 * c + i) = nth_error P i)
  /\ (exists random,
        (forall n, unit_draw (random n))
        /\ shownTip random 6 = shownTip random 7
        /\ shownTip random 6 <> None).
Proof.
  split.
  - intros random Hdraw c.
    destruct (@tips_cycle_state random Hdraw c) as (P & k & Hp & Hst).
    exists P. split; [exact Hp|].
    intros i Hi. unfold shownTip.
    rewrite (@tips_run random P (7 * c) k Hst i)
      by (rewrite <- (Permutation_length Hp); exact Hi).
    reflexivity.
  - exists sampleDraws. split; [exact sampleDraws_unit|].
    split; [vm_compute; reflexivity|vm_compute; discriminate].
Qed.

Lemma tips_cycle_witness :
  exists P,
    Permutation tips P
    /\ forall i, i < 7 -> shownTip sampleDraws (7 * 1 + i) = nth_error P i.
Proof.
  apply (proj1 tips_cycle sampleDraws).
  intros n. unfold sampleDraws. destruct (n <? 6)%nat; vm_compute;
    (split; [intros H; discriminate H|reflexivity]).
Defined.

(* ================================================================== *)
(** * Base64 and the links that carry a recipe *)
(* ================================================================== *)

Ltac divmod := zify; Z.to_euclidean_division_equations; lia.

Ltac ranges :=
  repeat match goal with
         | |- context [(?a <=? ?b)%N] => destruct (N.leb_spec a b); try lia
         | |- context [(?a <? ?b)%N] => destruct (N.ltb_spec a b); try lia
         | |- context [(?a =? ?b)%N] => destruct (N.eqb_spec a b); try lia
         end;
  cbn [andb orb negb].

Lemma list_ind3 {A} (P : list A -> Prop) :
  P [] -> (forall a, P [a]) -> (forall a b, P [a; b]) ->
  (forall a b c l, P l -> P (a :: b :: c :: l)) ->
  forall l, P l.
Proof.
  intros H0 H1 H2 H3.
  fix IH 1. intros [|a [|b [|c l]]];
    [exact H0|apply H1|apply H2|apply H3, IH].
Qed.

Lemma base64_index_char (i : N) :
  (i < 64)%N -> base64_index (base64_char i) = Some i.
Proof.
  intros Hi. unfold base64_char.
  destruct (N.ltb_spec i 26); [|destruct (N.ltb_spec i 52);
    [|destruct (N.ltb_spec i 62); [|destruct (N.eqb_spec i 62)]]];
    unfold base64_index, in_range; ranges; f_equal; lia.
Qed.

Lemma base64_char_plain (i : N) :
  base64_char i <> 61%N /\ is_ascii_whitespace (base64_char i) = false.
Proof.
  unfold base64_char, is_ascii_whitespace.
  destruct (N.ltb_spec i 26); [|destruct (N.ltb_spec i 52);
    [|destruct (N.ltb_spec i 62); [|destruct (N.eqb_spec i 62)]]];
    (split; [lia|ranges; reflexivity]).
Qed.

Lemma base64_encode_parts (s : jsstring) :
  base64_encode s = map base64_char (sextets_of s) ++ padding_of s.
Proof.
  induction s as [|a|a b|a b c l IH] using list_ind3; try reflexivity.
  cbn [base64_encode sextets_of padding_of]. rewrite IH.
  rewrite map_app, <- app_assoc. reflexivity.
Qed.

Lemma sextets_of_small (s : jsstring) :
  latin1 s -> Forall (fun i => (i < 64)%N) (sextets_of s).
Proof.
  unfold latin1.
  induction s as [|a|a b|a b c l IH] using list_ind3; intros H;
    cbn [sextets_of].
  - constructor.
  - inversion H; subst. repeat constructor; divmod.
  - inversion H as [|? ? Ha H']; subst. inversion H'; subst.
    repeat constructor; divmod.
  - inversion H as [|? ? Ha H']; subst.
    inversion H' as [|? ? Hb H'']; subst.
    inversion H'' as [|? ? Hc H''']; subst.
    apply Forall_app. split; [repeat constructor; divmod|apply IH, H'''].
Qed.

Lemma decode_sextets_of (s : jsstring) :
  latin1 s -> decode_sextets (sextets_of s) = s.
Proof.
  unfold latin1.
  induction s as [|a|a b|a b c l IH] using list_ind3; intros H.
  - reflexivity.
  - inversion H; subst. cbn [sextets_of decode_sextets]. f_equal. divmod.
  - inversion H as [|? ? Ha H']; subst. inversion H'; subst.
    cbn [sextets_of decode_sextets]. f_equal; [divmod|f_equal; divmod].
  - inversion H as [|? ? Ha H']; subst.
    inversion H' as [|? ? Hb H'']; subst.
    inversion H'' as [|? ? Hc H''']; subst.
    cbn [sextets_of app decode_sextets]. rewrite (IH H''').
    f_equal; [divmod|f_equal; [divmod|f_equal; divmod]].
Qed.

Lemma sextets_chars (l : list N) :
  Forall (fun i => (i < 64)%N) l -> sextets (map base64_char l) = Some l.
Proof.
  induction 1 as [|i l Hi Hl IH]; [reflexivity|].
  cbn [map sextets]. rewrite (base64_index_char Hi), IH. reflexivity.
Qed.

Lemma strip_match (x : N) (r : list N) (C : jsstring) :
  x <> 61%N ->
  match x :: r with
  | 61%N :: 61%N :: r' => rev r'
  | 61%N :: r' => rev r'
  | _ => C
  end = C.
Proof.
  intros Hx. destruct x as [|p]; [reflexivity|].
  repeat (destruct p as [p|p|]; try reflexivity).
  contradiction.
Qed.

Lemma strip_match_one (y : N) (r : list N) (C : jsstring) :
  y <> 61%N ->
  match 61%N :: y :: r with
  | 61%N :: 61%N :: r' => rev r'
  | 61%N :: r' => rev r'
  | _ => C
  end = rev (y :: r).
Proof.
  intros Hy. destruct y as [|p]; [reflexivity|].
  repeat (destruct p as [p|p|]; try reflexivity).
  contradiction.
Qed.

Lemma strip_padding_parts (body pad : jsstring) :
  Forall (fun c => c <> 61%N) body ->
  pad = [] \/ pad = [61%N] \/ pad = [61%N; 61%N] ->
  (length (body ++ pad) mod 4 = 0)%nat ->
  strip_padding (body ++ pad) = body.
Proof.
  intros Hbody Hpad Hlen. unfold strip_padding.
  rewrite Hlen. cbn [Nat.eqb]. rewrite rev_app_distr.
  assert (Hhead : forall x r, rev body = x :: r -> x <> 61%N).
  { intros x r E. rewrite Forall_forall in Hbody. apply Hbody.
    apply in_rev. rewrite E. left. reflexivity. }
  destruct Hpad as [->|[->| ->]]; cbn [rev app].
  - rewrite app_nil_r.
    destruct (rev body) as [|x r] eqn:E; [reflexivity|].
    apply strip_match. exact (Hhead x r eq_refl).
  - destruct (rev body) as [|x r] eqn:E.
    + apply (f_equal (@rev N)) in E. rewrite rev_involutive in E.
      rewrite E. reflexivity.
    + etransitivity; [apply (@strip_match_one x r []), (Hhead x r eq_refl)|].
      rewrite <- (rev_involutive body), E. reflexivity.
  - apply rev_involutive.
Qed.

Lemma padding_of_cases (s : jsstring) :
  padding_of s = [] \/ padding_of s = [61%N] \/ padding_of s = [61%N; 61%N].
Proof.
  induction s as [|a|a b|a b c l IH] using list_ind3; cbn [padding_of]; auto.
Qed.

Lemma base64_lengths (s : jsstring) :
  (exists k, length (base64_encode s) = 4 * k)
  /\ (exists k r, length (sextets_of s) = r + k * 4 /\ (r = 0 \/ r = 2 \/ r = 3)).
Proof.
  induction s as [|a|a b|a b c l IH] using list_ind3.
  - split; [exists 0; reflexivity|exists 0, 0; auto].
  - split; [exists 1; reflexivity|exists 0, 2; auto].
  - split; [exists 1; reflexivity|exists 0, 3; auto].
  - destruct IH as [[k Hk] (k' & r & Hr & Hcase)].
    cbn [base64_encode sextets_of]. rewrite !length_app. cbn [length].
    split; [exists (S k); lia|exists (S k'), r; split; [lia|exact Hcase]].
Qed.

(** [atob] undoes [btoa]. *)
Lemma atob_base64_encode (s : jsstring) :
  latin1 s -> atob (base64_encode s) = Ok s.
Proof.
  intros Hs.
  destruct (base64_lengths s) as [[k Hk] (k' & r & Hr & Hcase)].
  assert (Hplain : Forall (fun c => c <> 61%N /\ is_ascii_whitespace c = false)
                     (map base64_char (sextets_of s))).
  { apply Forall_forall. intros c Hc. apply in_map_iff in Hc as (i & <- & _).
    apply base64_char_plain. }
  assert (Hfilter : filter (fun c => negb (is_ascii_whitespace c))
                      (base64_encode s) = base64_encode s).
  { apply forallb_filter_id. apply forallb_forall. intros c Hc.
    rewrite base64_encode_parts in Hc. apply in_app_or in Hc as [Hc|Hc].
    - rewrite Forall_forall in Hplain. destruct (Hplain c Hc) as [_ ->].
      reflexivity.
    - destruct (padding_of_cases s) as [E|[E|E]]; rewrite E in Hc;
        repeat destruct Hc as [<-|Hc]; try reflexivity; destruct Hc. }
  unfold atob. cbv zeta. rewrite Hfilter.
  assert (Hstrip : strip_padding (base64_encode s)
                   = map base64_char (sextets_of s)).
  { rewrite base64_encode_parts. apply strip_padding_parts.
    - eapply Forall_impl; [|exact Hplain]. intros c [H _]. exact H.
    - apply padding_of_cases.
    - rewrite <- base64_encode_parts, Hk, Nat.mul_comm.
      apply Nat.Div0.mod_mul. }
  rewrite Hstrip, length_map, Hr, Nat.Div0.mod_add.
  assert ((r mod 4 =? 1)%nat = false) as ->
    by (destruct Hcase as [->|[->| ->]]; reflexivity).
  rewrite (sextets_chars (sextets_of_small Hs)).
  rewrite (decode_sextets_of Hs). reflexivity.
Qed.

Lemma btoa_latin1 (s : jsstring) :
  (latin1 s -> btoa s = Ok (base64_encode s))
  /\ (~ latin1 s -> btoa s = Throw InvalidCharacterError).
Proof.
  unfold btoa, latin1.
  destruct (forallb (fun c => (c <=? 255)%N) s) eqn:E.
  - split; [reflexivity|]. intros H. exfalso. apply H.
    rewrite forallb_forall in E. apply Forall_forall. intros c Hc.
    apply N.leb_le, E, Hc.
  - split; [|reflexivity]. intros H. exfalso.
    assert (forallb (fun c => (c <=? 255)%N) s = true); [|congruence].
    apply forallb_forall. intros c Hc. rewrite Forall_forall in H.
    apply N.leb_le, H, Hc.
Qed.

(** X17.  [btoa] encodes exactly the strings whose code units are all at
    most 255 and throws on the others; [atob] gives back every string that
    [btoa] has encoded. *)
Theorem base64_round_trip (s : jsstring) :
  (latin1 s ->
   exists encoded, btoa s = Ok encoded /\ atob encoded = Ok s)
  /\ (~ latin1 s -> btoa s = Throw InvalidCharacterError).
Proof.
  split.
  - intros Hs. exists (base64_encode s).
    split; [apply btoa_latin1, Hs|apply atob_base64_encode, Hs].
  - apply btoa_latin1.
Qed.

Lemma latin1_check (s : jsstring) :
  forallb (fun c => (c <=? 255)%N) s = true -> latin1 s.
Proof.
  intros E. rewrite forallb_forall in E. apply Forall_forall.
  intros c Hc. apply N.leb_le, E, Hc.
Qed.

Lemma base64_round_trip_witness :
  exists encoded,
    btoa (JSON_stringify sampleRecipe) = Ok encoded
    /\ atob encoded = Ok (JSON_stringify sampleRecipe).
Proof.
  apply (proj1 (base64_round_trip (JSON_stringify sampleRecipe))).
  apply latin1_check. vm_compute. reflexivity.
Defined.

Lemma searchParams_no_plus (v : jsstring) :
  ~ In 43%N v -> searchParams_value v = v.
Proof.
  intros H. unfold searchParams_value. rewrite <- (map_id v) at 2.
  apply map_ext_in. intros c Hc.
  destruct (N.eqb_spec c 43); [subst; contradiction|reflexivity].
Qed.

(** What [atob] sees of a query value: the white space, and with it every
    [+] that the query string has turned into a space, is dropped. *)
Lemma searchParams_filtered (v : jsstring) :
  Forall (fun c => is_ascii_whitespace c = false) v ->
  filter (fun c => negb (is_ascii_whitespace c)) (searchParams_value v)
  = filter (fun c => negb (c =? 43)%N) v.
Proof.
  unfold searchParams_value.
  induction 1 as [|c v Hc Hv IH]; [reflexivity|].
  cbn [map filter]. rewrite IH.
  destruct (N.eqb_spec c 43) as [->|Hne]; [reflexivity|].
  rewrite Hc. reflexivity.
Qed.

Lemma strip_padding_prefix (s : jsstring) :
  exists t, s = strip_padding s ++ t.
Proof.
  unfold strip_padding.
  destruct (length s mod 4 =? 0)%nat; [|exists []; symmetry; apply app_nil_r].
  destruct (rev s) as [|x r] eqn:E; [exists []; symmetry; apply app_nil_r|].
  apply (f_equal (@rev N)) in E. rewrite rev_involutive in E.
  destruct (N.eqb_spec x 61) as [->|Hx].
  - destruct r as [|y r'].
    + exists [61%N]. rewrite E. reflexivity.
    + destruct (N.eqb_spec y 61) as [->|Hy].
      * exists [61%N; 61%N]. rewrite E. cbn [rev]. rewrite <- app_assoc.
        reflexivity.
      * rewrite (@strip_match_one y r' s Hy).
        exists [61%N]. rewrite E. reflexivity.
  - rewrite (@strip_match x r s Hx). exists []. symmetry. apply app_nil_r.
Qed.

Lemma sextets_length (d : jsstring) (l : list N) :
  sextets d = Some l -> length l = length d /\ Forall (fun c => c <> 61%N) d.
Proof.
  revert l. induction d as [|c d IH]; intros l H; cbn [sextets] in H.
  - injection H as <-. split; [reflexivity|constructor].
  - destruct (base64_index c) as [i|] eqn:Ei; [|discriminate].
    destruct (sextets d) as [rest|]; [|discriminate].
    injection H as <-. destruct (IH rest eq_refl) as [Hl Hd].
    split; [cbn; lia|]. constructor; [|exact Hd].
    intros ->. vm_compute in Ei. discriminate.
Qed.

Lemma decode_sextets_length (l : list N) :
  length (decode_sextets l) = 3 * length l / 4.
Proof.
  assert (H : forall n l, length l < n ->
                          length (decode_sextets l) = 3 * length l / 4).
  { intros n. induction n as [|n IH]; intros l' Hl; [lia|].
    destruct l' as [|a [|b [|c [|d rest]]]]; try reflexivity.
    cbn [decode_sextets]. rewrite length_app.
    rewrite IH by (cbn in Hl; lia). cbn [length].
    replace (3 * S (S (S (S (length rest))))) with (3 * length rest + 3 * 4) by lia.
    rewrite Nat.div_add by lia. lia. }
  apply (H (S (length l))). lia.
Qed.

Lemma sextets_of_length (s : jsstring) :
  length s = 3 * length (sextets_of s) / 4.
Proof.
  induction s as [|a|a b|a b c l IH] using list_ind3; try reflexivity.
  cbn [sextets_of]. rewrite length_app. cbn [length].
  replace (3 * (4 + length (sextets_of l)))
    with (3 * length (sextets_of l) + 3 * 4) by lia.
  rewrite Nat.div_add by lia. lia.
Qed.

Lemma filter_length_lt {A} (p : A -> bool) (l : list A) (x : A) :
  In x l -> p x = false -> length (filter p l) < length l.
Proof.
  induction l as [|y l IH]; intros Hin Hp; [destruct Hin|].
  cbn [filter]. pose proof (filter_length_le p l) as Hle.
  destruct Hin as [->|Hin].
  - rewrite Hp. cbn. lia.
  - specialize (IH Hin Hp). destruct (p y); cbn; lia.
Qed.

Lemma thirds (n r k : nat) :
  r = 0 \/ r = 2 \/ r = 3 -> n < r + k * 4 -> 3 * n / 4 < 3 * (r + k * 4) / 4.
Proof.
  intros Hr Hn. apply Nat.Div0.div_lt_upper_bound.
  replace (3 * (r + k * 4)) with (3 * r + 3 * k * 4) by lia.
  rewrite Nat.div_add by lia.
  destruct Hr as [->|[->| ->]]; cbn [Nat.mul Nat.add];
    [change (0 / 4) with 0|change (6 / 4) with 1|change (9 / 4) with 2]; lia.
Qed.

(** A base64 text with a [+], read from a query string, decodes to less
    than it encoded, if it decodes at all. *)
Lemma atob_after_plus (s text : jsstring) :
  In 43%N (base64_encode s) ->
  atob (searchParams_value (base64_encode s)) = Ok text ->
  length text < length s.
Proof.
  intros Hplus. unfold atob. cbv zeta.
  assert (Hplain : Forall (fun c => c <> 61%N /\ is_ascii_whitespace c = false)
                     (map base64_char (sextets_of s))).
  { apply Forall_forall. intros c Hc. apply in_map_iff in Hc as (i & <- & _).
    apply base64_char_plain. }
  assert (Hpad : Forall (fun c => c = 61%N) (padding_of s)).
  { destruct (padding_of_cases s) as [->|[->| ->]]; repeat constructor. }
  rewrite searchParams_filtered.
  2:{ rewrite base64_encode_parts. apply Forall_app. split.
      - eapply Forall_impl; [|exact Hplain]. intros c [_ H]. exact H.
      - eapply Forall_impl; [|exact Hpad]. intros c ->. reflexivity. }
  set (f := filter (fun c => negb (c =? 43)%N) (base64_encode s)).
  destruct (strip_padding_prefix f) as [t Ht].
  destruct (length (strip_padding f) mod 4 =? 1)%nat eqn:Emod; [discriminate|].
  destruct (sextets (strip_padding f)) as [l|] eqn:El; [|discriminate].
  intros [= <-].
  destruct (sextets_length _ El) as [Hl Hno].
  rewrite decode_sextets_length, Hl, (sextets_of_length s).
  (* the characters that are left are among the sextets of [s], less the [+] *)
  assert (Hcount : length (strip_padding f)
                   <= length (filter (fun c => negb (c =? 43)%N)
                                (map base64_char (sextets_of s)))).
  { assert (Hf : filter (fun c => negb (c =? 61)%N) f
                 = filter (fun c => negb (c =? 43)%N)
                     (map base64_char (sextets_of s))).
    { subst f. rewrite base64_encode_parts, !filter_app.
      assert (filter (fun c => negb (c =? 61)%N)
                (filter (fun c => negb (c =? 43)%N) (padding_of s)) = []) as ->.
      { destruct (padding_of_cases s) as [->|[->| ->]]; reflexivity. }
      rewrite app_nil_r. apply forallb_filter_id. apply forallb_forall.
      intros c Hc. apply filter_In in Hc as [Hc _].
      rewrite Forall_forall in Hplain. destruct (Hplain c Hc) as [Hne _].
      destruct (N.eqb_spec c 61); [contradiction|reflexivity]. }
    rewrite <- Hf. rewrite Ht at 2. rewrite filter_app, length_app.
    rewrite (forallb_filter_id (fun c => negb (c =? 61)%N) (strip_padding f)).
    - lia.
    - apply forallb_forall. intros c Hc. rewrite Forall_forall in Hno.
      specialize (Hno c Hc). destruct (N.eqb_spec c 61); [contradiction|reflexivity]. }
  assert (Hlt : length (filter (fun c => negb (c =? 43)%N)
                          (map base64_char (sextets_of s)))
                < length (sextets_of s)).
  { rewrite <- (length_map base64_char (sextets_of s)).
    apply (@filter_length_lt _ _ _ 43%N); [|reflexivity].
    rewrite base64_encode_parts in Hplus. apply in_app_or in Hplus as [H|H];
      [exact H|].
    rewrite Forall_forall in Hpad. specialize (Hpad _ H). discriminate. }
  destruct (base64_lengths s) as [_ (k' & r & Hr & Hcase)].
  rewrite Hr in *. apply (@thirds _ r k' Hcase). lia.
Qed.

Lemma not_in_check (x : N) (l : list N) :
  existsb (N.eqb x) l = false -> ~ In x l.
Proof.
  intros E H. assert (existsb (N.eqb x) l = true); [|congruence].
  apply existsb_exists. exists x. split; [exact H|apply N.eqb_refl].
Qed.

Lemma base64_encode_nonempty (s : jsstring) :
  s <> [] -> base64_encode s <> [].
Proof.
  destruct s as [|a [|b [|c l]]]; intros H; [contradiction| | |]; discriminate.
Qed.

Lemma JSON_stringify_nonempty (recipe : Recipe) : JSON_stringify recipe <> [].
Proof. unfold JSON_stringify, stringify_object. discriminate. Qed.

Lemma shareParameter_ok (recipe : Recipe) (encoded : jsstring) :
  shareParameter recipe = Ok encoded ->
  latin1 (JSON_stringify recipe)
  /\ encoded = base64_encode (JSON_stringify recipe).
Proof.
  unfold shareParameter, btoa. cbv zeta.
  destruct (forallb (fun c => (c <=? 255)%N) (JSON_stringify recipe)) eqn:E;
    [|discriminate].
  intros [= <-]. split; [apply latin1_check, E|reflexivity].
Qed.

Lemma atob_throws (v : jsstring) (e : exn) :
  atob v = Throw e -> e = InvalidCharacterError.
Proof.
  unfold atob. cbv zeta.
  destruct (_ =? 1)%nat; [intros [= <-]; reflexivity|].
  destruct (sextets _); [discriminate|intros [= <-]; reflexivity].
Qed.

Lemma loadSharedRecipe_throw (pf : Platform) (v : jsstring) (e : exn)
  (s : AppState) :
  v <> [] -> atob v = Throw e ->
  loadSharedRecipe pf (Some v) s = setError (Some invalidLinkNotice) s.
Proof.
  intros Hv E. unfold loadSharedRecipe, decodeShared.
  destruct v as [|c data]; [contradiction|].
  rewrite E. reflexivity.
Qed.

Lemma searchParams_nonempty (v : jsstring) :
  v <> [] -> searchParams_value v <> [].
Proof. destruct v; [contradiction|discriminate]. Qed.

(** X18.  A link carries a recipe back exactly when the base64 text of its
    JSON has no [+].  Without one, the query value decodes to the JSON text
    that was encoded, and the effect shows what the parser makes of it and
    reports a text that does not parse; with one, the query string turns
    the [+] into a space and the value does not decode, or decodes to a
    shorter text. *)
Theorem share_link_and_plus (pf : Platform) (origin pathname : jsstring)
  (recipe : Recipe) (encoded : jsstring) (s : AppState) :
  shareParameter recipe = Ok encoded ->
  generateShareableLink origin pathname recipe
  = Ok (origin ++ pathname ++ js "?recipe=" ++ encoded)
  /\ (~ In 43%N encoded ->
      atob (searchParams_value encoded) = Ok (JSON_stringify recipe)
      /\ shareRoundTrip pf recipe = JSON_parse_recipe pf (JSON_stringify recipe)
      /\ loadSharedRecipe pf (Some (searchParams_value encoded)) s
         = showDecoded pf (JSON_stringify recipe) s)
  /\ (In 43%N encoded ->
      match atob (searchParams_value encoded) with
      | Ok text_ => length text_ < length (JSON_stringify recipe)
      | Throw e =>
          e = InvalidCharacterError
          /\ loadSharedRecipe pf (Some (searchParams_value encoded)) s
             = setError (Some invalidLinkNotice) s
      end).
Proof.
  intros Hshare.
  destruct (shareParameter_ok recipe Hshare) as [Hl ->].
  split; [unfold generateShareableLink; rewrite Hshare; reflexivity|].
  pose proof (@base64_encode_nonempty _ (@JSON_stringify_nonempty recipe)) as Hne.
  split.
  - intros Hno. rewrite (@searchParams_no_plus _ Hno).
    pose proof (@atob_base64_encode _ Hl) as Hatob.
    split; [exact Hatob|]. split.
    + unfold shareRoundTrip. rewrite Hshare. cbn [bind].
      rewrite (@searchParams_no_plus _ Hno). unfold decodeShared.
      rewrite Hatob. reflexivity.
    + unfold loadSharedRecipe, showDecoded, decodeShared.
      destruct (base64_encode (JSON_stringify recipe)) as [|c data] eqn:E;
        [contradiction|].
      rewrite Hatob. cbn [bind]. reflexivity.
  - intros Hplus.
    assert (H : forall r,
               atob (searchParams_value (base64_encode (JSON_stringify recipe))) = r ->
               match r with
               | Ok text_ => length text_ < length (JSON_stringify recipe)
               | Throw e =>
                   e = InvalidCharacterError
                   /\ loadSharedRecipe pf
                        (Some (searchParams_value
                                 (base64_encode (JSON_stringify recipe)))) s
                      = setError (Some invalidLinkNotice) s
               end).
    { intros [text_|e] E.
      - exact (@atob_after_plus _ _ Hplus E).
      - split; [exact (@atob_throws _ _ E)|].
        exact (@loadSharedRecipe_throw pf _ e s
                 (@searchParams_nonempty _ Hne) E). }
    exact (H _ eq_refl).
Qed.

Lemma share_link_and_plus_witness :
  atob (searchParams_value (base64_encode (JSON_stringify sampleRecipe)))
  = Ok (JSON_stringify sampleRecipe)
  /\ match atob (searchParams_value
                   (base64_encode (JSON_stringify tildeRecipe))) with
     | Ok text_ => length text_ < length (JSON_stringify tildeRecipe)
     | Throw e =>
         e = InvalidCharacterError
         /\ loadSharedRecipe samplePlatform
              (Some (searchParams_value
                       (base64_encode (JSON_stringify tildeRecipe))))
              initialState
            = setError (Some invalidLinkNotice) initialState
     end.
Proof.
  split.
  - apply (proj1 (proj2
      (@share_link_and_plus samplePlatform [] [] sampleRecipe
         (base64_encode (JSON_stringify sampleRecipe)) initialState eq_refl))).
    apply not_in_check. vm_compute. reflexivity.
  - apply (proj2 (proj2
      (@share_link_and_plus samplePlatform [] [] tildeRecipe
         (base64_encode (JSON_stringify tildeRecipe)) initialState eq_refl))).
    vm_compute. tauto.
Defined.

(* ================================================================== *)
(** * Cuisines and hearts *)
(* ================================================================== *)

Lemma jsstring_eqb_sym (a b : jsstring) : jsstring_eqb a b = jsstring_eqb b a.
Proof.
  destruct (jsstring_eqb a b) eqn:E1, (jsstring_eqb b a) eqn:E2; try reflexivity.
  - apply jsstring_eqb_true in E1. subst.
    assert (jsstring_eqb b b = true) by (apply jsstring_eqb_true; reflexivity).
    congruence.
  - apply jsstring_eqb_true in E2. subst.
    assert (jsstring_eqb a a = true) by (apply jsstring_eqb_true; reflexivity).
    congruence.
Qed.

Lemma jsstring_eqb_refl (a : jsstring) : jsstring_eqb a a = true.
Proof. apply jsstring_eqb_true. reflexivity. Qed.

Lemma existsb_filter_other {A} (p q : A -> bool) (l : list A) :
  (forall x, p x = true -> q x = true) ->
  existsb p (filter q l) = existsb p l.
Proof.
  intros H. induction l as [|x l IH]; [reflexivity|].
  cbn [filter existsb]. destruct (q x) eqn:Eq; cbn [existsb].
  - rewrite IH. reflexivity.
  - destruct (p x) eqn:Ep; [apply H in Ep; congruence|]. exact IH.
Qed.

Lemma existsb_filter_self {A} (p : A -> bool) (l : list A) :
  existsb p (filter (fun x => negb (p x)) l) = false.
Proof.
  induction l as [|x l IH]; [reflexivity|].
  cbn [filter]. destruct (p x) eqn:E; cbn [negb existsb]; [exact IH|].
  rewrite E. exact IH.
Qed.

Lemma cuisine_step (c d : jsstring) (s : AppState) :
  selected d (handleCuisineToggle c s)
  = if jsstring_eqb d c then negb (selected d s) else selected d s.
Proof.
  unfold selected, handleCuisineToggle, setSelectedCuisines.
  cbn [selectedCuisines].
  destruct (jsstring_eqb d c) eqn:Edc.
  - apply jsstring_eqb_true in Edc. subst d.
    destruct (existsb (jsstring_eqb c) (selectedCuisines s)) eqn:E; cbn [negb].
    + rewrite <- (existsb_filter_self (jsstring_eqb c) (selectedCuisines s)).
      f_equal. apply filter_ext. intros x. rewrite jsstring_eqb_sym. reflexivity.
    + rewrite existsb_app, E. cbn. rewrite jsstring_eqb_refl. reflexivity.
  - destruct (existsb (jsstring_eqb c) (selectedCuisines s)) eqn:E.
    + apply existsb_filter_other. intros x Hx.
      apply jsstring_eqb_true in Hx. subst x.
      rewrite Edc. reflexivity.
    + rewrite existsb_app. cbn. rewrite Edc, !orb_false_r. reflexivity.
Qed.

Lemma cuisine_step_NoDup (c : jsstring) (s : AppState) :
  NoDup (selectedCuisines s) ->
  NoDup (selectedCuisines (handleCuisineToggle c s)).
Proof.
  intros Hnd. unfold handleCuisineToggle, setSelectedCuisines.
  cbn [selectedCuisines].
  destruct (existsb (jsstring_eqb c) (selectedCuisines s)) eqn:E.
  - apply NoDup_filter, Hnd.
  - apply NoDup_app; [exact Hnd|repeat constructor; intros []|].
    intros x Hx [Heq|[]]. subst x.
    assert (existsb (jsstring_eqb c) (selectedCuisines s) = true); [|congruence].
    apply existsb_exists. exists c. split; [exact Hx|apply jsstring_eqb_refl].
Qed.

(** X19.  Starting with no cuisine selected, after any clicks on cuisine
    buttons a cuisine is selected exactly when it was clicked an odd number
    of times, and no cuisine is listed twice; the clicks change nothing
    else in the state. *)
Theorem cuisines_by_parity (clicks : list jsstring) (c : jsstring) (s : AppState) :
  selectedCuisines s = [] ->
  let s' := toggleCuisines clicks s in
  selected c s' = Nat.odd (clicksOn c clicks)
  /\ (In c (selectedCuisines s') <-> Nat.odd (clicksOn c clicks) = true)
  /\ NoDup (selectedCuisines s')
  /\ setSelectedCuisines (fun _ => []) s' = s.
Proof.
  intros Hs s'.
  assert (Hgen : forall clicks0 s0,
             selected c (toggleCuisines clicks0 s0)
             = xorb (selected c s0) (Nat.odd (clicksOn c clicks0))
             /\ (NoDup (selectedCuisines s0) ->
                 NoDup (selectedCuisines (toggleCuisines clicks0 s0)))
             /\ setSelectedCuisines (fun _ => []) (toggleCuisines clicks0 s0)
                = setSelectedCuisines (fun _ => []) s0).
  { unfold toggleCuisines, clicksOn.
    induction clicks0 as [|d clicks0 IH]; intros s0; cbn [fold_left filter].
    - split; [cbn; rewrite xorb_false_r; reflexivity|]. split; auto.
    - destruct (IH (handleCuisineToggle d s0)) as (H1 & H2 & H3).
      rewrite H1, H3, cuisine_step. split; [|split].
      + destruct (jsstring_eqb c d); cbn [length]; [|reflexivity].
        rewrite Nat.odd_succ, <- Nat.negb_odd.
        destruct (selected c s0), (Nat.odd _); reflexivity.
      + intros Hnd. apply H2, cuisine_step_NoDup, Hnd.
      + reflexivity. }
  destruct (Hgen clicks s) as (H1 & H2 & H3). fold s' in H1, H2, H3.
  assert (Hsel : selected c s' = Nat.odd (clicksOn c clicks)).
  { rewrite H1. unfold selected. rewrite Hs. reflexivity. }
  split; [exact Hsel|]. split; [|split].
  - rewrite <- Hsel. unfold selected. rewrite existsb_exists. split.
    + intros H. exists c. split; [exact H|apply jsstring_eqb_refl].
    + intros (x & Hx & E). apply jsstring_eqb_true in E. subst x. exact Hx.
  - apply H2. rewrite Hs. constructor.
  - rewrite H3. destruct s. cbn in Hs. subst. reflexivity.
Qed.

Lemma cuisines_by_parity_witness :
  let s' := toggleCuisines [js "Italian"; js "Asian"; js "Italian"] initialState in
  selected (js "Italian") s'
  = Nat.odd (clicksOn (js "Italian") [js "Italian"; js "Asian"; js "Italian"])
  /\ (In (js "Italian") (selectedCuisines s')
      <-> Nat.odd (clicksOn (js "Italian")
                     [js "Italian"; js "Asian"; js "Italian"]) = true)
  /\ NoDup (selectedCuisines s')
  /\ setSelectedCuisines (fun _ => []) s' = initialState.
Proof.
  apply (@cuisines_by_parity [js "Italian"; js "Asian"; js "Italian"]
           (js "Italian") initialState).
  reflexivity.
Defined.

Lemma existsb_pointwise {A} (p q : A -> bool) (l : list A) :
  (forall x, p x = q x) -> existsb p l = existsb q l.
Proof.
  intros H. induction l as [|x l IH]; [reflexivity|].
  cbn [existsb]. rewrite H, IH. reflexivity.
Qed.

Lemma isSaved_step (r r' : Recipe) (prev : list Recipe) :
  isSaved (toggleSaved r prev) r'
  = if same_id r' r then negb (isSaved prev r) else isSaved prev r'.
Proof.
  assert (Hsym : forall a b, same_id a b = same_id b a)
    by (intros; unfold same_id; apply jsstring_eqb_sym).
  unfold isSaved, toggleSaved. cbv zeta.
  destruct (same_id r' r) eqn:E.
  - assert (Hto : forall x, same_id x r' = same_id x r).
    { intros x. apply same_id_true in E. unfold same_id. rewrite E.
      reflexivity. }
    rewrite (existsb_pointwise _ _ _ Hto).
    destruct (existsb (fun x => same_id x r) prev) eqn:Es; cbn [negb].
    + apply (existsb_filter_self (fun x => same_id x r)).
    + rewrite existsb_app, Es. cbn [existsb orb].
      assert (same_id r r = true) as -> by (apply same_id_true; reflexivity).
      reflexivity.
  - destruct (existsb (fun x => same_id x r) prev) eqn:Es.
    + apply existsb_filter_other. intros x Hx.
      destruct (same_id x r) eqn:Exr; [|reflexivity].
      apply same_id_true in Hx, Exr. apply same_id_false in E. congruence.
    + rewrite existsb_app. cbn [existsb]. rewrite (Hsym r r'), E, !orb_false_r.
      reflexivity.
Qed.

Lemma toggleHearts_saved (toggles : list Recipe) (s : AppState) :
  savedRecipes (toggleHearts toggles s) = toggleAll toggles (savedRecipes s).
Proof.
  unfold toggleHearts, toggleAll. revert s.
  induction toggles as [|r toggles IH]; intros s; cbn [fold_left]; [reflexivity|].
  rewrite IH. reflexivity.
Qed.

(** X20.  The heart of a card shows whether a recipe with the identifier of
    its recipe is saved.  A click on a heart flips the hearts of the recipes
    with that identifier and no others, so that after any clicks a heart has
    changed exactly when recipes with its identifier were toggled an odd
    number of times.  The trash button of the saved list turns the heart
    off and leaves the other hearts; on a saved recipe the heart does what
    the trash button does. *)
Theorem hearts_by_parity (toggles : list Recipe) (r : Recipe) (s : AppState) :
  isSaved (savedRecipes (toggleHearts toggles s)) r
  = xorb (isSaved (savedRecipes s) r) (Nat.odd (togglesOf r toggles))
  /\ (forall r',
         isSaved (savedRecipes (handleRemoveSavedRecipe (id r) s)) r'
         = if same_id r' r then false else isSaved (savedRecipes s) r')
  /\ (isSaved (savedRecipes s) r = true ->
      handleSaveToggle r s = handleRemoveSavedRecipe (id r) s).
Proof.
  split; [|split].
  - rewrite toggleHearts_saved. unfold toggleAll, togglesOf.
    generalize (savedRecipes s) as saved.
    induction toggles as [|t toggles IH]; intros saved; cbn [fold_left filter].
    + cbn. rewrite xorb_false_r. reflexivity.
    + rewrite IH, isSaved_step.
      assert (Hsym : same_id t r = same_id r t)
        by (unfold same_id; apply jsstring_eqb_sym).
      rewrite Hsym.
      destruct (same_id r t) eqn:E; [|reflexivity].
      assert (isSaved saved t = isSaved saved r) as ->.
      { unfold isSaved. apply existsb_pointwise. intros x.
        apply same_id_true in E. unfold same_id. rewrite E. reflexivity. }
      cbn [length]. rewrite Nat.odd_succ, <- Nat.negb_odd.
      destruct (isSaved saved r);
        destruct (Nat.odd (length (filter (fun x => same_id x r) toggles)));
        reflexivity.
  - intros r'. unfold handleRemoveSavedRecipe, setSavedRecipes, isSaved.
    cbn [savedRecipes].
    destruct (same_id r' r) eqn:E.
    + rewrite (existsb_pointwise (fun x => same_id x r')
                 (fun x => jsstring_eqb (id x) (id r))).
      * apply (existsb_filter_self (fun x => jsstring_eqb (id x) (id r))).
      * intros x. apply same_id_true in E. unfold same_id. rewrite E. reflexivity.
    + apply existsb_filter_other. intros x Hx.
      destruct (jsstring_eqb (id x) (id r)) eqn:Exr; [|reflexivity].
      apply same_id_true in Hx. apply jsstring_eqb_true in Exr.
      apply same_id_false in E. congruence.
  - intros Hsaved. unfold handleSaveToggle, handleRemoveSavedRecipe,
      setSavedRecipes, toggleSaved. cbv zeta.
    unfold isSaved in Hsaved. rewrite Hsaved. reflexivity.
Qed.

Lemma hearts_by_parity_witness :
  handleSaveToggle sampleRecipe (handleSaveToggle sampleRecipe initialState)
  = handleRemoveSavedRecipe (id sampleRecipe)
      (handleSaveToggle sampleRecipe initialState).
Proof.
  apply (proj2 (proj2 (hearts_by_parity [] sampleRecipe
                         (handleSaveToggle sampleRecipe initialState)))).
  vm_compute. reflexivity.
Defined.

(* ================================================================== *)
(** * The popular recipes *)
(* ================================================================== *)

(** X21.  The fetch of the popular recipes does nothing when popular
    recipes are already there.  Otherwise it stores what
    [getPopularRecipes] returns, under new identifiers, and starts the
    image loop for exactly the stored batch: at most three recipes, without
    images and failure flags when the parser returns records as the schema
    describes them.  Every stored recipe has had two draws of
    [crypto.randomUUID]: the batch is identified by the draws that follow
    those of the gateway.  When [getPopularRecipes] throws, the state stays
    as it is and nothing is reported. *)
Theorem popular_fetch_outcome (ai : GoogleGenAI) (pf : Platform)
  (s : AppState) (n : nat) :
  let out := fetchPopular ai pf s n in
  (popularRecipes s <> [] ->
   state out = s /\ dispatched out = [] /\ uuids out = n)
  /\ (popularRecipes s = [] ->
      (forall l n',
          getPopularRecipes ai pf 1 n = (Ok l, n') ->
          state out = setPopularRecipes (fun _ => dispatched out) s
          /\ map raw_of (dispatched out) = map raw_of l
          /\ length (dispatched out) <= 3
          /\ (schema_abiding pf -> Forall plain (dispatched out))
          /\ uuids out = n + 2 * length (dispatched out)
          /\ map id (dispatched out)
             = map (randomUUID pf)
                 (seq (n + length (dispatched out)) (length (dispatched out)))
          /\ (collision_free pf -> NoDup (map id (dispatched out))))
      /\ (forall err n',
             getPopularRecipes ai pf 1 n = (Throw err, n') ->
             state out = s /\ dispatched out = [] /\ uuids out = n)).
Proof.
  cbv zeta. unfold fetchPopular.
  destruct (popularRecipes s) as [|p ps] eqn:Hpop; cbn [length Nat.eqb].
  2:{ split; [intros _; repeat split; reflexivity|discriminate]. }
  split; [intros H; contradiction|]. intros _.
  pose proof (fetchRecipes_outcome ai pf 1
                [TextPart (js "Generate three globally popular and well-loved recipes from different cuisines (e.g., Italian, Mexican, Japanese)." ++ recipeDetails)] n) as Hf.
  unfold getPopularRecipes. cbv zeta.
  destruct (fetchRecipes ai pf 1 _ n) as [[l|err] n1].
  - split; [|intros err n' E; discriminate E].
    intros l' n' [= <- <-].
    pose proof Hf as Hfull. cbn [fetch_outcome] in Hf.
    destruct Hf as (Hlen & Hn1 & _ & _).
    pose proof (map_with_uuid_spec pf with_new_id l n1) as Hspec.
    pose proof (map_with_uuid_length pf with_new_id l n1) as Hl.
    pose proof (map_with_uuid_ids pf with_new_id l n1 (fun _ _ => eq_refl)) as Hids.
    pose proof (@map_with_uuid_proj _ _ _ pf with_new_id raw_of raw_of l n1
                  (fun _ _ => eq_refl)) as Hraw.
    pose proof (@Forall_map_with_uuid _ pf with_new_id plain plain l n1) as Hp.
    destruct (map_with_uuid pf with_new_id l n1) as [batch n2].
    cbn [fst] in *. injection Hspec as _ Hn2.
    cbn [state dispatched fetched uuids].
    split; [reflexivity|]. split; [exact Hraw|]. split; [lia|].
    split; [intros Hpf; apply Hp;
            [intros x u [H1 H2]; split; assumption
            |exact (@fetch_outcome_plain pf n (Ok l, n1) Hpf Hfull)]|].
    split; [lia|]. split; [rewrite Hids, Hl, Hn1; reflexivity|].
    intros Hfree. rewrite Hids. apply NoDup_uuids, Hfree.
  - split; [intros l n' E; discriminate E|].
    intros err' n' _. cbn [fetch_outcome] in Hf.
    cbn [state dispatched fetched uuids].
    split; [reflexivity|]. split; [reflexivity|exact Hf].
Qed.

Lemma popular_fetch_outcome_witness :
  state (fetchPopular ai_always_yes samplePlatform samplePopular 3)
  = samplePopular
  /\ Forall plain (dispatched (fetchPopular ai_always_yes samplePlatform
                                 initialState 0))
  /\ NoDup (map id (dispatched (fetchPopular ai_always_yes samplePlatform
                                  initialState 0)))
  /\ state (fetchPopular ai_down samplePlatform initialState 0) = initialState.
Proof.
  split; [|split; [|split]].
  - apply (proj1 (popular_fetch_outcome ai_always_yes samplePlatform
                    samplePopular 3)).
    vm_compute. discriminate.
  - destruct (getPopularRecipes ai_always_yes samplePlatform 1 0)
      as [[l|e] n'] eqn:E; [|vm_compute in E; discriminate E].
    destruct (proj1 (proj2 (popular_fetch_outcome ai_always_yes samplePlatform
                              initialState 0) eq_refl) l n' E)
      as (_ & _ & _ & H & _).
    exact (H samplePlatform_schema_abiding).
  - destruct (getPopularRecipes ai_always_yes samplePlatform 1 0)
      as [[l|e] n'] eqn:E; [|vm_compute in E; discriminate E].
    destruct (proj1 (proj2 (popular_fetch_outcome ai_always_yes samplePlatform
                              initialState 0) eq_refl) l n' E)
      as (_ & _ & _ & _ & _ & _ & H).
    exact (H samplePlatform_collision_free).
  - apply (proj2 (proj2 (popular_fetch_outcome ai_down samplePlatform
                           initialState 0) eq_refl) (Error (js "503")) 0).
    vm_compute. reflexivity.
Defined.

(* ================================================================== *)
(** * Saved recipes across sessions *)
(* ================================================================== *)

Lemma storeSaved_writable (sp : StoragePlatform) (l : list Recipe)
  (stored : option jsstring) :
  writable sp -> storeSaved sp l stored = Some (stringify_saved l).
Proof. intros Hw. unfold storeSaved. cbv zeta. rewrite Hw. reflexivity. Qed.

Lemma session_in_sync (sp : StoragePlatform) (events : list SavedEvent)
  (stored : option jsstring) :
  writable sp ->
  snd (session sp events stored)
  = Some (stringify_saved (savedRecipes (fst (session sp events stored)))).
Proof.
  intros Hw. unfold session.
  assert (H0 : snd (mountSaved sp initialState stored)
               = Some (stringify_saved
                         (savedRecipes (fst (mountSaved sp initialState stored))))).
  { unfold mountSaved. cbv zeta.
    destruct (loadSaved sp stored); cbn [fst snd];
      apply storeSaved_writable, Hw. }
  revert H0. generalize (mountSaved sp initialState stored).
  induction events as [|e events IH]; intros st H0; cbn [fold_left];
    [exact H0|].
  apply IH. destruct e; cbn [savedStep]; unfold saveToggle, removeSaved;
    cbv zeta; cbn [fst snd]; apply storeSaved_writable, Hw.
Qed.

Lemma loadSaved_reads (sp : StoragePlatform) (l : list Recipe) :
  getItem_returns sp = true ->
  JSON_parse_saved sp (stringify_saved l) = Ok l ->
  loadSaved sp (Some (stringify_saved l)) = Some l.
Proof.
  intros Hread Hparse. unfold loadSaved. rewrite Hread.
  remember (stringify_saved l) as stored eqn:E.
  destruct stored as [|c storedRecipes]; [discriminate E|].
  rewrite Hparse. reflexivity.
Qed.

(** X22.  With a storage that takes every write, the text under the key
    'savedRecipes' is, after the page has loaded and after every click on a
    heart or a trash button, the JSON text of the saved recipes.  A session
    that starts from the text that a session left, read back by
    [JSON.parse] as the list it was written from, starts with the same
    saved recipes and leaves the text in place.  A stored text that does
    not parse is lost at the load: the list stays empty and the text is
    replaced by that of the empty list. *)
Theorem saved_recipes_persist (sp : StoragePlatform) (events : list SavedEvent)
  (stored : option jsstring) :
  writable sp ->
  let s := fst (session sp events stored) in
  let kept := snd (session sp events stored) in
  kept = Some (stringify_saved (savedRecipes s))
  /\ (getItem_returns sp = true ->
      JSON_parse_saved sp (stringify_saved (savedRecipes s))
      = Ok (savedRecipes s) ->
      savedRecipes (fst (session sp [] kept)) = savedRecipes s
      /\ snd (session sp [] kept) = kept)
  /\ (forall text_ e,
         stored = Some text_ -> JSON_parse_saved sp text_ = Throw e ->
         session sp [] stored = (initialState, Some (js "[]"))).
Proof.
  intros Hw s kept.
  assert (Hsync : kept = Some (stringify_saved (savedRecipes s)))
    by (apply (@session_in_sync sp events stored Hw)).
  split; [exact Hsync|]. split.
  - intros Hread Hparse.
    pose proof (@session_in_sync sp [] kept Hw) as Hsync2.
    assert (Hsaved : savedRecipes (fst (session sp [] kept)) = savedRecipes s).
    { rewrite Hsync. unfold session. cbn [fold_left]. unfold mountSaved.
      cbv zeta. rewrite (@loadSaved_reads sp (savedRecipes s) Hread Hparse).
      reflexivity. }
    split; [exact Hsaved|]. rewrite Hsync2, Hsaved, Hsync. reflexivity.
  - intros text_ e -> Hthrow. unfold session. cbn [fold_left].
    unfold mountSaved. cbv zeta.
    rewrite (@storeSaved_writable sp (savedRecipes initialState) (Some text_) Hw).
    assert (loadSaved sp (Some text_) = None) as ->.
    { unfold loadSaved. destruct (getItem_returns sp); [|reflexivity].
      destruct text_ as [|c text_]; [reflexivity|].
      rewrite Hthrow. reflexivity. }
    reflexivity.
Qed.

Lemma saved_recipes_persist_witness :
  savedRecipes
    (fst (session sampleStorage []
            (snd (session sampleStorage [HeartClick sampleRecipe] None))))
  = [sampleRecipe].
Proof.
  destruct (@saved_recipes_persist sampleStorage [HeartClick sampleRecipe] None
              (fun _ => eq_refl)) as (_ & H & _).
  cbv zeta in H.
  destruct (H eq_refl) as [H1 _]; [vm_compute; reflexivity|].
  rewrite H1. vm_compute. reflexivity.
Defined.

(* ================================================================== *)
(** * From the fetch to the settled cards *)
(* ================================================================== *)

Lemma settleAll_frame (tasks : list (GoogleGenAI * Recipe)) (s : AppState) :
  isLoading (settleAll tasks s) = isLoading s
  /\ image (settleAll tasks s) = image s
  /\ error (settleAll tasks s)
     = if forallb (fun t => isValid (run_loop (fst t) (snd t))) tasks
       then error s else Some imageAdvisory.
Proof.
  unfold settleAll. revert s.
  induction tasks as [|t tasks IH]; intros s; cbn [fold_left forallb].
  - repeat split; reflexivity.
  - destruct (IH (generateAndSetImageForRecipe (fst t) (snd t) s))
      as (H1 & H2 & H3).
    rewrite H1, H2, H3, settle_fields. state_fields.
    split; [reflexivity|]. split; [reflexivity|].
    destruct (isValid (run_loop (fst t) (snd t))); cbn [andb];
      [reflexivity|].
    destruct (forallb _ tasks); reflexivity.
Qed.

(** X23.  From "Find Recipes" to the settled cards.  With an image
    selected and UUID draws that do not collide, the cards on the page after
    [handleGetRecipes] are exactly the batch for which it starts image
    loops, each with the placeholder when the parser returns records as the
    schema describes them.  When all these loops have settled,
    the cards are the final states of the loops, in the order of the batch,
    and none shows the placeholder any more.  If one of the loops rejected,
    the notice is the image advisory, also where it was the not-food
    advisory before: the button for different recipes then no longer
    takes the page for the not-food fallback. *)
Theorem find_recipes_then_settle (ai : GoogleGenAI) (pf : Platform)
  (exclude cuisines : list jsstring) (s : AppState) (n : nat) :
  truthy (image s) = true -> collision_free pf ->
  let out := handleGetRecipes ai pf exclude cuisines s n in
  let s' := settleAll (loopsFor ai (dispatched out)) (state out) in
  visibleCards (state out) = dispatched out
  /\ (schema_abiding pf ->
      Forall (fun r => imageArea r = ShowPending) (dispatched out))
  /\ visibleCards s' = map (finalRecipeState ai) (dispatched out)
  /\ Forall (fun r => imageArea r <> ShowPending) (visibleCards s')
  /\ error s' = (if allAccepted ai (dispatched out) then error (state out)
                 else Some imageAdvisory)
  /\ inFallback s' = inFallback (state out) && allAccepted ai (dispatched out).
Proof.
  intros Himg Hfree out s'.
  destruct (handleGetRecipes_outcome ai pf exclude cuisines s n) as [_ H].
  destruct (H Himg) as (Hload & Him & _ & _ & Hcases). fold out in Hload, Him, Hcases.
  destruct (settleAll_frame (loopsFor ai (dispatched out)) (state out))
    as (Fload & Fimg & Ferr). fold s' in Fload, Fimg, Ferr.
  assert (Hfor : forallb (fun t => isValid (run_loop (fst t) (snd t)))
                   (loopsFor ai (dispatched out))
                 = allAccepted ai (dispatched out)).
  { unfold loopsFor, allAccepted. generalize (dispatched out) as l.
    induction l as [|r l IH]; [reflexivity|].
    cbn [map forallb fst snd]. rewrite IH. reflexivity. }
  rewrite Hfor in Ferr.
  assert (Hsnd : map snd (loopsFor ai (dispatched out)) = dispatched out).
  { unfold loopsFor. rewrite map_map. apply map_id. }
  assert (Hids : taskIds (loopsFor ai (dispatched out)) = map id (dispatched out)).
  { unfold taskIds, loopsFor. rewrite map_map. reflexivity. }
  assert (Hfin : map (fun t => finalRecipeState (fst t) (snd t))
                   (loopsFor ai (dispatched out))
                 = map (finalRecipeState ai) (dispatched out)).
  { unfold loopsFor. rewrite map_map. reflexivity. }
  assert (Hcards : visibleCards (state out) = dispatched out
                   /\ (schema_abiding pf ->
                       Forall (fun r => imageArea r = ShowPending)
                         (dispatched out))
                   /\ visibleCards s' = map (finalRecipeState ai) (dispatched out)).
  { destruct Hcases as [(Hrec & _ & Hplain & Hnd & _)|(Hrec & Hnone & _)].
    - split; [unfold visibleCards, mainView; rewrite Hload, Hrec; reflexivity|].
      split.
      + intros Hpf. eapply Forall_impl; [|exact (Hplain Hpf)].
        intros r [Hu He]. unfold imageArea. rewrite Hu, He. reflexivity.
      + destruct (settleAll_recipes (loopsFor ai (dispatched out)) (state out))
          as (Hr & _ & _). fold s' in Hr.
        unfold visibleCards, mainView. rewrite Fload, Hload, Hr, Hrec.
        cbn [option_map].
        assert (Hown : NoDup (taskIds (loopsFor ai (dispatched out))))
          by (rewrite Hids; apply Hnd, Hfree).
        apply settledBy_own in Hown. rewrite Hsnd, Hfin in Hown. exact Hown.
    - assert (Hs' : s' = state out) by (subst s'; rewrite Hnone; reflexivity).
      rewrite Hs', Hnone.
      assert (visibleCards (state out) = []) as ->.
      { unfold visibleCards, mainView. rewrite Hload, Hrec, Him, Himg.
        reflexivity. }
      split; [reflexivity|]. split; [intros _; constructor|reflexivity]. }
  destruct Hcards as (C1 & C2 & C3).
  split; [exact C1|]. split; [exact C2|]. split; [exact C3|]. split.
  - rewrite C3. apply Forall_forall. intros r Hr.
    apply in_map_iff in Hr as (r0 & <- & _). apply final_card.
  - split; [exact Ferr|].
    unfold inFallback. rewrite Ferr.
    destruct (allAccepted ai (dispatched out)).
    + rewrite andb_true_r. reflexivity.
    + rewrite andb_false_r. vm_compute. reflexivity.
Qed.

Lemma find_recipes_then_settle_witness :
  let out := handleGetRecipes ai_always_yes samplePlatform [] [] sampleWithImage 0 in
  Forall (fun r => imageArea r = ShowPending) (dispatched out)
  /\ visibleCards (settleAll (loopsFor ai_always_yes (dispatched out)) (state out))
     = map (finalRecipeState ai_always_yes) (dispatched out).
Proof.
  split.
  - apply (proj1 (proj2
      (@find_recipes_then_settle ai_always_yes samplePlatform [] []
         sampleWithImage 0 eq_refl samplePlatform_collision_free))).
    exact samplePlatform_schema_abiding.
  - apply (proj1 (proj2 (proj2
      (@find_recipes_then_settle ai_always_yes samplePlatform [] []
         sampleWithImage 0 eq_refl samplePlatform_collision_free)))).
Defined.
